(** * kitn registry template: registry builder and import-path validator

    A shallow embedding of [scripts/build-registry.ts], of the validator
    script ([scripts/validate-registry.ts]) and of the zod schemas of
    [src/schema.ts], with the properties of the specification proved over
    it.

    Conventions.
    - A text is a [string], a sequence of 8-bit characters: the code units
      of a JavaScript string whose code units are all below 256. The
      classes [\s], [\w] and [.] of the patterns are the classes of the
      language on that range.
    - A JavaScript [Map] is an association list kept in insertion order
      (module [JsMap]). A plain object used as a dictionary is a [gmap]
      holding its own properties; a read that finds no own property goes on
      to the members every object inherits (module [PlainObject]).
    - Functions of the runtime whose result the scripts only pass on are
      parameters of the scripts: [JSON.parse], [JSON.stringify], the
      comparison of the collator, the clock.
    - The file system is an explicit state threaded through an
      error-and-state monad; [console] output is part of that state. The
      check marks of the console lines stand as the bytes of their UTF-8
      encoding. *)

From Stdlib Require Import Ascii String List ZArith Lia Bool Sorted Permutation.
From stdpp Require Import base option list strings gmap.

Import ListNotations.
Set Warnings "-register-all".
Local Open Scope string_scope.
Local Open Scope list_scope.

(** ** Characters and strings *)

Module Str.

Definition chars : string -> list ascii := list_ascii_of_string.
Definition of_chars : list ascii -> string := string_of_list_ascii.

Definition dquote : ascii := "034"%char.
Definition squote : ascii := "039"%char.
Definition slash : ascii := "/"%char.
Definition dot : ascii := "."%char.
Definition esc : ascii := "027"%char.

(** The line feed, [\n] in the scripts' string literals. *)
Definition nl : string := String "010"%char "".

Definition eqc (a b : ascii) : bool := Ascii.eqb a b.

(** [\s] below 256: TAB, LF, VT, FF, CR, SPACE and the no-break space. *)
Definition is_space (c : ascii) : bool :=
  let n := nat_of_ascii c in
  (Nat.leb 9 n && Nat.leb n 13) || Nat.eqb n 32 || Nat.eqb n 160.

Definition is_digit (c : ascii) : bool :=
  let n := nat_of_ascii c in Nat.leb 48 n && Nat.leb n 57.

(** [\w] is [[A-Za-z0-9_]]. *)
Definition is_word (c : ascii) : bool :=
  let n := nat_of_ascii c in
  (Nat.leb 65 n && Nat.leb n 90) || (Nat.leb 97 n && Nat.leb n 122)
  || is_digit c || Nat.eqb n 95.

Definition is_quote (c : ascii) : bool := eqc c dquote || eqc c squote.

(** [.] without the [s] flag: anything but a line terminator; LF and CR
    are the line terminators below 256. *)
Definition is_line_terminator (c : ascii) : bool :=
  let n := nat_of_ascii c in Nat.eqb n 10 || Nat.eqb n 13.

Fixpoint starts (p l : list ascii) : bool :=
  match p, l with
  | [], _ => true
  | a :: p', b :: l' => eqc a b && starts p' l'
  | _ :: _, [] => false
  end.

Fixpoint dropWhile (p : ascii -> bool) (l : list ascii) : list ascii :=
  match l with
  | c :: l' => if p c then dropWhile p l' else l
  | [] => []
  end.

Fixpoint takeWhile (p : ascii -> bool) (l : list ascii) : list ascii :=
  match l with
  | c :: l' => if p c then c :: takeWhile p l' else []
  | [] => []
  end.

(** [s.startsWith(p)] *)
Definition startsWith (s p : string) : bool := starts (chars p) (chars s).

(** [s.endsWith(p)] *)
Definition endsWith (s p : string) : bool :=
  starts (rev (chars p)) (rev (chars s)).

(** [s.slice(0, -n)] *)
Definition dropEnd (n : nat) (s : string) : string :=
  of_chars (take (length (chars s) - n) (chars s)).

(** [s.split(sep)]: never empty, the empty string splits into one empty
    segment. *)
Fixpoint split_go (sep : ascii) (cur : list ascii) (l : list ascii)
  : list string :=
  match l with
  | [] => [of_chars (rev cur)]
  | c :: l' =>
      if eqc c sep then of_chars (rev cur) :: split_go sep [] l'
      else split_go sep (c :: cur) l'
  end.

Definition split (sep : ascii) (s : string) : list string :=
  split_go sep [] (chars s).

(** [a.pop()] on the result of a [split]: its last element. *)
Definition pop (l : list string) : string := List.last l "".

(** [segs.join(sep)] *)
Definition join (sep : string) (l : list string) : string :=
  String.concat sep l.

(** [s.replace(pat, by)] with a string pattern: the first occurrence only. *)
Fixpoint replace_go (pat by_ : list ascii) (l : list ascii) : list ascii :=
  if starts pat l then by_ ++ drop (length pat) l
  else match l with
       | [] => []
       | c :: l' => c :: replace_go pat by_ l'
       end.

Definition replace (pat by_ s : string) : string :=
  of_chars (replace_go (chars pat) (chars by_) (chars s)).

(** [s.includes(p)] *)
Fixpoint includes_go (p l : list ascii) : bool :=
  starts p l || match l with [] => false | _ :: l' => includes_go p l' end.

Definition includes (s p : string) : bool := includes_go (chars p) (chars s).

(** Decimal rendering of a counter, as a template literal does. *)
Definition digit_of (n : nat) : ascii := ascii_of_nat (48 + n).

Fixpoint of_nat_go (fuel n : nat) (acc : list ascii) : list ascii :=
  match fuel with
  | 0 => acc
  | S f =>
      let acc' := digit_of (n mod 10) :: acc in
      if Nat.ltb n 10 then acc' else of_nat_go f (n / 10) acc'
  end.

Definition of_nat (n : nat) : string := of_chars (of_nat_go (S n) n []).

End Str.

(** ** POSIX [path] functions of the runtime *)

Module Path.
Import Str.

(** [normalizeString]: the segments of a path with empty and [.]
    segments dropped and [..] resolved against the segments before it.
    Above the root [..] is dropped for an absolute path and kept for a
    relative one. The stack is kept reversed. *)
Fixpoint normalize_go (allowAboveRoot : bool) (stack : list string)
    (segs : list string) : list string :=
  match segs with
  | [] => rev stack
  | seg :: rest =>
      if String.eqb seg "" || String.eqb seg "." then
        normalize_go allowAboveRoot stack rest
      else if String.eqb seg ".." then
        match stack with
        | top :: stack' =>
            if String.eqb top ".." then
              normalize_go allowAboveRoot (seg :: stack) rest
            else normalize_go allowAboveRoot stack' rest
        | [] =>
            if allowAboveRoot then normalize_go allowAboveRoot [seg] rest
            else normalize_go allowAboveRoot [] rest
        end
      else normalize_go allowAboveRoot (seg :: stack) rest
  end.

Definition normalizeString (path : string) (allowAboveRoot : bool) : string :=
  Str.join "/" (normalize_go allowAboveRoot [] (split slash path)).

Definition isAbsolute (path : string) : bool := startsWith path "/".

(** [path.normalize] *)
Definition normalize (path : string) : string :=
  if String.eqb path "" then "."
  else
    let abs := isAbsolute path in
    let trailing := endsWith path "/" in
    let p := normalizeString path (negb abs) in
    let p := if String.eqb p "" && negb abs then "." else p in
    let p := if negb (String.eqb p "") && trailing then p +:+ "/" else p in
    if abs then "/" +:+ p else p.

(** [path.join(...parts)]: the non-empty parts joined by [/], normalized. *)
Definition join (parts : list string) : string :=
  let parts := List.filter (fun p => negb (String.eqb p "")) parts in
  match parts with
  | [] => "."
  | _ => normalize (Str.join "/" parts)
  end.

(** [path.resolve] called with the root [/] first: the parts are taken from the right up
    to the first absolute one, empty parts skipped; the leading root [/]
    makes the result absolute. It has no trailing slash. *)
Fixpoint resolve_go (parts : list string) : string * bool :=
  match parts with
  | [] => ("", false)
  | p :: rest =>
      let '(tail, abs) := resolve_go rest in
      if abs then (tail, true)
      else if String.eqb p "" then (tail, false)
      else (p +:+ "/" +:+ tail, isAbsolute p)
  end.

Definition resolve_from_root (parts : list string) : string :=
  "/" +:+ normalizeString (fst (resolve_go ("/" :: parts))) false.

(** [path.dirname]: scanning from the end, trailing slashes are skipped
    and the directory stops before the last slash that follows a
    non-slash character; index 0 is never looked at. *)
Definition dirname (path : string) : string :=
  match chars path with
  | [] => "."
  | c0 :: rest =>
      let hasRoot := eqc c0 slash in
      let r1 := dropWhile (fun c => eqc c slash) (rev rest) in
      let r2 := dropWhile (fun c => negb (eqc c slash)) r1 in
      match r2 with
      | [] => if hasRoot then "/" else "."
      | _ :: r3 =>
          match r3 with
          | [] => if hasRoot then "//" else of_chars [c0]
          | _ => of_chars (c0 :: rev r3)
          end
      end
  end.

(** [path.extname]: the last path segment (trailing slashes skipped) from
    its last dot on; empty when there is no dot, when the dot is the
    first character of the segment, or when the segment is [..]. *)
Definition extname (path : string) : string :=
  let r := dropWhile (fun c => eqc c slash) (rev (chars path)) in
  let base := rev (takeWhile (fun c => negb (eqc c slash)) r) in
  let after := rev (takeWhile (fun c => negb (eqc c dot)) (rev base)) in
  let upto := length base - length after in
  (* [upto] is the index just after the last dot, 0 when there is none *)
  if Nat.eqb upto 0 then ""
  else if Nat.eqb upto 1 then ""
  else if Nat.eqb upto 2 && Nat.eqb (length base) 2
          && starts [dot; dot] base then ""
  else of_chars (dot :: after).

End Path.

(** ** Regular expressions

    A backtracking matcher for the fragment the scripts use: literals,
    character classes, alternation, sequence, greedy and lazy repetition of
    a character class, and capture groups. Alternatives are tried in the
    order the pattern gives them and the first overall success wins, as in
    the runtime. *)

Module Regex.
Import Str.

Inductive regex : Type :=
| Lit (s : string)                       (* literal text *)
| Class (p : ascii -> bool)              (* one character of a class *)
| Seq (r1 r2 : regex)
| Alt (r1 r2 : regex)
| Star (greedy : bool) (p : ascii -> bool)   (* [c*] and [c*?] *)
| Plus (greedy : bool) (p : ascii -> bool)   (* [c+] and [c+?] *)
| Group (r : regex).                     (* capture group *)

(** The captures made so far, in group order. *)
Definition captures := list string.
Definition outcome := option (list ascii * captures).
Definition cont := list ascii -> captures -> outcome.

Definition orElse (a : outcome) (b : unit -> outcome) : outcome :=
  match a with Some _ => a | None => b tt end.

Fixpoint star (greedy : bool) (p : ascii -> bool) (k : cont)
    (s : list ascii) (c : captures) : outcome :=
  match s with
  | a :: s' =>
      if p a then
        if greedy then orElse (star greedy p k s' c) (fun _ => k s c)
        else orElse (k s c) (fun _ => star greedy p k s' c)
      else k s c
  | [] => k s c
  end.

Fixpoint run (r : regex) (k : cont) (s : list ascii) (c : captures)
  : outcome :=
  match r with
  | Lit t =>
      if starts (chars t) s then k (drop (length (chars t)) s) c else None
  | Class p =>
      match s with
      | a :: s' => if p a then k s' c else None
      | [] => None
      end
  | Seq r1 r2 => run r1 (run r2 k) s c
  | Alt r1 r2 => orElse (run r1 k s c) (fun _ => run r2 k s c)
  | Star g p => star g p k s c
  | Plus g p =>
      match s with
      | a :: s' => if p a then star g p k s' c else None
      | [] => None
      end
  | Group r1 =>
      run r1
        (fun s' c' =>
           k s' (c' ++ [of_chars (take (length s - length s') s)]))
        s c
  end.

(** A match anchored at the head of [s]: the rest of the input and the
    captures. *)
Definition matchAt (r : regex) (s : list ascii) : outcome :=
  run r (fun s' c => Some (s', c)) s [].

(** The [while ((m = pattern.exec(source)) !== null)] loop of a global
    pattern: the leftmost match from [lastIndex] on, then the search goes
    on after that match. [skip] counts the characters of the last match
    that are still to be passed over. The patterns of the scripts need at
    least one character, so a match never is empty. *)
Fixpoint execAll_go (r : regex) (s : list ascii) (skip : nat)
  : list captures :=
  match s with
  | [] => []
  | _ :: s' =>
      match skip with
      | S n => execAll_go r s' n
      | 0 =>
          match matchAt r s with
          | Some (rest, c) =>
              c :: execAll_go r s' (length s - length rest - 1)
          | None => execAll_go r s' 0
          end
      end
  end.

Definition execAll (r : regex) (source : string) : list captures :=
  execAll_go r (chars source) 0.

(** [str.match(/^...$/)] for a pattern anchored at both ends. *)
Definition matchWhole (r : regex) (s : string) : option captures :=
  match run r (fun s' c => match s' with [] => Some ([], c) | _ => None end)
          (chars s) [] with
  | Some (_, c) => Some c
  | None => None
  end.

Fixpoint seq (rs : list regex) : regex :=
  match rs with
  | [] => Lit ""
  | [r] => r
  | r :: rs' => Seq r (seq rs')
  end.

Definition any (_ : ascii) : bool := true.
Definition quote : regex := Class is_quote.
Definition notQuote (c : ascii) : bool := negb (is_quote c).

End Regex.

(** ** The validator's tables and import extraction *)

(** [typeToDir]: the record literal shared by the scripts. *)
Definition typeToDir_table : list (string * string) :=
  [ ("kitn:agent", "agents");
    ("kitn:tool", "tools");
    ("kitn:skill", "skills");
    ("kitn:storage", "storage") ].

Fixpoint assoc {A} (k : string) (l : list (string * A)) : option A :=
  match l with
  | [] => None
  | (k', v) :: l' => if String.eqb k k' then Some v else assoc k l'
  end.

(** [typeToDir[t]] for a text [t]: the directory when [t] is a key of the
    literal, and [None], which is [undefined], otherwise. The names every
    object answers to by inheritance (see [PlainObject] below) are taken
    as any other text here; none of them is a component type. *)
Definition typeToDir (t : string) : option string := assoc t typeToDir_table.

(** How a template literal renders a possibly undefined string. *)
Definition show (o : option string) : string :=
  match o with Some s => s | None => "undefined" end.

(** [new Set(Object.values(typeToDir))], as the list of its elements. *)
Definition knownAliasTypes : list string := List.map snd typeToDir_table.

Definition knownAliasTypes_has (d : string) : bool :=
  existsb (String.eqb d) knownAliasTypes.

(** The common head of both patterns, [(?:import|export)\s+[\s\S]*?\s+from\s+Q].
    In these comments [Q] stands for the class of the two quote characters
    and [N] for its complement. *)
Definition importHead : list Regex.regex :=
  [ Regex.Alt (Regex.Lit "import") (Regex.Lit "export");
    Regex.Plus true Str.is_space;
    Regex.Star false Regex.any;
    Regex.Plus true Str.is_space;
    Regex.Lit "from";
    Regex.Plus true Str.is_space;
    Regex.quote ].

(** [/(?:import|export)\s+[\s\S]*?\s+from\s+Q(\.N+)Q/g] *)
Definition relativeImportPattern : Regex.regex :=
  Regex.seq (importHead ++
    [ Regex.Group (Regex.Seq (Regex.Lit ".") (Regex.Plus true Regex.notQuote));
      Regex.quote ]).

(** [/(?:import|export)\s+[\s\S]*?\s+from\s+Q@kitn\/([\w-]+)\/(N+)Q/g] *)
Definition aliasImportPattern : Regex.regex :=
  Regex.seq (importHead ++
    [ Regex.Lit "@kitn/";
      Regex.Group
        (Regex.Plus true (fun c => Str.is_word c || Str.eqc c "-"%char));
      Regex.Lit "/";
      Regex.Group (Regex.Plus true Regex.notQuote);
      Regex.quote ]).

(** [match[i]]; groups are numbered from 1. *)
Definition group (i : nat) (c : Regex.captures) : string :=
  nth (i - 1) c "".

Definition extractRelativeImports (source : string) : list string :=
  List.map (group 1) (Regex.execAll relativeImportPattern source).

Record AliasImport := { alias_type : string; alias_path : string }.

Definition extractKitnAliasImports (source : string) : list AliasImport :=
  flat_map
    (fun m =>
       if knownAliasTypes_has (group 1 m)
       then [ {| alias_type := group 1 m; alias_path := group 2 m |} ]
       else [])
    (Regex.execAll aliasImportPattern source).

(** [resolveImportToFile] *)
Definition resolveImportToFile (importPath fromFileInstalledPath : string)
  : string :=
  let fromDir := Path.dirname fromFileInstalledPath in
  let resolved := Path.resolve_from_root [fromDir; importPath] in
  (* strip the leading [/] *)
  let resolved := Str.of_chars (drop 1 (Str.chars resolved)) in
  if Str.endsWith resolved ".js" then Str.dropEnd 3 resolved +:+ ".ts"
  else resolved.

(** ** JavaScript [Map]

    Keys are strings here. Iteration follows insertion order; setting a key
    that is present replaces its value and keeps its position. *)

Module JsMap.

Definition t (V : Type) : Type := list (string * V).

Definition empty {V} : t V := [].

Fixpoint get {V} (k : string) (m : t V) : option V :=
  match m with
  | [] => None
  | (k', v) :: m' => if String.eqb k k' then Some v else get k m'
  end.

Definition has {V} (k : string) (m : t V) : bool :=
  match get k m with Some _ => true | None => false end.

Fixpoint set {V} (k : string) (v : V) (m : t V) : t V :=
  match m with
  | [] => [(k, v)]
  | (k', v') :: m' =>
      if String.eqb k k' then (k, v) :: m' else (k', v') :: set k v m'
  end.

Definition entries {V} (m : t V) : list (string * V) := m.
Definition size {V} (m : t V) : nat := length m.

End JsMap.

(** ** JavaScript values and the zod schemas of [src/schema.ts] *)

Inductive value : Type :=
| VUndefined
| VStr (s : string)
| VArr (items : list value)
| VObj (fields : list (string * value))
| VFun.                                    (* a function *)

(** [o[k]] on an object literal; a missing key reads as [undefined]. *)
Definition field (k : string) (v : value) : value :=
  match v with
  | VObj fields => match assoc k fields with Some x => x | None => VUndefined end
  | _ => VUndefined
  end.

Definition hasKey (k : string) (fields : list (string * value)) : bool :=
  match assoc k fields with Some _ => true | None => false end.

(** [a ?? b] *)
Definition nullish (a b : value) : value :=
  match a with VUndefined => b | _ => a end.

(** ** Plain objects used as dictionaries

    An object made by the literal [{}] and filled by assignment, with
    texts as the values of its own properties. Its prototype is
    [Object.prototype]: a read [o[k]] that finds no own property [k]
    finds the member of that name there, if there is one. *)

Module PlainObject.

(** The methods of [Object.prototype]. *)
Definition methods : list string :=
  [ "constructor"; "hasOwnProperty"; "isPrototypeOf"; "propertyIsEnumerable";
    "toLocaleString"; "toString"; "valueOf";
    "__defineGetter__"; "__defineSetter__";
    "__lookupGetter__"; "__lookupSetter__" ].

(** The names every plain object answers to: the methods, and the accessor
    [__proto__]. *)
Definition inherited (k : string) : bool :=
  String.eqb k "__proto__" || existsb (String.eqb k) methods.

(** [o[k]]. The getter of [__proto__] returns the prototype, an object
    without enumerable members. *)
Definition get (o : gmap string string) (k : string) : value :=
  match o !! k with
  | Some text => VStr text
  | None =>
      if String.eqb k "__proto__" then VObj []
      else if existsb (String.eqb k) methods then VFun
      else VUndefined
  end.

(** [o[k] = text]. The setter of [__proto__] ignores a value that is
    neither an object nor [null]: no property is made. *)
Definition set (k text : string) (o : gmap string string)
  : gmap string string :=
  if String.eqb k "__proto__" then o else <[k := text]> o.

End PlainObject.

Module Zod.

Inductive schema : Type :=
| string_                                  (* z.string() *)
| enum (options : list string)             (* z.enum([...]) *)
| array (item : schema)                    (* z.array(s) *)
| record (item : schema)                   (* z.record(z.string(), s) *)
| object (shape : list (string * schema))  (* z.object({...}) *)
| optional (s : schema)                    (* s.optional() *)
| default (s : schema) (d : value)         (* s.default(d) *)
| describe (s : schema) (text : string).   (* s.describe(text) *)

(** The issue a failed parse reports: the path to the offending value and
    what was expected there. *)
Record issue := { at_path : list string; expected : string }.

Definition under (k : string) (r : value + issue) : value + issue :=
  match r with
  | inl v => inl v
  | inr i => inr {| at_path := k :: at_path i; expected := expected i |}
  end.

Definition result : Type := value + issue.

Definition lift {A} (f : A -> value) (r : A + issue) : result :=
  match r with
  | inl a => inl (f a)
  | inr i => inr i
  end.

Section Each.
Variable parse : schema -> value -> result.

(** The elements of an array, each against the item schema. *)
Fixpoint each_item (item : schema) (i : nat) (l : list value)
  : list value + issue :=
  match l with
  | [] => inl []
  | x :: l' =>
      match under (Str.of_nat i) (parse item x) with
      | inr e => inr e
      | inl x' =>
          match each_item item (S i) l' with
          | inr e => inr e
          | inl l'' => inl (x' :: l'')
          end
      end
  end.

(** The values of a record, each against the value schema. *)
Fixpoint each_entry (item : schema) (l : list (string * value))
  : list (string * value) + issue :=
  match l with
  | [] => inl []
  | (k, x) :: l' =>
      match under k (parse item x) with
      | inr e => inr e
      | inl x' =>
          match each_entry item l' with
          | inr e => inr e
          | inl l'' => inl ((k, x') :: l'')
          end
      end
  end.

(** The keys of an object shape, in the order of the shape. Keys of the
    input the shape does not declare are stripped; a declared key is
    kept when the input has it or parsing gave it a value. *)
Fixpoint each_key (input : list (string * value))
    (shape : list (string * schema)) : list (string * value) + issue :=
  match shape with
  | [] => inl []
  | (k, sk) :: shape' =>
      match under k (parse sk (field k (VObj input))) with
      | inr e => inr e
      | inl x' =>
          match each_key input shape' with
          | inr e => inr e
          | inl l'' =>
              match x' with
              | VUndefined =>
                  if hasKey k input then inl ((k, x') :: l'') else inl l''
              | _ => inl ((k, x') :: l'')
              end
          end
      end
  end.
End Each.

(** [schema.parse(v)]: [inl] the parsed value, [inr] the issue of the
    [ZodError] it throws. *)
Fixpoint parse (s : schema) (v : value) {struct s} : result :=
  match s with
  | string_ =>
      match v with
      | VStr _ => inl v
      | _ => inr {| at_path := []; expected := "string" |}
      end
  | enum options =>
      match v with
      | VStr x =>
          if existsb (String.eqb x) options then inl v
          else inr {| at_path := []; expected := "enum" |}
      | _ => inr {| at_path := []; expected := "enum" |}
      end
  | array item =>
      match v with
      | VArr items => lift VArr (each_item parse item 0 items)
      | _ => inr {| at_path := []; expected := "array" |}
      end
  | record item =>
      match v with
      | VObj fields => lift VObj (each_entry parse item fields)
      | _ => inr {| at_path := []; expected := "record" |}
      end
  | object shape =>
      match v with
      | VObj fields => lift VObj (each_key parse fields shape)
      | _ => inr {| at_path := []; expected := "object" |}
      end
  | optional s' =>
      match v with
      | VUndefined => inl VUndefined
      | _ => parse s' v
      end
  | default s' d =>
      match v with
      | VUndefined => parse s' d
      | _ => parse s' v
      end
  | describe s' _ => parse s' v
  end.

End Zod.

(** *** The schemas *)

Definition componentType : Zod.schema :=
  Zod.enum ["kitn:agent"; "kitn:tool"; "kitn:skill"; "kitn:storage"].

Definition registryFileSchema : Zod.schema :=
  Zod.object
    [ ("path", Zod.describe Zod.string_
                 "Relative path within the component type directory");
      ("content", Zod.describe Zod.string_ "Full source code of the file");
      ("type", componentType) ].

Definition changelogEntrySchema : Zod.schema :=
  Zod.object
    [ ("version", Zod.string_);
      ("date", Zod.string_);
      ("type", Zod.enum ["feature"; "fix"; "breaking"; "initial"]);
      ("note", Zod.string_) ].

Definition registryItemSchema : Zod.schema :=
  Zod.object
    [ ("$schema", Zod.optional Zod.string_);
      ("name", Zod.describe Zod.string_ "Unique component identifier");
      ("type", componentType);
      ("description", Zod.string_);
      ("dependencies",
        Zod.describe (Zod.optional (Zod.array Zod.string_))
          "npm package dependencies");
      ("devDependencies", Zod.optional (Zod.array Zod.string_));
      ("registryDependencies",
        Zod.describe (Zod.optional (Zod.array Zod.string_))
          "Other kitn components this depends on");
      ("envVars",
        Zod.describe (Zod.optional (Zod.record Zod.string_))
          "Required env vars with descriptions");
      ("files", Zod.array registryFileSchema);
      ("installDir",
        Zod.describe (Zod.optional Zod.string_)
          "Target directory for package installation");
      ("tsconfig",
        Zod.describe (Zod.optional (Zod.record (Zod.array Zod.string_)))
          "TSConfig path aliases to add");
      ("docs",
        Zod.describe (Zod.optional Zod.string_)
          "Post-install instructions shown in terminal");
      ("categories", Zod.optional (Zod.array Zod.string_));
      ("version", Zod.default (Zod.optional Zod.string_) (VStr "1.0.0"));
      ("updatedAt", Zod.optional Zod.string_);
      ("changelog", Zod.optional (Zod.array changelogEntrySchema)) ].

Definition installedComponentSchema : Zod.schema :=
  Zod.object
    [ ("registry", Zod.optional Zod.string_);
      ("version", Zod.string_);
      ("installedAt", Zod.string_);
      ("files", Zod.array Zod.string_);
      ("hash", Zod.string_) ].

(** Modelled from the spec: [lockSchema] is exported by the schema module
    the tests import, but its declaration is not part of the sources at
    hand. The specification calls it the lock/installed-state structure, a
    mapping with no entries required, and the configuration schema keeps
    the same state under [installed] as a record of
    [installedComponentSchema]; it is taken to be that record. *)
Definition lockSchema : Zod.schema := Zod.record installedComponentSchema.

(** ** Component manifests *)

Record ChangelogEntry := {
  cl_version : string;
  cl_date : string;
  cl_type : string;
  cl_note : string
}.

(** [ComponentManifest] as [JSON.parse] delivers it. The optional fields of
    the interface are [option]s. [type] is kept as the string the manifest
    file carries: nothing narrows it before the item schema is applied. The
    validator's interface is the projection on [name], [type], [files] and
    [registryDependencies]; [files] is an [option] because the builder's
    interface declares it optional. *)
Record ComponentManifest := {
  name : string;
  type_ : string;
  description : string;
  dependencies : option (list string);
  devDependencies : option (list string);
  registryDependencies : option (list string);
  envVars : option (list (string * string));
  files : option (list string);
  installDir : option string;
  tsconfig : option (list (string * list string));
  docs : option string;
  categories : option (list string);
  version : option string;
  changelog : option (list ChangelogEntry)
}.

(** Typed data as JavaScript values. *)
Definition vopt {A} (f : A -> value) (o : option A) : value :=
  match o with Some a => f a | None => VUndefined end.

Definition vstrings (l : list string) : value := VArr (List.map VStr l).

Definition vrecord {A} (f : A -> value) (l : list (string * A)) : value :=
  VObj (List.map (fun kv => (fst kv, f (snd kv))) l).

Definition vchangelog (e : ChangelogEntry) : value :=
  VObj [ ("version", VStr (cl_version e));
         ("date", VStr (cl_date e));
         ("type", VStr (cl_type e));
         ("note", VStr (cl_note e)) ].

(** [a ?? b] on an optional string. *)
Definition orDefault (o : option string) (d : string) : string :=
  match o with Some s => s | None => d end.

(** ** The registry builder ([scripts/build-registry.ts]) *)

Inductive exn : Type :=
| ENOENT (path : string)        (* a file or directory that is not there *)
| EEXIST (path : string)        (* a file where a directory is to be made *)
| ENOTDIR (path : string)       (* a file where a directory is to be entered *)
| SyntaxError (path : string)   (* [JSON.parse] on malformed text *)
| TypeError (what : string)     (* a method call on [undefined] *)
| ZodError (i : Zod.issue).     (* a failed [schema.parse] *)

Inductive result (A : Type) : Type :=
| Ok (a : A)
| Throw (e : exn).
Arguments Ok {A} a.
Arguments Throw {A} e.

(** [buildRegistryItem]. [fileContents] is the plain object the caller
    fills, a dictionary from file name to text, given by its own
    properties. [now] is the value of [new Date().toISOString()]. *)
Definition buildRegistryItem (now : string) (manifest : ComponentManifest)
    (fileContents : gmap string string) : result value :=
  let dir := typeToDir (type_ manifest) in
  match files manifest with
  | None => Throw (TypeError "manifest.files is undefined")
  | Some fileNames =>
      let files :=
        List.map
          (fun fileName =>
             VObj [ ("path", VStr (show dir +:+ "/" +:+ fileName));
                    ("content",
                      nullish (PlainObject.get fileContents fileName)
                        (VStr ""));
                    ("type", VStr (type_ manifest)) ])
          fileNames in
      match
        Zod.parse registryItemSchema
          (VObj
             [ ("$schema", VStr "https://kitn.dev/schema/registry-item.json");
               ("name", VStr (name manifest));
               ("type", VStr (type_ manifest));
               ("description", VStr (description manifest));
               ("dependencies", vopt vstrings (dependencies manifest));
               ("devDependencies", vopt vstrings (devDependencies manifest));
               ("registryDependencies",
                 vopt vstrings (registryDependencies manifest));
               ("envVars", vopt (vrecord VStr) (envVars manifest));
               ("files", VArr files);
               ("docs", vopt VStr (docs manifest));
               ("categories", vopt vstrings (categories manifest));
               ("version", VStr (orDefault (version manifest) "1.0.0"));
               ("installDir", vopt VStr (installDir manifest));
               ("tsconfig", vopt (vrecord vstrings) (tsconfig manifest));
               ("updatedAt", VStr now);
               ("changelog",
                 vopt (fun l => VArr (List.map vchangelog l))
                   (changelog manifest)) ])
      with
      | inl item => Ok item
      | inr i => Throw (ZodError i)
      end
  end.

(** The reduced record of [buildRegistryIndex], with
    [existingVersions.get(name) ?? [version ?? "1.0.0"]] as its versions.
    The items are results of [registryItemSchema.parse], so their name is a
    string. *)
Definition indexItem (existingVersions : JsMap.t (list string)) (item : value)
  : value :=
  let name := field "name" item in
  let version := field "version" item in
  VObj [ ("name", name);
         ("type", field "type" item);
         ("description", field "description" item);
         ("registryDependencies", field "registryDependencies" item);
         ("categories", field "categories" item);
         ("version", version);
         ("versions",
           match name with
           | VStr n =>
               match JsMap.get n existingVersions with
               | Some vs => vstrings vs
               | None =>
                   VArr [ match version with
                          | VUndefined => VStr "1.0.0"
                          | v => v
                          end ]
               end
           | _ => VUndefined
           end);
         ("updatedAt", field "updatedAt" item) ].

Definition buildRegistryIndex (items : list value)
    (existingVersions : JsMap.t (list string)) : value :=
  VObj [ ("$schema", VStr "https://kitn.dev/schema/registry.json");
         ("version", VStr "1.0.0");
         ("items", VArr (List.map (indexItem existingVersions) items)) ].

(** *** The file system and the effects of the scripts *)

(** Files are texts under normalized absolute paths. A directory is known
    with the names [readdir] lists for it. *)
Record FS := {
  fs_files : gmap string string;
  fs_dirs : gmap string (list string)
}.

Inductive stream := Stdout | Stderr.

Record World := {
  fs : FS;
  console : list (stream * string)
}.

(** Computations that read and change the world and may throw. *)
Definition M (A : Type) : Type := World -> result A * World.

#[global] Instance M_ret : MRet M := fun A a w => (Ok a, w).
#[global] Instance M_bind : MBind M := fun A B f m w =>
  match m w with
  | (Ok a, w') => f a w'
  | (Throw e, w') => (Throw e, w')
  end.

#[global] Instance M_fmap : FMap M := fun A B f m w =>
  match m w with
  | (Ok a, w') => (Ok (f a), w')
  | (Throw e, w') => (Throw e, w')
  end.

Definition throw {A} (e : exn) : M A := fun w => (Throw e, w).

(** [try { m } catch { h }] *)
Definition tryCatch {A} (m : M A) (h : exn -> M A) : M A := fun w =>
  match m w with
  | (Ok a, w') => (Ok a, w')
  | (Throw e, w') => h e w'
  end.

(** A [for ... of] loop over a list that carries the variables it updates. *)
Fixpoint foldM {A S} (body : S -> A -> M S) (l : list A) (s : S) : M S :=
  match l with
  | [] => mret s
  | a :: l' => s' ← body s a; foldM body l' s'
  end.

Definition basename (p : string) : string := Str.pop (Str.split Str.slash p).

Definition readdir (dir : string) : M (list string) := fun w =>
  match fs_dirs (fs w) !! dir with
  | Some names => (Ok names, w)
  | None => (Throw (ENOENT dir), w)
  end.

Definition readFile (path : string) : M string := fun w =>
  match fs_files (fs w) !! path with
  | Some text => (Ok text, w)
  | None => (Throw (ENOENT path), w)
  end.

(** [access(path)]: succeeds when something is at [path]. *)
Definition access (path : string) : M unit := fun w =>
  match fs_files (fs w) !! path, fs_dirs (fs w) !! path with
  | None, None => (Throw (ENOENT path), w)
  | _, _ => (Ok tt, w)
  end.

Definition addName (n : string) (names : list string) : list string :=
  if existsb (String.eqb n) names then names else names ++ [n].

(** [mkdir(dir, { recursive: true })] on the directory table: [dir] and
    the ancestors that are missing are created, each listed in its parent;
    [None] when a file is in the place of one of them. [fuel] bounds the
    walk up to the root. *)
Fixpoint mkdirp (fuel : nat) (dir : string) (files : gmap string string)
    (d : gmap string (list string)) : option (gmap string (list string)) :=
  match d !! dir with
  | Some _ => Some d
  | None =>
      match files !! dir with
      | Some _ => None
      | None =>
          let parent := Path.dirname dir in
          d' ←
            match fuel with
            | 0 => Some d
            | S fuel' =>
                if String.eqb parent dir then Some d
                else mkdirp fuel' parent files d
            end;
          Some (<[dir := []]> (alter (addName (basename dir)) parent d'))
      end
  end.

(** A directory that is there is left as it is. A file at [dir] makes the
    call fail with EEXIST, a file at an ancestor with ENOTDIR. *)
Definition mkdir_recursive (dir : string) : M unit := fun w =>
  match
    mkdirp (String.length dir) dir (fs_files (fs w)) (fs_dirs (fs w))
  with
  | Some dirs =>
      (Ok tt,
       {| fs := {| fs_files := fs_files (fs w); fs_dirs := dirs |};
          console := console w |})
  | None =>
      match fs_files (fs w) !! dir with
      | Some _ => (Throw (EEXIST dir), w)
      | None => (Throw (ENOTDIR dir), w)
      end
  end.

(** [writeFile(path, text)]: creates or replaces the file; the directory
    must exist and [path] must not be a directory. *)
Definition writeFile (path text : string) : M unit := fun w =>
  let parent := Path.dirname path in
  match fs_dirs (fs w) !! parent, fs_dirs (fs w) !! path with
  | Some _, None =>
      (Ok tt,
       {| fs := {| fs_files := <[path := text]> (fs_files (fs w));
                   fs_dirs := alter (addName (basename path)) parent
                                (fs_dirs (fs w)) |};
          console := console w |})
  | _, _ => (Throw (ENOENT path), w)
  end.

Definition print (s : stream) (line : string) : M unit := fun w =>
  (Ok tt, {| fs := fs w; console := console w ++ [(s, line)] |}).

Definition console_log : string -> M unit := print Stdout.
Definition console_warn : string -> M unit := print Stderr.
Definition console_error : string -> M unit := print Stderr.

(** *** Version lists *)

(** The versions are sorted with the comparison of the runtime's collator,
    [a.localeCompare(b, undefined, { numeric: true })], which the script
    takes as it is: it is the parameter [localeCompare] of
    [collectVersions] and of the entry point.

    [Collator.localeCompare] is a numeric-aware comparison for the
    examples. The strings are compared piece by piece, a maximal run of
    digits counting as one piece that compares by its numeric value, any
    other character by its code. On dotted numbers such as 1.10.0 this is
    the order of the collator; other texts the collator orders by its own
    table, which this comparison does not follow, and the examples stay
    within dotted numbers. *)
Module Collator.

Inductive piece := Num (n : N) | Chr (c : ascii).

Definition digitVal (c : ascii) : N := N_of_ascii c - 48.

(** [cur] is the value of the digit run being read, if any. *)
Fixpoint pieces_go (cur : option N) (l : list ascii) : list piece :=
  match l with
  | [] => match cur with Some n => [Num n] | None => [] end
  | c :: l' =>
      if Str.is_digit c then
        pieces_go (Some (10 * default 0%N cur + digitVal c)%N) l'
      else
        match cur with
        | Some n => Num n :: Chr c :: pieces_go None l'
        | None => Chr c :: pieces_go None l'
        end
  end.

Definition pieces (s : string) : list piece := pieces_go None (Str.chars s).

(** A number sorts where the digits do. *)
Definition key (p : piece) : N * N :=
  match p with
  | Num n => (48%N, n)
  | Chr c => (N_of_ascii c, 0%N)
  end.

Definition comparePiece (p q : piece) : comparison :=
  match N.compare (fst (key p)) (fst (key q)) with
  | Eq => N.compare (snd (key p)) (snd (key q))
  | c => c
  end.

Fixpoint comparePieces (a b : list piece) : comparison :=
  match a, b with
  | [], [] => Eq
  | [], _ :: _ => Lt
  | _ :: _, [] => Gt
  | p :: a', q :: b' =>
      match comparePiece p q with
      | Eq => comparePieces a' b'
      | c => c
      end
  end.

(** Negative, zero or positive. *)
Definition localeCompare (a b : string) : Z :=
  match comparePieces (pieces a) (pieces b) with
  | Lt => (-1)%Z
  | Eq => 0%Z
  | Gt => 1%Z
  end.

End Collator.

(** [Array.prototype.sort(cmp)]: the stable sort of the language, here by
    insertion from the right; [cmp x y <= 0] keeps [x] before [y]. *)
Fixpoint sortInsert {A} (cmp : A -> A -> Z) (x : A) (l : list A) : list A :=
  match l with
  | [] => [x]
  | y :: l' => if (cmp x y <=? 0)%Z then x :: l else y :: sortInsert cmp x l'
  end.

Definition sort {A} (cmp : A -> A -> Z) (l : list A) : list A :=
  fold_right (sortInsert cmp) [] l.

(** [new RegExp(`^${escaped name}@(.+)\\.json$`)]: the escaping makes the
    name match itself. *)
Definition versionPattern (name : string) : Regex.regex :=
  Regex.seq
    [ Regex.Lit name;
      Regex.Lit "@";
      Regex.Group (Regex.Plus true (fun c => negb (Str.is_line_terminator c)));
      Regex.Lit ".json" ].

(** The loop over [dirEntries]: the captured version of every name that
    matches. *)
Definition scanVersions (name : string) (dirEntries : list string)
  : list string :=
  flat_map
    (fun f =>
       match Regex.matchWhole (versionPattern name) f with
       | Some m => [group 1 m]
       | None => []
       end)
    dirEntries.

(** The versions of a component found among the names of the output
    directory, sorted with
    [(a, b) => b.localeCompare(a, undefined, { numeric: true })]. *)
Definition collectVersions (localeCompare : string -> string -> Z)
    (name : string) (dirEntries : list string) : list string :=
  sort (fun a b => localeCompare b a) (scanVersions name dirEntries).

(** *** The command-line entry point of the builder *)

Definition typeDirs : list string := ["agents"; "tools"; "skills"; "storage"].

Section Scripts.

(** [JSON.parse] of a manifest file, [None] when it throws;
    [JSON.stringify(v, null, 2)]; the comparison
    [a.localeCompare(b, undefined, { numeric: true })], negative, zero or
    positive; the root of the repository
    ([new URL("..", import.meta.url).pathname]) and the time of the run. *)
Variable JSON_parse : string -> option ComponentManifest.
Variable JSON_stringify : value -> string.
Variable localeCompare : string -> string -> Z.
Variable ROOT : string.
Variable now : string.

Definition COMPONENTS_DIR : string := Path.join [ROOT; "components"].
Definition OUTPUT_DIR : string := Path.join [ROOT; "r"].

Definition parseManifest (path raw : string) : M ComponentManifest :=
  match JSON_parse raw with
  | Some m => mret m
  | None => throw (SyntaxError path)
  end.

(** The variables the two loops of the builder update. *)
Record BuildState := {
  allItems : list value;
  existingVersions : JsMap.t (list string)
}.

(** [for (const fileName of manifest.files!) fileContents[fileName] = ...] *)
Definition readSources (componentDir : string) (manifest : ComponentManifest)
  : M (gmap string string) :=
  match files manifest with
  | None => throw (TypeError "manifest.files is not iterable")
  | Some fileNames =>
      foldM
        (fun (fileContents : gmap string string) fileName =>
           text ← readFile (Path.join [componentDir; fileName]);
           mret (PlainObject.set fileName text fileContents))
        fileNames ∅
  end.

Definition latestPath (outDir name : string) : string :=
  Path.join [outDir; name +:+ ".json"].

Definition versionedPath (outDir name version : string) : string :=
  Path.join [outDir; name +:+ "@" +:+ version +:+ ".json"].

(** The body of the inner loop, one directory entry of a type
    directory. *)
Definition buildEntry (typeDir dir : string) (st : BuildState)
    (entry : string) : M BuildState :=
  let componentDir := Path.join [dir; entry] in
  let manifestPath := Path.join [componentDir; "manifest.json"] in
  manifestRaw ←
    tryCatch (Some <$> readFile manifestPath)
      (fun _ =>
         console_warn ("Skipping " +:+ componentDir +:+ ": no manifest.json");;
         mret None);
  match manifestRaw with
  | None => mret st                                  (* continue *)
  | Some manifestRaw =>
      manifest ← parseManifest manifestPath manifestRaw;
      (* Read source files *)
      fileContents ← readSources componentDir manifest;
      item ← (fun w => (buildRegistryItem now manifest fileContents, w));
      let allItems := allItems st ++ [item] in
      (* Write individual item JSON *)
      let outDir := Path.join [OUTPUT_DIR; typeDir] in
      mkdir_recursive outDir;;
      (* Write latest (always overwritten) *)
      writeFile (latestPath outDir (name manifest))
        (JSON_stringify item +:+ Str.nl);;
      console_log
        ("✓ Built " +:+ typeDir +:+ "/" +:+ name manifest +:+ ".json");;
      (* Write versioned file (immutable, skipped if it already exists) *)
      let version := orDefault (version manifest) "1.0.0" in
      let versionedPath := versionedPath outDir (name manifest) version in
      tryCatch (access versionedPath)
        (fun _ =>
           writeFile versionedPath (JSON_stringify item +:+ Str.nl);;
           console_log
             ("  + " +:+ typeDir +:+ "/" +:+ name manifest +:+ "@"
                +:+ version +:+ ".json (versioned)"));;
      (* Collect available versions by scanning existing @version files *)
      dirEntries ← readdir outDir;
      let versions := collectVersions localeCompare (name manifest) dirEntries in
      mret {| allItems := allItems;
              existingVersions :=
                JsMap.set (name manifest) versions (existingVersions st) |}
  end.

(** The body of the outer loop, one type directory. *)
Definition buildTypeDir (st : BuildState) (typeDir : string) : M BuildState :=
  let dir := Path.join [COMPONENTS_DIR; typeDir] in
  entries ← tryCatch (Some <$> readdir dir) (fun _ => mret None);
  match entries with
  | None => mret st                                  (* continue *)
  | Some entries => foldM (buildEntry typeDir dir) entries st
  end.

Definition build : M unit :=
  st ← foldM buildTypeDir typeDirs
         {| allItems := []; existingVersions := JsMap.empty |};
  (* Write registry index *)
  let index := buildRegistryIndex (allItems st) (existingVersions st) in
  writeFile (Path.join [OUTPUT_DIR; "registry.json"])
    (JSON_stringify index +:+ Str.nl);;
  console_log
    (Str.nl +:+ "✓ Registry index: " +:+ Str.of_nat (length (allItems st))
       +:+ " components").

(** The status the process ends with: an exception that nothing catches
    ends the run with status 1. *)
Definition exitCode {A} (r : result A) : nat :=
  match r with Ok _ => 0 | Throw _ => 1 end.

End Scripts.

(** ** The import-path validator ([scripts/validate-registry.ts]) *)

(** *** What the validator reports *)

(** One constructor for each place where the script counts an error; the
    arguments are the values its messages are built from. A hint of an
    unresolved relative import names a candidate path, its component, and
    whether that component is missing from [registryDependencies]. *)
Inductive finding : Type :=
| UnresolvedAlias (componentName installedPath type importedPath
                     resolvedTarget : string)
| CrossTypeImport (componentName installedPath importPath targetDir
                     resolvedTarget : string)
| UnresolvedRelative (componentName installedPath importPath
                        resolvedTarget : string)
                     (hints : list (string * string * bool))
| DanglingDependency (name dep : string).

(** Terminal colours: [\x1b[31m] and the like. *)
Definition sgr (code : string) : string :=
  String Str.esc ("[" +:+ code +:+ "m").
Definition red (s : string) : string := sgr "31" +:+ s +:+ sgr "0".
Definition yellow (s : string) : string := sgr "33" +:+ s +:+ sgr "0".
Definition green (s : string) : string := sgr "32" +:+ s +:+ sgr "0".
Definition q : string := String Str.dquote "".

Definition headerLine (componentName installedPath : string) : string :=
  red "✗" +:+ " " +:+ componentName +:+ " → " +:+ installedPath.

Definition didYouMeanLine (candidatePath candidateName : string) : string :=
  "  " +:+ yellow "hint" +:+ ": did you mean " +:+ q +:+ candidatePath +:+ q
    +:+ " from component " +:+ q +:+ candidateName +:+ q +:+ "?".

Definition missingDependencyLine (candidateName : string) : string :=
  "  " +:+ yellow "hint" +:+ ": " +:+ q +:+ candidateName +:+ q
    +:+ " is not in registryDependencies — add it to manifest.json".

Definition hintLines (h : string * string * bool) : list string :=
  let '(candidatePath, candidateName, undeclared) := h in
  didYouMeanLine candidatePath candidateName
    :: (if undeclared then [missingDependencyLine candidateName] else []).

(** The lines [console.error] receives for a finding. *)
Definition render (f : finding) : list string :=
  match f with
  | UnresolvedAlias componentName installedPath type importedPath
      resolvedTarget =>
      [ headerLine componentName installedPath;
        "  import " +:+ q +:+ "@kitn/" +:+ type +:+ "/" +:+ importedPath +:+ q
          +:+ " resolves to " +:+ q +:+ resolvedTarget +:+ q
          +:+ " which is not in the registry";
        "" ]
  | CrossTypeImport componentName installedPath importPath targetDir
      resolvedTarget =>
      [ headerLine componentName installedPath;
        "  relative cross-type import " +:+ q +:+ importPath +:+ q
          +:+ " should use @kitn/ alias instead";
        "  " +:+ yellow "hint" +:+ ": use " +:+ q +:+ "@kitn/" +:+ targetDir
          +:+ "/"
          +:+ Str.replace ".ts" ".js"
                (Str.pop (Str.split Str.slash resolvedTarget))
          +:+ q +:+ " instead";
        "" ]
  | UnresolvedRelative componentName installedPath importPath resolvedTarget
      hints =>
      [ headerLine componentName installedPath;
        "  import " +:+ q +:+ importPath +:+ q +:+ " resolves to " +:+ q
          +:+ resolvedTarget +:+ q +:+ " which is not in the registry" ]
      ++ flat_map hintLines hints ++ [ "" ]
  | DanglingDependency name dep =>
      [ red "✗" +:+ " " +:+ name +:+ ": registryDependency " +:+ q +:+ dep
          +:+ q +:+ " does not exist in the registry" ]
  end.

(** *** Phase 1: the installed layout *)

(** The three maps of [main]: installed path to component name, component
    name to manifest, installed path to source text. *)
Record Layout := {
  installedFiles : JsMap.t string;
  manifests : JsMap.t ComponentManifest;
  fileContents : JsMap.t string
}.

Definition emptyLayout : Layout :=
  {| installedFiles := JsMap.empty;
     manifests := JsMap.empty;
     fileContents := JsMap.empty |}.

(** *** Phases 2 and 3: the checks *)

(** The counters of [main] and what it has reported so far. *)
Record Report := {
  errors : nat;
  filesChecked : nat;
  importsChecked : nat;
  findings : list finding
}.

Definition emptyReport : Report :=
  {| errors := 0; filesChecked := 0; importsChecked := 0; findings := [] |}.

(** [errors++] together with the [console.error] calls that follow it. *)
Definition report (f : finding) (r : Report) : Report :=
  {| errors := S (errors r);
     filesChecked := filesChecked r;
     importsChecked := importsChecked r;
     findings := findings r ++ [f] |}.

Definition countFile (r : Report) : Report :=
  {| errors := errors r;
     filesChecked := S (filesChecked r);
     importsChecked := importsChecked r;
     findings := findings r |}.

Definition countImport (r : Report) : Report :=
  {| errors := errors r;
     filesChecked := filesChecked r;
     importsChecked := S (importsChecked r);
     findings := findings r |}.

(** [t.endsWith(".js") ? t.slice(0, -3) + ".ts" : t] *)
Definition jsToTs (t : string) : string :=
  if Str.endsWith t ".js" then Str.dropEnd 3 t +:+ ".ts" else t.

Section Checks.
Variable layout : Layout.

(** The body of the loop over the alias imports of a file. *)
Definition checkAliasImport (componentName installedPath : string)
    (r : Report) (imp : AliasImport) : Report :=
  let r := countImport r in
  let resolvedTarget :=
    jsToTs (alias_type imp +:+ "/" +:+ alias_path imp) in
  if negb (JsMap.has resolvedTarget (installedFiles layout)) then
    report
      (UnresolvedAlias componentName installedPath (alias_type imp)
         (alias_path imp) resolvedTarget) r
  else r.

(** The suggestions for an unresolved relative import: the installed
    paths that end with the file name of the target. The manifest of the
    importing component is there whenever phase 1 recorded the file
    (lemma [buildLayout_owned]), so the non-null assertion of the script
    never fails; without a manifest no dependency counts as declared. *)
Definition suggestions (componentName resolvedTarget : string)
  : list (string * string * bool) :=
  let fileName := Str.pop (Str.split Str.slash resolvedTarget) in
  let candidates :=
    List.filter (fun e => Str.endsWith (fst e) fileName)
      (JsMap.entries (installedFiles layout)) in
  let deps :=
    match JsMap.get componentName (manifests layout) with
    | Some manifest => default [] (registryDependencies manifest)
    | None => []
    end in
  List.map
    (fun e =>
       (fst e, snd e, negb (existsb (String.eqb (snd e)) deps)))
    candidates.

(** The body of the loop over the relative imports of a file. *)
Definition checkRelativeImport (componentName installedPath : string)
    (r : Report) (importPath : string) : Report :=
  let fromDir := Path.dirname installedPath in
  let r := countImport r in
  let resolvedTarget := resolveImportToFile importPath installedPath in
  let targetDir := Path.dirname resolvedTarget in
  (* Flag relative cross-type imports, these should be @kitn/ aliases *)
  if negb (String.eqb targetDir fromDir) && knownAliasTypes_has targetDir
  then
    report
      (CrossTypeImport componentName installedPath importPath targetDir
         resolvedTarget) r                               (* continue *)
  else if negb (JsMap.has resolvedTarget (installedFiles layout)) then
    report
      (UnresolvedRelative componentName installedPath importPath
         resolvedTarget (suggestions componentName resolvedTarget)) r
  else r.

(** The body of the loop over [installedFiles]. *)
Definition checkFile (r : Report) (e : string * string) : Report :=
  let '(installedPath, componentName) := e in
  (* Skip non-TypeScript files (skills are .md) *)
  if negb (String.eqb (Path.extname installedPath) ".ts") then r
  else
    let source := show (JsMap.get installedPath (fileContents layout)) in
    let r := countFile r in
    let r :=
      fold_left (checkAliasImport componentName installedPath)
        (extractKitnAliasImports source) r in
    fold_left (checkRelativeImport componentName installedPath)
      (extractRelativeImports source) r.

(** Phase 3: the body of the loop over the declared dependencies of a
    component. *)
Definition checkDependency (name : string) (r : Report) (dep : string)
  : Report :=
  if negb (JsMap.has dep (manifests layout)) then
    report (DanglingDependency name dep) r
  else r.

Definition checkManifest (r : Report) (e : string * ComponentManifest)
  : Report :=
  fold_left (checkDependency (fst e))
    (default [] (registryDependencies (snd e))) r.

Definition validateLayout : Report :=
  let r := fold_left checkFile (JsMap.entries (installedFiles layout))
             emptyReport in
  fold_left checkManifest (JsMap.entries (manifests layout)) r.

End Checks.

Section Validator.

Variable JSON_parse : string -> option ComponentManifest.
Variable ROOT : string.

(** The loop over the declared files of a manifest. *)
Definition recordFile (dir entry : string) (manifest : ComponentManifest)
    (installDir : option string) (l : Layout) (fileName : string)
  : M Layout :=
  let installedPath := show installDir +:+ "/" +:+ fileName in
  let installed :=
    JsMap.set installedPath (name manifest) (installedFiles l) in
  source ← readFile (Path.join [dir; entry; fileName]);
  mret {| installedFiles := installed;
          manifests := manifests l;
          fileContents := JsMap.set installedPath source (fileContents l) |}.

(** The body of the inner loop of phase 1, one directory entry. *)
Definition scanEntry (dir : string) (l : Layout) (entry : string)
  : M Layout :=
  let manifestPath := Path.join [dir; entry; "manifest.json"] in
  manifestRaw ←
    tryCatch (Some <$> readFile manifestPath) (fun _ => mret None);
  match manifestRaw with
  | None => mret l                                   (* continue *)
  | Some manifestRaw =>
      manifest ← parseManifest JSON_parse manifestPath manifestRaw;
      let l :=
        {| installedFiles := installedFiles l;
           manifests := JsMap.set (name manifest) manifest (manifests l);
           fileContents := fileContents l |} in
      let installDir := typeToDir (type_ manifest) in
      match files manifest with
      | None => throw (TypeError "manifest.files is not iterable")
      | Some fileNames =>
          foldM (recordFile dir entry manifest installDir) fileNames l
      end
  end.

(** The body of the outer loop of phase 1, one type directory. *)
Definition scanTypeDir (l : Layout) (typeDir : string) : M Layout :=
  let dir := Path.join [COMPONENTS_DIR ROOT; typeDir] in
  entries ← tryCatch (Some <$> readdir dir) (fun _ => mret None);
  match entries with
  | None => mret l                                   (* continue *)
  | Some entries => foldM (scanEntry dir) entries l
  end.

Definition buildLayout : M Layout := foldM scanTypeDir typeDirs emptyLayout.

Definition summaryLine (r : Report) (l : Layout) : string :=
  Str.nl +:+ "Validated " +:+ Str.of_nat (filesChecked r) +:+ " files, "
    +:+ Str.of_nat (importsChecked r) +:+ " imports, "
    +:+ Str.of_nat (JsMap.size (manifests l)) +:+ " components".

Definition errorCountLine (r : Report) : string :=
  Str.nl +:+ red ("✗ " +:+ Str.of_nat (errors r) +:+ " error(s) found").

Definition successLine : string :=
  green "✓ All imports resolve correctly in the installed layout".

(** [main]: the status it leaves the process with. [process.exit(1)] ends
    the run at once; falling off the end is status 0. *)
Definition main : M nat :=
  l ← buildLayout;
  let r := validateLayout l in
  foldM (fun _ line => console_error line) (flat_map render (findings r)) tt;;
  console_log (summaryLine r l);;
  if Nat.ltb 0 (errors r) then
    console_error (errorCountLine r);;
    mret 1
  else
    console_log successLine;;
    mret 0.

Definition showExn (e : exn) : string :=
  match e with
  | ENOENT path => "ENOENT: no such file or directory, " +:+ path
  | EEXIST path => "EEXIST: file already exists, " +:+ path
  | ENOTDIR path => "ENOTDIR: not a directory, " +:+ path
  | SyntaxError path => "SyntaxError: JSON Parse error, " +:+ path
  | TypeError what => "TypeError: " +:+ what
  | ZodError _ => "ZodError"
  end.

(** [main().catch((err) => { console.error(err); process.exit(1); })]:
    the run of the script, from a world to the exit status and the world
    it leaves. *)
Definition validate (w : World) : nat * World :=
  match main w with
  | (Ok status, w') => (status, w')
  | (Throw err, w') =>
      (1, snd (console_error (showExn err) w'))
  end.

(** The layout and the report of a run that gets through phase 1. *)
Definition layoutOf (w : World) : option Layout :=
  match buildLayout w with
  | (Ok l, _) => Some l
  | (Throw _, _) => None
  end.

End Validator.

(** * The vocabulary of the statements *)

(** [accepts s v]: [v] is valid for [s] and parsing returns it as it is. *)
Definition accepts (s : Zod.schema) (v : value) : Prop :=
  Zod.parse s v = inl v.

(** The declared keys of a shape, in its order, with the values the input
    gives them: what an object parses to when all its declared keys are
    present and accepted. *)
Definition project (input : list (string * value))
    (shape : list (string * Zod.schema)) : list (string * value) :=
  List.map (fun ks => (fst ks, field (fst ks) (VObj input))) shape.

(** What the TypeScript interface of a manifest asks beyond the shape of the
    record: a component type and changelog types out of their enumerations. *)
Definition validChangelogEntry (e : ChangelogEntry) : bool :=
  existsb (String.eqb (cl_type e)) ["feature"; "fix"; "breaking"; "initial"].

Definition wellTyped (m : ComponentManifest) : bool :=
  existsb (String.eqb (type_ m)) (List.map fst typeToDir_table)
  && forallb validChangelogEntry (default [] (changelog m)).

(** [fileName] reads from [fileContents] as a text or as nothing: it has
    an entry there, or it is not a name every object answers to. *)
Definition plain (fc : gmap string string) (fileName : string) : bool :=
  match fc !! fileName with
  | Some _ => true
  | None => negb (PlainObject.inherited fileName)
  end.

(** The record [buildRegistryItem] makes of a declared file. *)
Definition fileRecord (m : ComponentManifest) (fc : gmap string string)
    (fileName : string) : value :=
  VObj [ ("path", VStr (show (typeToDir (type_ m)) +:+ "/" +:+ fileName));
         ("content", nullish (PlainObject.get fc fileName) (VStr ""));
         ("type", VStr (type_ m)) ].

(** [z.infer<typeof componentType>] and [RegistryFile]: the typed view of a
    file record, for statements about items given as literals. *)
Inductive ComponentType := KitnAgent | KitnTool | KitnSkill | KitnStorage.

Definition componentTypeName (t : ComponentType) : string :=
  match t with
  | KitnAgent => "kitn:agent"
  | KitnTool => "kitn:tool"
  | KitnSkill => "kitn:skill"
  | KitnStorage => "kitn:storage"
  end.

Record RegistryFile := {
  rf_path : string;
  rf_content : string;
  rf_type : ComponentType
}.

Definition vfile (f : RegistryFile) : value :=
  VObj [ ("path", VStr (rf_path f));
         ("content", VStr (rf_content f));
         ("type", VStr (componentTypeName (rf_type f))) ].

(** The object of a minimal item: name, type, description and files. *)
Definition minimalItem (name type description : string)
    (files : list RegistryFile) : value :=
  VObj [ ("name", VStr name);
         ("type", VStr type);
         ("description", VStr description);
         ("files", VArr (List.map vfile files)) ].

(** The order of the keys of [Collator.key], first component first. *)
Definition keyLt (a b : N * N) : Prop :=
  (fst a < fst b)%N \/ (fst a = fst b /\ (snd a < snd b)%N).

(** [a] sorts no later than [b]. *)
Definition notAfter (a b : list Collator.piece) : Prop :=
  Collator.comparePieces a b <> Gt.

(** [x] may stay before [y] under the comparator [cmp]. *)
Definition before {A} (cmp : A -> A -> Z) (x y : A) : Prop :=
  (cmp x y <= 0)%Z.

(** What the sort asks of the comparison it is given: any two strings
    compare one way or the other, and transitively. *)
Definition consistent (cmp : string -> string -> Z) : Prop :=
  (forall a b, before cmp a b \/ before cmp b a)
  /\ (forall a b c, before cmp a b -> before cmp b c -> before cmp a c).

(** The numbers of a dotted number such as 1.10.0: decimal numbers
    separated by dots, each written without a leading zero. [cur] is the
    value of the number being read, if any. *)
Fixpoint numbers_go (cur : option N) (l : list ascii) : option (list N) :=
  match l with
  | [] => match cur with Some n => Some [n] | None => None end
  | c :: l' =>
      if Str.is_digit c then
        match cur with
        | Some 0%N => None
        | _ =>
            numbers_go (Some (10 * default 0%N cur + (N_of_ascii c - 48))%N)
              l'
        end
      else if Str.eqc c Str.dot then
        match cur with
        | Some n => cons n <$> numbers_go None l'
        | None => None
        end
      else None
  end.

Definition numbers (v : string) : option (list N) :=
  numbers_go None (Str.chars v).

(** The order of dotted numbers: the first number that differs decides, and
    a dotted number comes before those it begins. *)
Fixpoint compareNumbers (a b : list N) : comparison :=
  match a, b with
  | [], [] => Eq
  | [], _ :: _ => Lt
  | _ :: _, [] => Gt
  | x :: a', y :: b' =>
      match (x ?= y)%N with
      | Eq => compareNumbers a' b'
      | c => c
      end
  end.

(** The longest version a snapshot can carry: the name of the snapshot,
    with its six characters around the version, is an entry of a
    directory, of 255 bytes at most. *)
Definition versionLimit : nat := 249.

(** A comparison is numeric-aware when it orders dotted numbers as their
    numbers. The collator compares runs of up to 254 digits by value, which
    covers every version within [versionLimit]. *)
Definition numericAware (cmp : string -> string -> Z) : Prop :=
  forall a b la lb,
    numbers a = Some la -> numbers b = Some lb ->
    String.length a <= versionLimit -> String.length b <= versionLimit ->
    (cmp a b ?= 0)%Z = compareNumbers la lb.

(** A version that is a dotted number within the limit. *)
Definition release (v : string) : bool :=
  match numbers v with
  | Some _ => Nat.leb (String.length v) versionLimit
  | None => false
  end.

(** [a] is the same dotted number as [b] or a later one. *)
Definition notOlder (a b : string) : Prop :=
  match numbers a, numbers b with
  | Some la, Some lb => compareNumbers la lb <> Lt
  | _, _ => False
  end.

(** The pieces of a dotted number: its numbers, with the dots between. *)
Fixpoint dotted (l : list N) : list Collator.piece :=
  match l with
  | [] => []
  | n :: l' =>
      Collator.Num n
        :: match l' with
           | [] => []
           | _ :: _ => Collator.Chr Str.dot :: dotted l'
           end
  end.

(** What is left of [versionPattern] after the name. *)
Definition versionTail : Regex.regex :=
  Regex.seq
    [ Regex.Lit "@";
      Regex.Group (Regex.Plus true (fun c => negb (Str.is_line_terminator c)));
      Regex.Lit ".json" ].

(** The six orders in which a directory may list the three snapshots. *)
Definition snapshotOrders : list (list string) :=
  [ ["1.0.0"; "2.0.0"; "10.0.0"]; ["1.0.0"; "10.0.0"; "2.0.0"];
    ["2.0.0"; "1.0.0"; "10.0.0"]; ["2.0.0"; "10.0.0"; "1.0.0"];
    ["10.0.0"; "1.0.0"; "2.0.0"]; ["10.0.0"; "2.0.0"; "1.0.0"] ].

(** [r'] continues [r]: it reports what [r] reported, then possibly more. *)
Definition extends (r r' : Report) : Prop :=
  exists more, findings r' = findings r ++ more.

(** The error counter counts the findings. *)
Definition counted (r : Report) : Prop := errors r = length (findings r).

(** Every run of [m] relates the world before to the world after by [P]. *)
Definition keeps (P : World -> World -> Prop) {A} (m : M A) : Prop :=
  forall w, P w (snd (m w)).

(** Computations whose result is a function of the file system alone. *)
Definition reads {A} (m : M A) : Prop :=
  forall w w', fs w' = fs w -> fst (m w') = fst (m w).

(** Phase 1 is made of steps that leave the world alone and read the file
    system only. *)
Definition reader {A} (m : M A) : Prop :=
  (forall w, snd (m w) = w) /\ reads m.

(** Every installed file is owned by a component whose manifest is
    recorded: the manifest [main] looks up for its hints is always there. *)
Definition owned (l : Layout) : Prop :=
  forall path componentName,
    In (path, componentName) (JsMap.entries (installedFiles l)) ->
    JsMap.has componentName (manifests l) = true.

(** What a computation returns, when it returns. *)
Definition ensures {A} (Q : A -> Prop) (m : M A) : Prop :=
  forall w a, fst (m w) = Ok a -> Q a.

(** The status [main] ends with when the scan completes. *)
Definition statusOf (r : Report) : nat :=
  if Nat.ltb 0 (errors r) then 1 else 0.

(** What a completed run prints after the findings. *)
Definition closingLines (r : Report) (l : Layout) : list (stream * string) :=
  (Stdout, summaryLine r l)
    :: (if Nat.ltb 0 (errors r) then [(Stderr, errorCountLine r)]
        else [(Stdout, successLine)]).

(** The findings of a run: those of the checks when the scan completes,
    none when it aborts, since the checks start after the scan. *)
Definition findingsOf (JSON_parse : string -> option ComponentManifest)
    (ROOT : string) (w : World) : list finding :=
  match layoutOf JSON_parse ROOT w with
  | Some l => findings (validateLayout l)
  | None => []
  end.

(** The file at [p], if there is one, keeps its content. *)
Definition keptAt (p : string) (w w' : World) : Prop :=
  forall text,
    fs_files (fs w) !! p = Some text -> fs_files (fs w') !! p = Some text.

(** * Examples

    Small repositories, each a world with the files of some components. The
    manifests are written as the JSON text of their records;
    [exampleParse] reads back the manifests of these examples and rejects
    any other text. *)

Definition component (name type : string) (files : list string)
    (registryDependencies : option (list string)) (version : option string)
  : ComponentManifest :=
  {| name := name; type_ := type; description := "An example";
     dependencies := None; devDependencies := None;
     registryDependencies := registryDependencies; envVars := None;
     files := Some files; installDir := None; tsconfig := None; docs := None;
     categories := None; version := version; changelog := None |}.

Definition jsonString (s : string) : string := q +:+ s +:+ q.

Definition jsonArray (l : list string) : string :=
  "[" +:+ Str.join "," (List.map jsonString l) +:+ "]".

Definition manifestText (m : ComponentManifest) : string :=
  "{" +:+ jsonString "name" +:+ ":" +:+ jsonString (name m) +:+ ","
    +:+ jsonString "type" +:+ ":" +:+ jsonString (type_ m) +:+ ","
    +:+ jsonString "description" +:+ ":" +:+ jsonString (description m)
    +:+ match version m with
        | Some v => "," +:+ jsonString "version" +:+ ":" +:+ jsonString v
        | None => ""
        end
    +:+ match registryDependencies m with
        | Some l => "," +:+ jsonString "registryDependencies" +:+ ":"
                      +:+ jsonArray l
        | None => ""
        end
    +:+ "," +:+ jsonString "files" +:+ ":"
    +:+ jsonArray (default [] (files m)) +:+ "}".

Definition exampleManifests : list ComponentManifest :=
  [ component "x" "kitn:tool" ["x.ts"] None None;
    component "y" "kitn:agent" ["y.ts"] None None;
    component "greeter" "kitn:agent" ["greeter.ts"] None None;
    component "helper" "kitn:agent" ["missing.ts"] None None;
    component "finder" "kitn:tool" ["lost.ts"] None None;
    component "broken" "kitn:tool" ["gone.ts"] None None;
    component "foo" "kitn:tool" ["foo.ts"] None (Some "1.0.0");
    component "foo@1.0.0" "kitn:tool" ["other.ts"] None (Some "1.0.0") ].

Definition exampleParse (raw : string) : option ComponentManifest :=
  List.find (fun m => String.eqb (manifestText m) raw) exampleManifests.

Definition emptyWorld : World :=
  {| fs := {| fs_files := ∅; fs_dirs := ∅ |}; console := [] |}.

(** A file put in place, its directory made first. *)
Definition putFile (w : World) (f : string * string) : World :=
  snd ((mkdir_recursive (Path.dirname (fst f));; writeFile (fst f) (snd f)) w).

Definition worldOf (files : list (string * string)) : World :=
  fold_left putFile files emptyWorld.

(** The directory of a component under [/repo/components]. *)
Definition componentFiles (typeDir entry : string) (m : ComponentManifest)
    (sources : list (string * string)) : list (string * string) :=
  let dir := "/repo/components/" +:+ typeDir +:+ "/" +:+ entry +:+ "/" in
  (dir +:+ "manifest.json", manifestText m)
    :: List.map (fun s => (dir +:+ fst s, snd s)) sources.

(** A tool that imports an agent by a relative path; the agent exists. *)
Definition crossTypeSource : string :=
  "import { y } from " +:+ q +:+ "../agents/y.js" +:+ q +:+ ";".

Definition crossTypeWorld : World :=
  worldOf
    (componentFiles "tools" "x" (component "x" "kitn:tool" ["x.ts"] None None)
       [("x.ts", crossTypeSource)]
     ++ componentFiles "agents" "y"
          (component "y" "kitn:agent" ["y.ts"] None None)
          [("y.ts", "export const y = 1;")]).

(** The same tool, importing the agent in three ways that have no
    white space on both sides of a [from]: for its effects alone, by a
    call, and with the specifier right after [from]. *)
Definition sideEffectSource : string :=
  "import " +:+ q +:+ "../agents/y.js" +:+ q +:+ ";" +:+ Str.nl
    +:+ "const late = await import(" +:+ q +:+ "../agents/y.js" +:+ q +:+ ");"
    +:+ Str.nl
    +:+ "import { y } from'../agents/y.js';".

Definition sideEffectWorld : World :=
  worldOf
    (componentFiles "tools" "x" (component "x" "kitn:tool" ["x.ts"] None None)
       [("x.ts", sideEffectSource)]
     ++ componentFiles "agents" "y"
          (component "y" "kitn:agent" ["y.ts"] None None)
          [("y.ts", "export const y = 1;")]).

(** An agent with an alias import and a relative import that both resolve
    to nothing, while other components own files of those names. *)
Definition unresolvedSource : string :=
  "import { a } from " +:+ q +:+ "@kitn/tools/missing.js" +:+ q +:+ ";"
    +:+ Str.nl
    +:+ "import { b } from " +:+ q +:+ "./lost.js" +:+ q +:+ ";".

Definition unresolvedWorld : World :=
  worldOf
    (componentFiles "agents" "greeter"
       (component "greeter" "kitn:agent" ["greeter.ts"] None None)
       [("greeter.ts", unresolvedSource)]
     ++ componentFiles "agents" "helper"
          (component "helper" "kitn:agent" ["missing.ts"] None None)
          [("missing.ts", "export const a = 1;")]
     ++ componentFiles "tools" "finder"
          (component "finder" "kitn:tool" ["lost.ts"] None None)
          [("lost.ts", "export const b = 1;")]).

(** A component whose manifest declares a file that is not there. *)
Definition brokenWorld : World :=
  worldOf
    (componentFiles "tools" "broken"
       (component "broken" "kitn:tool" ["gone.ts"] None None) []).

Definition layoutIn (w : World) : Layout :=
  match layoutOf exampleParse "/repo/" w with
  | Some l => l
  | None => emptyLayout
  end.

Definition crossTypeLayout : Layout := Eval vm_compute in layoutIn crossTypeWorld.

Definition sideEffectLayout : Layout :=
  Eval vm_compute in layoutIn sideEffectWorld.

Definition unresolvedLayout : Layout :=
  Eval vm_compute in layoutIn unresolvedWorld.

(** An agent with an unresolved alias import, while another component owns
    a file of the same name. *)
Definition aliasSource : string :=
  "import { a } from " +:+ q +:+ "@kitn/tools/missing.js" +:+ q +:+ ";".

Definition aliasWorld : World :=
  worldOf
    (componentFiles "agents" "greeter"
       (component "greeter" "kitn:agent" ["greeter.ts"] None None)
       [("greeter.ts", aliasSource)]
     ++ componentFiles "agents" "helper"
          (component "helper" "kitn:agent" ["missing.ts"] None None)
          [("missing.ts", "export const a = 1;")]).

Definition aliasLayout : Layout := Eval vm_compute in layoutIn aliasWorld.

(** A stand-in for [JSON.stringify] in the examples: compact JSON, the
    keys with an undefined value or a function left out. *)
Definition omitted (v : value) : bool :=
  match v with VUndefined | VFun => true | _ => false end.

Fixpoint exampleStringify (v : value) : string :=
  match v with
  | VUndefined | VFun => "null"
  | VStr s => jsonString s
  | VArr items => "[" +:+ Str.join "," (List.map exampleStringify items) +:+ "]"
  | VObj fields =>
      "{" +:+
      Str.join ","
        (flat_map
           (fun kv =>
              match kv with
              | (k, x) =>
                  if omitted x then []
                  else [jsonString k +:+ ":" +:+ exampleStringify x]
              end)
           fields)
      +:+ "}"
  end.

Definition exampleBuild (now : string) : M unit :=
  build exampleParse exampleStringify Collator.localeCompare "/repo/" now.

(** The repository with the tool [foo] at version 1.0.0. *)
Definition fooFiles : list (string * string) :=
  componentFiles "tools" "foo"
    (component "foo" "kitn:tool" ["foo.ts"] None (Some "1.0.0"))
    [("foo.ts", "export const foo = 1;")].

(** A second tool, in the directory [other], that calls itself
    [foo@1.0.0]. *)
Definition clashFiles : list (string * string) :=
  componentFiles "tools" "other"
    (component "foo@1.0.0" "kitn:tool" ["other.ts"] None (Some "1.0.0"))
    [("other.ts", "export const other = 2;")].

Definition fooSnapshot : string := "/repo/r/tools/foo@1.0.0.json".

(** The world after a first build of [foo], and after a second build once
    the second tool has been added. *)
Definition afterFirstBuild : World :=
  snd (exampleBuild "2026-01-01T00:00:00.000Z" (worldOf fooFiles)).

Definition afterSecondBuild : World :=
  snd (exampleBuild "2026-01-02T00:00:00.000Z"
         (fold_left putFile clashFiles afterFirstBuild)).

Definition itemOf (now : string) (m : ComponentManifest)
    (sources : list (string * string)) : string :=
  match buildRegistryItem now m (list_to_map sources) with
  | Ok item => exampleStringify item +:+ Str.nl
  | Throw _ => ""
  end.

(** * Further vocabulary: what the checks report and count *)

(** The cause of a finding in a layout: the file, the import or the
    dependency the script was looking at when it counted the error, and the
    tests that took it there. *)
Definition justified (l : Layout) (f : finding) : Prop :=
  match f with
  | UnresolvedAlias componentName installedPath type importedPath
      resolvedTarget =>
      In (installedPath, componentName) (JsMap.entries (installedFiles l))
      /\ Path.extname installedPath = ".ts"
      /\ In {| alias_type := type; alias_path := importedPath |}
           (extractKitnAliasImports
              (show (JsMap.get installedPath (fileContents l))))
      /\ resolvedTarget = jsToTs (type +:+ "/" +:+ importedPath)
      /\ JsMap.has resolvedTarget (installedFiles l) = false
  | CrossTypeImport componentName installedPath importPath targetDir
      resolvedTarget =>
      In (installedPath, componentName) (JsMap.entries (installedFiles l))
      /\ Path.extname installedPath = ".ts"
      /\ In importPath
           (extractRelativeImports
              (show (JsMap.get installedPath (fileContents l))))
      /\ resolvedTarget = resolveImportToFile importPath installedPath
      /\ targetDir = Path.dirname resolvedTarget
      /\ targetDir <> Path.dirname installedPath
      /\ In targetDir ["agents"; "tools"; "skills"; "storage"]
  | UnresolvedRelative componentName installedPath importPath resolvedTarget
      hints =>
      In (installedPath, componentName) (JsMap.entries (installedFiles l))
      /\ Path.extname installedPath = ".ts"
      /\ In importPath
           (extractRelativeImports
              (show (JsMap.get installedPath (fileContents l))))
      /\ resolvedTarget = resolveImportToFile importPath installedPath
      /\ (Path.dirname resolvedTarget = Path.dirname installedPath
          \/ ~ In (Path.dirname resolvedTarget)
                 ["agents"; "tools"; "skills"; "storage"])
      /\ JsMap.has resolvedTarget (installedFiles l) = false
      /\ hints = suggestions l componentName resolvedTarget
  | DanglingDependency name dep =>
      exists manifest,
        In (name, manifest) (JsMap.entries (manifests l))
        /\ In dep (default [] (registryDependencies manifest))
        /\ JsMap.has dep (manifests l) = false
  end.

(** The entries of [installedFiles] the loop of phase 2 does not skip. *)
Definition isTypeScript (e : string * string) : bool :=
  String.eqb (Path.extname (fst e)) ".ts".

(** The imports the two patterns find in the source of an installed file. *)
Definition importsIn (l : Layout) (e : string * string) : nat :=
  let source := show (JsMap.get (fst e) (fileContents l)) in
  length (extractKitnAliasImports source)
  + length (extractRelativeImports source).

(** The number of entries of all [registryDependencies] lists. *)
Definition declaredDependencies (l : Layout) : nat :=
  list_sum
    (List.map
       (fun e => length (default [] (registryDependencies (snd e))))
       (JsMap.entries (manifests l))).

(** What a loop adds to the counters: [files] to the files checked,
    [imports] to the imports checked, and to the errors something between
    nothing and [imports]. *)
Definition adds (files imports : nat) (r r' : Report) : Prop :=
  filesChecked r' = filesChecked r + files
  /\ importsChecked r' = importsChecked r + imports
  /\ errors r <= errors r'
  /\ errors r' <= errors r + imports.

(** The keys of a map, in the order of iteration. *)
Definition keys {V} (m : JsMap.t V) : list string := List.map fst m.

(** What phase 1 keeps true of its three maps: the installed files and
    their sources have the same keys in the same order, no key occurs
    twice, and every manifest is recorded under its own name. *)
Definition coherent (l : Layout) : Prop :=
  keys (installedFiles l) = keys (fileContents l)
  /\ NoDup (keys (installedFiles l))
  /\ NoDup (keys (manifests l))
  /\ forall n m, In (n, m) (JsMap.entries (manifests l)) -> name m = n.

(** A directory entry that phase 1 of the validator cannot get through:
    its manifest is there but does not parse, or has no list of files, or
    declares a file that cannot be read. *)
Definition brokenEntry (JSON_parse : string -> option ComponentManifest)
    (w : World) (dir entry : string) : Prop :=
  exists raw,
    fs_files (fs w) !! Path.join [dir; entry; "manifest.json"] = Some raw
    /\ match JSON_parse raw with
       | None => True
       | Some manifest =>
           match files manifest with
           | None => True
           | Some fileNames =>
               exists fileName,
                 In fileName fileNames
                 /\ fs_files (fs w) !! Path.join [dir; entry; fileName] = None
           end
       end.

(** What a pattern matches, apart from the order in which the matcher
    tries the alternatives: [matchesWith r w gs] when [r] matches the
    whole of [w] and its groups capture [gs] on the way. *)
Fixpoint matchesWith (r : Regex.regex) (w : list ascii)
    (gs : Regex.captures) : Prop :=
  match r with
  | Regex.Lit t => w = Str.chars t /\ gs = []
  | Regex.Class p => exists a, w = [a] /\ p a = true /\ gs = []
  | Regex.Seq r1 r2 =>
      exists w1 w2 g1 g2,
        w = w1 ++ w2 /\ gs = g1 ++ g2
        /\ matchesWith r1 w1 g1 /\ matchesWith r2 w2 g2
  | Regex.Alt r1 r2 => matchesWith r1 w gs \/ matchesWith r2 w gs
  | Regex.Star _ p => forallb p w = true /\ gs = []
  | Regex.Plus _ p => w <> [] /\ forallb p w = true /\ gs = []
  | Regex.Group r1 =>
      exists g1, matchesWith r1 w g1 /\ gs = g1 ++ [Str.of_chars w]
  end.

(** A version as a snapshot name can carry it: not empty and on one
    line. *)
Definition versionText (v : string) : Prop :=
  v <> ""
  /\ forallb (fun c => negb (Str.is_line_terminator c)) (Str.chars v) = true.

(** White space between the words of an import clause: at least one
    character, all of the class [\s]. *)
Definition blank (ws : string) : Prop :=
  ws <> "" /\ forallb Str.is_space (Str.chars ws) = true.

(** [source] has a clause that begins with [import] or [export] and ends
    with [from] and the specifier [spec] between two quote characters,
    which need not be the same. *)
Definition importOf (source spec : string) : Prop :=
  exists pre kw ws1 mid ws2 ws3 q1 q2 post,
    source
    = pre +:+ kw +:+ ws1 +:+ mid +:+ ws2 +:+ "from" +:+ ws3
        +:+ String q1 (spec +:+ String q2 post)
    /\ (kw = "import" \/ kw = "export")
    /\ blank ws1 /\ blank ws2 /\ blank ws3
    /\ Str.is_quote q1 = true /\ Str.is_quote q2 = true.

(** A text without a quote character. *)
Definition quoteFree (s : string) : Prop :=
  forallb Regex.notQuote (Str.chars s) = true.

(** What stands between the keyword and the word from in an import
    statement as one writes it: a text without quote characters that
    begins with something else than white space. *)
Definition importClause (mid : string) : Prop :=
  quoteFree mid
  /\ exists c rest, mid = String c rest /\ Str.is_space c = false.

(** The name of a type directory in an alias: letters, digits, underscores
    and hyphens, at least one. *)
Definition aliasWord (ty : string) : Prop :=
  ty <> ""
  /\ forallb (fun c => Str.is_word c || Str.eqc c "-"%char) (Str.chars ty)
     = true.

(** A path segment: a text without a slash. *)
Definition slashFree (seg : string) : Prop :=
  forallb (fun c => negb (Str.eqc c Str.slash)) (Str.chars seg) = true.

(** The segments of a normalized path: not empty and without a slash. *)
Definition segment (seg : string) : Prop := seg <> "" /\ slashFree seg.

(** The text [path.normalize] makes of the parts of a path that is not
    empty: whether it is absolute, whether it ends with a slash, and its
    normalized segments. *)
Definition normalizedText (abs trailing : bool) (segs : list string)
  : string :=
  let p := Str.join "/" segs in
  let p := if String.eqb p "" && negb abs then "." else p in
  let p := if negb (String.eqb p "") && trailing then p +:+ "/" else p in
  if abs then "/" +:+ p else p.

(** The text begins with a character outside the class, or is empty. *)
Definition stops (p : ascii -> bool) (s : list ascii) : Prop :=
  match s with
  | [] => True
  | a :: _ => p a = false
  end.

(** The part of the head of the import patterns after the lazy
    repetition: white space, the word from, white space and a quote
    character. *)
Definition fromQuote : Regex.regex :=
  Regex.Seq (Regex.Plus true Str.is_space)
    (Regex.Seq (Regex.Lit "from")
       (Regex.Seq (Regex.Plus true Str.is_space) Regex.quote)).

(** The continuation of a match that is not anchored at its end. *)
Definition matched : Regex.cont := fun s' c => Some (s', c).

(** *** The schemas of the registry index ([src/schema.ts]) *)

Definition registryIndexItemSchema : Zod.schema :=
  Zod.object
    [ ("name", Zod.string_);
      ("type", componentType);
      ("description", Zod.string_);
      ("registryDependencies", Zod.optional (Zod.array Zod.string_));
      ("categories", Zod.optional (Zod.array Zod.string_));
      ("version", Zod.optional Zod.string_);
      ("versions", Zod.optional (Zod.array Zod.string_));
      ("updatedAt", Zod.optional Zod.string_) ].

Definition registryIndexSchema : Zod.schema :=
  Zod.object
    [ ("$schema", Zod.optional Zod.string_);
      ("version", Zod.string_);
      ("items", Zod.array registryIndexItemSchema) ].

(** *** The schema of the configuration ([src/schema.ts]) *)

Definition runtimeType : Zod.schema := Zod.enum ["bun"; "node"; "deno"].

Definition frameworkType : Zod.schema :=
  Zod.enum ["hono"; "cloudflare"; "elysia"; "fastify"; "express"].

Definition configSchema : Zod.schema :=
  Zod.object
    [ ("$schema", Zod.optional Zod.string_);
      ("runtime", runtimeType);
      ("framework", Zod.optional frameworkType);
      ("aliases",
        Zod.object
          [ ("base", Zod.optional Zod.string_);
            ("agents", Zod.string_);
            ("tools", Zod.string_);
            ("skills", Zod.string_);
            ("storage", Zod.string_) ]);
      ("registries", Zod.record Zod.string_);
      ("installed", Zod.optional (Zod.record installedComponentSchema)) ].

(** [typeToAliasKey[t]]; [None] is [undefined]. *)
Definition typeToAliasKey (t : string) : option string :=
  assoc t
    [ ("kitn:agent", "agents");
      ("kitn:tool", "tools");
      ("kitn:skill", "skills");
      ("kitn:storage", "storage") ].

(** No key is declared twice, in any object of the schema. *)
Fixpoint distinct (keys : list string) : bool :=
  match keys with
  | [] => true
  | k :: keys' => negb (existsb (String.eqb k) keys') && distinct keys'
  end.

Fixpoint distinctKeys (s : Zod.schema) : bool :=
  match s with
  | Zod.string_ | Zod.enum _ => true
  | Zod.array item | Zod.record item => distinctKeys item
  | Zod.object shape =>
      distinct (List.map fst shape)
      && forallb (fun ks => distinctKeys (snd ks)) shape
  | Zod.optional s' | Zod.default s' _ | Zod.describe s' _ => distinctKeys s'
  end.

(** The declared keys of an object schema. *)
Definition shapeOf (s : Zod.schema) : list (string * Zod.schema) :=
  match s with
  | Zod.object shape => shape
  | _ => []
  end.

(** What a schema returns it accepts: parsing twice is parsing once. *)
Definition idempotent (s : Zod.schema) : Prop :=
  forall v v', Zod.parse s v = inl v' -> Zod.parse s v' = inl v'.

(** A directory entry the builder cannot get through: its manifest is
    there but does not parse, or has no list of files, or declares a file
    that cannot be read, or is not a manifest of the interface. *)
Definition unbuildable (JSON_parse : string -> option ComponentManifest)
    (w : World) (dir entry : string) : Prop :=
  let componentDir := Path.join [dir; entry] in
  exists raw,
    fs_files (fs w) !! Path.join [componentDir; "manifest.json"] = Some raw
    /\ match JSON_parse raw with
       | None => True
       | Some manifest =>
           match files manifest with
           | None => True
           | Some fileNames =>
               (exists fileName,
                   In fileName fileNames
                   /\ fs_files (fs w) !! Path.join [componentDir; fileName]
                      = None)
               \/ wellTyped manifest = false
           end
       end.

(** ** Further examples *)

(** [JSON.parse] for the manifests of an example: the texts of the given
    manifests are read back, any other text is rejected. *)
Definition parseAmong (ms : list ComponentManifest) (raw : string)
  : option ComponentManifest :=
  List.find (fun m => String.eqb (manifestText m) raw) ms.

(** An agent that declares a dependency on a component that is not in the
    registry, next to a skill with a markdown file. *)
Definition danglingManifests : list ComponentManifest :=
  [ component "planner" "kitn:agent" ["planner.ts"] (Some ["calendar"]) None;
    component "notes" "kitn:skill" ["README.md"] None None ].

Definition danglingWorld : World :=
  worldOf
    (componentFiles "agents" "planner"
       (component "planner" "kitn:agent" ["planner.ts"] (Some ["calendar"])
          None)
       [("planner.ts", "export const planner = 1;")]
     ++ componentFiles "skills" "notes"
          (component "notes" "kitn:skill" ["README.md"] None None)
          [("README.md", "import { a } from '../agents/planner.js';")]).

Definition danglingLayout : Layout :=
  Eval vm_compute in
    match layoutOf (parseAmong danglingManifests) "/repo/" danglingWorld with
    | Some l => l
    | None => emptyLayout
    end.

(** A tool with a cross-type import beside a tool whose manifest declares a
    file that is not there. *)
Definition hiddenManifests : list ComponentManifest :=
  [ component "x" "kitn:tool" ["x.ts"] None None;
    component "broken" "kitn:tool" ["gone.ts"] None None ].

Definition hiddenWorld : World :=
  worldOf
    (componentFiles "tools" "x" (component "x" "kitn:tool" ["x.ts"] None None)
       [("x.ts", crossTypeSource)]
     ++ componentFiles "tools" "broken"
          (component "broken" "kitn:tool" ["gone.ts"] None None) []).

(** A tool of a type that is not a component type, after a tool that
    builds. *)
Definition gadgetManifests : list ComponentManifest :=
  [ component "foo" "kitn:tool" ["foo.ts"] None (Some "1.0.0");
    component "gadget" "kitn:widget" ["gadget.ts"] None None ].

Definition gadgetWorld : World :=
  worldOf
    (fooFiles
     ++ componentFiles "tools" "gadget"
          (component "gadget" "kitn:widget" ["gadget.ts"] None None)
          [("gadget.ts", "export const gadget = 1;")]).

(** A configuration as the tests of the schema write it. *)
Definition exampleConfig : value :=
  VObj [ ("runtime", VStr "bun");
         ("aliases",
           VObj [ ("agents", VStr "src/agents");
                  ("tools", VStr "src/tools");
                  ("skills", VStr "src/skills");
                  ("storage", VStr "src/storage") ]);
         ("registries",
           VObj [ ("@kitn", VStr "https://kitn.dev/r/{name}.json") ]) ].

(** * Properties *)

(** ** Schema validation *)

Module ZodFacts.
Import Zod.

Lemma accepts_string x : accepts string_ (VStr x).
Proof. reflexivity. Qed.

Lemma accepts_enum options x :
  existsb (String.eqb x) options = true -> accepts (enum options) (VStr x).
Proof. intros H. unfold accepts. simpl. now rewrite H. Qed.

Lemma accepts_optional_undefined s : accepts (optional s) VUndefined.
Proof. reflexivity. Qed.

Lemma accepts_optional s v : accepts s v -> accepts (optional s) v.
Proof. unfold accepts. intros H. destruct v; simpl; auto. Qed.

Lemma accepts_describe s text v : accepts s v -> accepts (describe s text) v.
Proof. auto. Qed.

Lemma accepts_default s d v :
  v <> VUndefined -> accepts s v -> accepts (default s d) v.
Proof. unfold accepts. intros Hv H. destruct v; simpl; auto. congruence. Qed.

Lemma each_item_accepts item l :
  Forall (accepts item) l -> forall i, each_item parse item i l = inl l.
Proof.
  induction 1 as [|x l Hx _ IH]; intros i; simpl; [reflexivity|].
  rewrite Hx. simpl. now rewrite IH.
Qed.

Lemma accepts_array item l :
  Forall (accepts item) l -> accepts (array item) (VArr l).
Proof.
  intros H. unfold accepts. simpl. now rewrite each_item_accepts.
Qed.

Lemma each_entry_accepts item l :
  Forall (fun kv => accepts item (snd kv)) l ->
  each_entry parse item l = inl l.
Proof.
  induction 1 as [|[k x] l Hx _ IH]; simpl; [reflexivity|].
  simpl in Hx. rewrite Hx. simpl. now rewrite IH.
Qed.

Lemma accepts_record item l :
  Forall (fun kv => accepts item (snd kv)) l -> accepts (record item) (VObj l).
Proof.
  intros H. unfold accepts. simpl. now rewrite each_entry_accepts.
Qed.

Lemma each_key_accepts input shape :
  Forall (fun ks => hasKey (fst ks) input = true
                    /\ accepts (snd ks) (field (fst ks) (VObj input))) shape ->
  each_key parse input shape = inl (project input shape).
Proof.
  induction 1 as [|[k sk] shape [Hk Hx] _ IH]; simpl; [reflexivity|].
  simpl in Hk, Hx. unfold accepts in Hx. simpl in Hx. rewrite Hx. simpl.
  rewrite IH, Hk. now destruct (match assoc k input with
                                | Some x => x | None => VUndefined end).
Qed.

Lemma parse_object input shape :
  Forall (fun ks => hasKey (fst ks) input = true
                    /\ accepts (snd ks) (field (fst ks) (VObj input))) shape ->
  parse (object shape) (VObj input) = inl (VObj (project input shape)).
Proof. intros H. simpl. now rewrite each_key_accepts. Qed.

Lemma accepts_strings l : accepts (array string_) (vstrings l).
Proof.
  apply accepts_array. unfold vstrings.
  induction l; simpl; constructor; auto using accepts_string.
Qed.

Lemma accepts_opt_strings o :
  accepts (optional (array string_)) (vopt vstrings o).
Proof.
  destruct o; simpl; [apply accepts_optional, accepts_strings | reflexivity].
Qed.

Lemma accepts_opt_string o : accepts (optional string_) (vopt VStr o).
Proof. destruct o; reflexivity. Qed.

Lemma accepts_opt_record {A} (f : A -> value) item o :
  (forall a, accepts item (f a)) ->
  accepts (optional (record item)) (vopt (vrecord f) o).
Proof.
  intros Hf. destruct o as [l|]; simpl; [|reflexivity].
  apply accepts_optional. unfold vrecord. apply accepts_record.
  induction l as [|[k a] l IH]; simpl; constructor; simpl; auto.
Qed.

End ZodFacts.

(** ** [buildRegistryItem] *)

Lemma wellTyped_type m :
  wellTyped m = true ->
  existsb (String.eqb (type_ m))
    ["kitn:agent"; "kitn:tool"; "kitn:skill"; "kitn:storage"] = true.
Proof. unfold wellTyped. intros H. now apply andb_prop in H. Qed.

(** What [fileContents[fileName] ?? ""] is: the text of the entry, the
    empty string when nothing answers to the name, and otherwise the
    inherited member, which is no string. *)
Lemma content_plain fc fileName :
  plain fc fileName = true ->
  nullish (PlainObject.get fc fileName) (VStr "")
  = VStr (orDefault (fc !! fileName) "").
Proof.
  unfold plain, PlainObject.get, PlainObject.inherited.
  destruct (fc !! fileName) as [text|]; [reflexivity|].
  destruct (String.eqb fileName "__proto__"); [discriminate|].
  destruct (existsb _ _); [discriminate|reflexivity].
Qed.

Lemma content_inherited fc fileName :
  plain fc fileName = false ->
  Zod.parse Zod.string_ (nullish (PlainObject.get fc fileName) (VStr ""))
  = inr {| Zod.at_path := []; Zod.expected := "string" |}.
Proof.
  unfold plain, PlainObject.get, PlainObject.inherited.
  destruct (fc !! fileName) as [text|]; [discriminate|].
  destruct (String.eqb fileName "__proto__"); [reflexivity|].
  destruct (existsb _ _); [reflexivity|discriminate].
Qed.

Lemma accepts_fileRecord m fc fileName :
  wellTyped m = true ->
  plain fc fileName = true ->
  accepts registryFileSchema (fileRecord m fc fileName).
Proof.
  intros Hm Hp. unfold accepts, registryFileSchema, fileRecord.
  rewrite (content_plain fc fileName Hp).
  rewrite ZodFacts.parse_object; [reflexivity|].
  repeat constructor; simpl.
  apply ZodFacts.accepts_enum, wellTyped_type, Hm.
Qed.

Lemma rejects_fileRecord m fc fileName :
  plain fc fileName = false ->
  Zod.parse registryFileSchema (fileRecord m fc fileName)
  = inr {| Zod.at_path := ["content"]; Zod.expected := "string" |}.
Proof.
  intros Hp. unfold registryFileSchema, fileRecord.
  cbn [Zod.parse Zod.each_key Zod.lift Zod.under field assoc String.eqb
       Ascii.eqb Bool.eqb].
  pose proof (content_inherited fc fileName Hp) as H. cbn [Zod.parse] in H.
  rewrite H. reflexivity.
Qed.

Lemma accepts_changelog l :
  forallb validChangelogEntry l = true ->
  accepts (Zod.array changelogEntrySchema)
    (VArr (List.map vchangelog l)).
Proof.
  intros H. apply ZodFacts.accepts_array.
  induction l as [|e l IH]; simpl in *; constructor.
  - apply andb_prop in H as [He _].
    unfold accepts, changelogEntrySchema, vchangelog.
    rewrite ZodFacts.parse_object; [reflexivity|].
    repeat constructor; simpl. now apply ZodFacts.accepts_enum.
  - apply andb_prop in H as [_ Hl]. auto.
Qed.

(** A well-typed manifest with a list of files that read as texts or as
    nothing yields an item: the object literal of [buildRegistryItem] with
    its keys in schema order. *)
Lemma buildRegistryItem_ok now m fc fileNames :
  wellTyped m = true ->
  files m = Some fileNames ->
  forallb (plain fc) fileNames = true ->
  buildRegistryItem now m fc =
  Ok (VObj
        [ ("$schema", VStr "https://kitn.dev/schema/registry-item.json");
          ("name", VStr (name m));
          ("type", VStr (type_ m));
          ("description", VStr (description m));
          ("dependencies", vopt vstrings (dependencies m));
          ("devDependencies", vopt vstrings (devDependencies m));
          ("registryDependencies", vopt vstrings (registryDependencies m));
          ("envVars", vopt (vrecord VStr) (envVars m));
          ("files", VArr (List.map (fileRecord m fc) fileNames));
          ("installDir", vopt VStr (installDir m));
          ("tsconfig", vopt (vrecord vstrings) (tsconfig m));
          ("docs", vopt VStr (docs m));
          ("categories", vopt vstrings (categories m));
          ("version", VStr (orDefault (version m) "1.0.0"));
          ("updatedAt", VStr now);
          ("changelog",
            vopt (fun l => VArr (List.map vchangelog l)) (changelog m)) ]).
Proof.
  intros Hm Hfiles Hplain. unfold buildRegistryItem. rewrite Hfiles.
  fold (fileRecord m fc).
  unfold registryItemSchema. rewrite ZodFacts.parse_object; [reflexivity|].
  repeat constructor; simpl; repeat apply ZodFacts.accepts_describe.
  - apply ZodFacts.accepts_enum, wellTyped_type, Hm.
  - apply ZodFacts.accepts_opt_strings.
  - apply ZodFacts.accepts_opt_strings.
  - apply ZodFacts.accepts_opt_strings.
  - apply (ZodFacts.accepts_opt_record VStr). intros a. reflexivity.
  - apply ZodFacts.accepts_array. clear Hfiles.
    induction fileNames as [|f l IH]; simpl; constructor;
      cbn [forallb] in Hplain; apply andb_prop in Hplain as [Hf Hl]; auto.
    now apply accepts_fileRecord.
  - apply ZodFacts.accepts_opt_string.
  - apply (ZodFacts.accepts_opt_record vstrings). apply ZodFacts.accepts_strings.
  - apply ZodFacts.accepts_opt_string.
  - apply ZodFacts.accepts_opt_strings.
  - unfold wellTyped in Hm. apply andb_prop in Hm as [_ Hc].
    destruct (changelog m) as [l|]; simpl in *; [|reflexivity].
    apply ZodFacts.accepts_optional, accepts_changelog, Hc.
Qed.

Lemma lookup_map {A B} (f : A -> B) (l : list A) (i : nat) :
  List.map f l !! i = f <$> (l !! i).
Proof.
  revert i. induction l as [|a l IH]; intros [|i]; simpl; auto.
Qed.

(** C5. For a manifest of the interface and a [fileContents] that holds
    every declared file, [buildRegistryItem] returns an item whose [files]
    array is as long as the manifest's list, and whose i-th entry has the
    path made of the canonical directory of the type (agents for
    kitn:agent, tools for kitn:tool, skills for kitn:skill, storage for
    kitn:storage), a slash and the i-th declared path, together with the
    text of that file. *)
Theorem buildRegistryItem_files now m fc fileNames :
  wellTyped m = true ->
  files m = Some fileNames ->
  Forall (fun fileName => is_Some (fc !! fileName)) fileNames ->
  exists item records dir,
    buildRegistryItem now m fc = Ok item
    /\ field "files" item = VArr records
    /\ length records = length fileNames
    /\ ((type_ m = "kitn:agent" /\ dir = "agents")
        \/ (type_ m = "kitn:tool" /\ dir = "tools")
        \/ (type_ m = "kitn:skill" /\ dir = "skills")
        \/ (type_ m = "kitn:storage" /\ dir = "storage"))
    /\ forall i fileName,
         fileNames !! i = Some fileName ->
         exists text,
           fc !! fileName = Some text
           /\ records !! i =
              Some (VObj [ ("path", VStr (dir +:+ "/" +:+ fileName));
                           ("content", VStr text);
                           ("type", VStr (type_ m)) ]).
Proof.
  intros Hm Hfiles Hall.
  assert (Hdir : exists dir,
             typeToDir (type_ m) = Some dir
             /\ ((type_ m = "kitn:agent" /\ dir = "agents")
                 \/ (type_ m = "kitn:tool" /\ dir = "tools")
                 \/ (type_ m = "kitn:skill" /\ dir = "skills")
                 \/ (type_ m = "kitn:storage" /\ dir = "storage"))).
  { pose proof (wellTyped_type m Hm) as Ht. simpl in Ht.
    unfold typeToDir. simpl.
    destruct (String.eqb_spec (type_ m) "kitn:agent") as [->|_];
      [eexists; split; [reflexivity|tauto]|].
    destruct (String.eqb_spec (type_ m) "kitn:tool") as [->|_];
      [eexists; split; [reflexivity|tauto]|].
    destruct (String.eqb_spec (type_ m) "kitn:skill") as [->|_];
      [eexists; split; [reflexivity|tauto]|].
    destruct (String.eqb_spec (type_ m) "kitn:storage") as [->|_];
      [eexists; split; [reflexivity|tauto]|].
    discriminate. }
  destruct Hdir as (dir & Hdir & Hcases).
  assert (Hplain : forallb (plain fc) fileNames = true).
  { apply forallb_forall. intros f Hf. rewrite List.Forall_forall in Hall.
    destruct (Hall f Hf) as [text Htext]. unfold plain. now rewrite Htext. }
  eexists _, _, dir. split; [apply buildRegistryItem_ok; eassumption|].
  split; [reflexivity|]. split; [apply length_map|]. split; [exact Hcases|].
  intros i fileName Hi.
  assert (Hin : is_Some (fc !! fileName)).
  { rewrite Forall_lookup in Hall. eapply Hall, Hi. }
  destruct Hin as [text Htext]. exists text. split; [exact Htext|].
  rewrite lookup_map, Hi. simpl. unfold fileRecord, PlainObject.get.
  now rewrite Hdir, Htext.
Qed.

(** The first value an array or an object rejects gives the issue. *)
Lemma each_item_first_issue item pre x post e :
  Forall (accepts item) pre ->
  Zod.parse item x = inr e ->
  forall i,
    Zod.each_item Zod.parse item i (pre ++ x :: post)
    = inr {| Zod.at_path := Str.of_nat (i + length pre) :: Zod.at_path e;
             Zod.expected := Zod.expected e |}.
Proof.
  intros Hpre He. induction Hpre as [|y pre Hy _ IH]; intros i;
    cbn [app Zod.each_item length].
  - rewrite He. cbn. now rewrite Nat.add_0_r.
  - rewrite Hy. cbn [Zod.under]. rewrite (IH (S i)).
    now rewrite Nat.add_succ_r.
Qed.

Lemma each_key_first_issue input pre k sk post e :
  Forall (fun ks => exists x, Zod.parse (snd ks) (field (fst ks) (VObj input))
                              = inl x) pre ->
  Zod.parse sk (field k (VObj input)) = inr e ->
  Zod.each_key Zod.parse input (pre ++ (k, sk) :: post)
  = inr {| Zod.at_path := k :: Zod.at_path e;
           Zod.expected := Zod.expected e |}.
Proof.
  intros Hpre He. induction Hpre as [|[k0 sk0] pre [x Hx] _ IH];
    cbn [app Zod.each_key].
  - now rewrite He.
  - cbn [fst snd] in Hx. rewrite Hx. cbn [Zod.under]. now rewrite IH.
Qed.

(** The first declared name that reads as an inherited member makes the
    item invalid at the content of its record. *)
Lemma buildRegistryItem_inherited now m fc pre fileName post :
  wellTyped m = true ->
  files m = Some (pre ++ fileName :: post) ->
  forallb (plain fc) pre = true ->
  plain fc fileName = false ->
  buildRegistryItem now m fc
  = Throw (ZodError {| Zod.at_path :=
                         ["files"; Str.of_nat (length pre); "content"];
                       Zod.expected := "string" |}).
Proof.
  intros Hm Hfiles Hpre Hname. unfold buildRegistryItem. rewrite Hfiles.
  fold (fileRecord m fc). unfold registryItemSchema. cbn [Zod.parse].
  match goal with
  | |- context [Zod.each_key Zod.parse ?input ?shape] =>
      pose proof (each_key_first_issue input (firstn 8 shape) "files"
                    (Zod.array registryFileSchema) (skipn 9 shape)
                    {| Zod.at_path := [Str.of_nat (length pre); "content"];
                       Zod.expected := "string" |}) as H
  end.
  cbn [firstn skipn app] in H. rewrite H; clear H.
  - reflexivity.
  - repeat constructor; cbn [fst snd field assoc String.eqb
                                           Ascii.eqb Bool.eqb];
      eexists; repeat apply ZodFacts.accepts_describe.
    + reflexivity.
    + reflexivity.
    + apply ZodFacts.accepts_enum, wellTyped_type, Hm.
    + reflexivity.
    + apply ZodFacts.accepts_opt_strings.
    + apply ZodFacts.accepts_opt_strings.
    + apply ZodFacts.accepts_opt_strings.
    + apply (ZodFacts.accepts_opt_record VStr). intros a. reflexivity.
  - cbn [field assoc String.eqb Ascii.eqb Bool.eqb Zod.parse].
    rewrite List.map_app. cbn [List.map].
    rewrite (each_item_first_issue registryFileSchema
               (List.map (fileRecord m fc) pre) (fileRecord m fc fileName)
               (List.map (fileRecord m fc) post)
               {| Zod.at_path := ["content"]; Zod.expected := "string" |}).
    + cbn. now rewrite length_map.
    + clear Hfiles. induction pre as [|f l IH]; cbn [List.map]; constructor;
        cbn [forallb] in Hpre; apply andb_prop in Hpre as [Hf Hl]; auto.
      now apply accepts_fileRecord.
    + now apply rejects_fileRecord.
Qed.


(** ** [registryItemSchema] and [lockSchema] *)

Lemma each_item_vfile l i :
  Zod.each_item Zod.parse registryFileSchema i (List.map vfile l)
  = inl (List.map vfile l).
Proof.
  apply ZodFacts.each_item_accepts.
  induction l as [|f l IH]; simpl; constructor; auto.
  unfold accepts. now destruct f as [p c []].
Qed.

(** C7. An item object with name, type kitn:agent, description and files
    but no version parses, and the result carries version 1.0.0; the same
    object with type invalid:type is rejected, the issue being at its
    [type]. *)
Theorem registryItemSchema_defaults_version name description files :
  (exists item,
      Zod.parse registryItemSchema
        (minimalItem name "kitn:agent" description files) = inl item
      /\ field "version" item = VStr "1.0.0"
      /\ field "name" item = VStr name
      /\ field "files" item = VArr (List.map vfile files))
  /\ Zod.parse registryItemSchema
       (minimalItem name "invalid:type" description files)
     = inr {| Zod.at_path := ["type"]; Zod.expected := "enum" |}.
Proof.
  split.
  - unfold minimalItem, registryItemSchema. cbn -[registryFileSchema].
    rewrite each_item_vfile. cbn. eexists. split; [reflexivity|].
    repeat split; reflexivity.
  - reflexivity.
Qed.

(** C9. The empty lock structure is accepted and parses to the empty
    mapping. *)
Theorem lockSchema_accepts_empty :
  Zod.parse lockSchema (VObj []) = inl (VObj []).
Proof. reflexivity. Qed.

(** ** Version lists *)

Module CollatorFacts.
Import Collator.

Lemma comparePiece_spec p q :
  match comparePiece p q with
  | Eq => key p = key q
  | Lt => keyLt (key p) (key q)
  | Gt => keyLt (key q) (key p)
  end.
Proof.
  unfold comparePiece, keyLt.
  destruct (key p) as [a b], (key q) as [c d]; simpl.
  destruct (N.compare_spec a c); [|left; lia|left; lia].
  subst. destruct (N.compare_spec b d); [congruence|right; lia|right; lia].
Qed.

Lemma keyLt_irrefl a : ~ keyLt a a.
Proof. unfold keyLt. lia. Qed.

Lemma keyLt_trans a b c : keyLt a b -> keyLt b c -> keyLt a c.
Proof. unfold keyLt. lia. Qed.

Lemma comparePiece_Lt p q : keyLt (key p) (key q) -> comparePiece p q = Lt.
Proof.
  intros H. pose proof (comparePiece_spec p q) as S.
  destruct (comparePiece p q); [|reflexivity|].
  - rewrite S in H. now apply keyLt_irrefl in H.
  - exfalso. eapply keyLt_irrefl, keyLt_trans; eassumption.
Qed.

Lemma comparePiece_Eq p q : key p = key q -> comparePiece p q = Eq.
Proof.
  intros H. pose proof (comparePiece_spec p q) as S. rewrite H in S.
  destruct (comparePiece p q); [reflexivity| |]; now apply keyLt_irrefl in S.
Qed.

Lemma comparePiece_Gt p q : keyLt (key q) (key p) -> comparePiece p q = Gt.
Proof.
  intros H. pose proof (comparePiece_spec p q) as S.
  destruct (comparePiece p q); [| |reflexivity].
  - rewrite S in H. now apply keyLt_irrefl in H.
  - exfalso. eapply keyLt_irrefl, keyLt_trans; eassumption.
Qed.

Lemma comparePiece_antisym p q :
  comparePiece q p = CompOpp (comparePiece p q).
Proof.
  pose proof (comparePiece_spec p q) as S.
  destruct (comparePiece p q); simpl.
  - now apply comparePiece_Eq.
  - now apply comparePiece_Gt.
  - now apply comparePiece_Lt.
Qed.

Lemma comparePieces_antisym a :
  forall b, comparePieces b a = CompOpp (comparePieces a b).
Proof.
  induction a as [|p a IH]; intros [|q b]; simpl; auto.
  rewrite (comparePiece_antisym p q).
  destruct (comparePiece p q); simpl; auto.
Qed.

Lemma notAfter_trans a :
  forall b c, notAfter a b -> notAfter b c -> notAfter a c.
Proof.
  unfold notAfter.
  induction a as [|p a IH]; intros [|q b] [|r c]; simpl; try congruence.
  pose proof (comparePiece_spec p q) as Spq.
  pose proof (comparePiece_spec q r) as Sqr.
  destruct (comparePiece p q) eqn:Epq; [| |congruence];
    destruct (comparePiece q r) eqn:Eqr; try congruence; intros H1 H2.
  - rewrite (comparePiece_Eq p r) by congruence. eauto.
  - rewrite (comparePiece_Lt p r) by (rewrite Spq; exact Sqr). congruence.
  - rewrite (comparePiece_Lt p r) by (rewrite <- Sqr; exact Spq). congruence.
  - rewrite (comparePiece_Lt p r) by (eapply keyLt_trans; eassumption).
    congruence.
Qed.

Lemma localeCompare_antisym a b : localeCompare b a = (- localeCompare a b)%Z.
Proof.
  unfold localeCompare. rewrite (comparePieces_antisym (pieces a) (pieces b)).
  now destruct (comparePieces (pieces a) (pieces b)).
Qed.

Lemma localeCompare_le a b :
  (localeCompare a b <= 0)%Z <-> notAfter (pieces a) (pieces b).
Proof.
  unfold localeCompare, notAfter.
  destruct (comparePieces (pieces a) (pieces b)); split; try lia; congruence.
Qed.

Lemma localeCompare_trans a b c :
  (localeCompare a b <= 0)%Z -> (localeCompare b c <= 0)%Z ->
  (localeCompare a c <= 0)%Z.
Proof. rewrite !localeCompare_le. apply notAfter_trans. Qed.

Lemma localeCompare_total a b :
  (localeCompare a b <= 0)%Z \/ (localeCompare b a <= 0)%Z.
Proof. rewrite (localeCompare_antisym a b). lia. Qed.

End CollatorFacts.

Section SortFacts.
Context {A : Type} (cmp : A -> A -> Z).

Hypothesis cmp_total : forall x y, (before cmp) x y \/ (before cmp) y x.
Hypothesis cmp_trans : forall x y z, (before cmp) x y -> (before cmp) y z -> (before cmp) x z.

Lemma sortInsert_In x l y : In y (sortInsert cmp x l) -> y = x \/ In y l.
Proof.
  induction l as [|z l IH]; simpl; [intuition congruence|].
  destruct (cmp x z <=? 0)%Z; simpl; intuition congruence.
Qed.

Lemma sortInsert_sorted x l :
  StronglySorted (before cmp) l -> StronglySorted (before cmp) (sortInsert cmp x l).
Proof.
  induction 1 as [|z l Hl IH Hz]; simpl.
  - repeat constructor.
  - destruct (Z.leb_spec (cmp x z) 0) as [Hxz|Hxz].
    + constructor; [now constructor|]. constructor; [exact Hxz|].
      rewrite List.Forall_forall in *. intros y Hy.
      eapply cmp_trans; [exact Hxz|]. now apply Hz.
    + constructor; [exact IH|]. rewrite List.Forall_forall in *.
      intros y Hy. apply sortInsert_In in Hy as [->|Hy]; [|now apply Hz].
      destruct (cmp_total x z) as [H|H]; [unfold before in H; lia|exact H].
Qed.

Lemma sort_sorted l : StronglySorted (before cmp) (sort cmp l).
Proof.
  induction l as [|x l IH]; simpl; [constructor|].
  now apply sortInsert_sorted.
Qed.

Lemma sortInsert_perm x l : Permutation (sortInsert cmp x l) (x :: l).
Proof.
  induction l as [|z l IH]; simpl; [reflexivity|].
  destruct (cmp x z <=? 0)%Z; [reflexivity|].
  rewrite IH. apply perm_swap.
Qed.

Lemma sort_perm l : Permutation (sort cmp l) l.
Proof.
  induction l as [|x l IH]; simpl; [reflexivity|].
  now rewrite sortInsert_perm, IH.
Qed.

End SortFacts.

Lemma chars_app a b : Str.chars (a +:+ b) = Str.chars a ++ Str.chars b.
Proof. induction a as [|c a IH]; simpl; [reflexivity|]. now rewrite <- IH. Qed.

Lemma starts_app p r : Str.starts p (p ++ r) = true.
Proof.
  induction p as [|c p IH]; simpl; [reflexivity|].
  unfold Str.eqc. now rewrite Ascii.eqb_refl.
Qed.

Lemma StronglySorted_weaken {A} (R S : A -> A -> Prop) l :
  (forall a b, R a b -> S a b) -> StronglySorted R l -> StronglySorted S l.
Proof.
  intros HRS. induction 1 as [|a l Hl IH Ha]; constructor; [exact IH|].
  rewrite List.Forall_forall in *. auto.
Qed.

Lemma matchWhole_versionPattern name rest :
  Regex.matchWhole (versionPattern name) (name +:+ rest)
  = Regex.matchWhole versionTail rest.
Proof.
  unfold Regex.matchWhole, versionPattern, versionTail. simpl.
  now rewrite chars_app, starts_app, drop_app_length.
Qed.

(** The comparison of the examples is consistent and numeric-aware. *)
Lemma Collator_consistent : consistent Collator.localeCompare.
Proof.
  split.
  - intros a b. apply CollatorFacts.localeCompare_total.
  - intros a b c. apply CollatorFacts.localeCompare_trans.
Qed.

Lemma numbers_go_nonempty l :
  forall cur ns, numbers_go cur l = Some ns -> ns <> [].
Proof.
  induction l as [|c l IH]; intros cur ns; cbn [numbers_go].
  - destruct cur; [|discriminate]. intros H. now injection H as <-.
  - destruct (Str.is_digit c).
    + destruct cur as [[|p]|]; [discriminate|apply IH|apply IH].
    + destruct (Str.eqc c Str.dot); [|discriminate].
      destruct cur as [n|]; [|discriminate].
      destruct (numbers_go None l); [|discriminate].
      intros H. now injection H as <-.
Qed.

Lemma pieces_go_numbers l :
  forall cur ns,
    numbers_go cur l = Some ns -> Collator.pieces_go cur l = dotted ns.
Proof.
  induction l as [|c l IH]; intros cur ns;
    cbn [numbers_go Collator.pieces_go].
  - destruct cur; [|discriminate]. intros H. now injection H as <-.
  - destruct (Str.is_digit c).
    + unfold Collator.digitVal.
      destruct cur as [[|p]|]; [discriminate|apply IH|apply IH].
    + destruct (Str.eqc c Str.dot) eqn:Ec; [|discriminate].
      destruct cur as [n|]; [|discriminate].
      destruct (numbers_go None l) as [ns'|] eqn:E; [|discriminate].
      intros H. injection H as <-.
      apply Ascii.eqb_eq in Ec. subst c.
      rewrite (IH None ns' E). cbn [dotted].
      destruct ns' as [|m ns']; [|reflexivity].
      now apply numbers_go_nonempty in E.
Qed.

Lemma comparePieces_dotted la :
  forall lb,
    Collator.comparePieces (dotted la) (dotted lb) = compareNumbers la lb.
Proof.
  induction la as [|x la IH]; intros [|y lb]; try reflexivity.
  cbn [dotted compareNumbers Collator.comparePieces].
  unfold Collator.comparePiece. cbn [Collator.key fst snd].
  rewrite N.compare_refl.
  destruct (x ?= y)%N; [|reflexivity|reflexivity].
  specialize (IH lb).
  destruct la as [|x' la], lb as [|y' lb]; try reflexivity.
  cbn [Collator.comparePieces]. exact IH.
Qed.

Lemma Collator_numericAware : numericAware Collator.localeCompare.
Proof.
  intros a b la lb Ha Hb _ _. unfold Collator.localeCompare, Collator.pieces.
  rewrite (pieces_go_numbers _ _ _ Ha), (pieces_go_numbers _ _ _ Hb).
  rewrite comparePieces_dotted. now destruct (compareNumbers la lb).
Qed.

Lemma compareNumbers_antisym a :
  forall b, compareNumbers b a = CompOpp (compareNumbers a b).
Proof.
  induction a as [|x a IH]; intros [|y b]; try reflexivity.
  cbn [compareNumbers]. rewrite (N.compare_antisym x y).
  destruct (x ?= y)%N; cbn [CompOpp]; auto.
Qed.

Lemma StronglySorted_among {A} (P : A -> Prop) (R S : A -> A -> Prop) l :
  (forall a b, P a -> P b -> R a b -> S a b) ->
  Forall P l -> StronglySorted R l -> StronglySorted S l.
Proof.
  intros HRS HP. induction 1 as [|a l Hl IH Ha]; constructor.
  - apply IH. now inversion HP.
  - rewrite List.Forall_forall in *. intros b Hb.
    apply HRS; auto using in_eq, in_cons.
Qed.


(** ** The checks of the validator *)

Lemma extends_refl r : extends r r.
Proof. exists []. now rewrite app_nil_r. Qed.

Lemma extends_trans r1 r2 r3 : extends r1 r2 -> extends r2 r3 -> extends r1 r3.
Proof.
  intros [m1 H1] [m2 H2]. exists (m1 ++ m2). now rewrite H2, H1, app_assoc.
Qed.

Lemma extends_In r r' f : extends r r' -> In f (findings r) -> In f (findings r').
Proof. intros [m ->] H. apply List.in_app_iff. now left. Qed.

Lemma extends_report f r : extends r (report f r).
Proof. now exists [f]. Qed.

Lemma In_report f r : In f (findings (report f r)).
Proof. simpl. apply List.in_app_iff. right. now left. Qed.

Lemma counted_report f r : counted r -> counted (report f r).
Proof. unfold counted. simpl. intros ->. rewrite length_app. simpl. lia. Qed.

Lemma extends_same r r' : findings r' = findings r -> extends r r'.
Proof. intros H. exists []. now rewrite app_nil_r. Qed.

Section Folds.
Context {X : Type} (step : Report -> X -> Report).
Hypothesis step_extends : forall r x, extends r (step r x).

Lemma fold_extends l : forall r, extends r (fold_left step l r).
Proof.
  induction l as [|x l IH]; intros r; simpl; [apply extends_refl|].
  eapply extends_trans; [apply step_extends|apply IH].
Qed.

Lemma fold_In f x l r :
  (forall r0, In f (findings (step r0 x))) ->
  In x l -> In f (findings (fold_left step l r)).
Proof.
  intros Hx Hin. apply List.in_split in Hin as (l1 & l2 & ->).
  rewrite List.fold_left_app. simpl.
  eapply extends_In; [apply fold_extends|apply Hx].
Qed.

Lemma fold_counted l :
  (forall r x, counted r -> counted (step r x)) ->
  forall r, counted r -> counted (fold_left step l r).
Proof.
  intros Hstep. induction l as [|x l IH]; intros r Hr; simpl; auto.
Qed.
End Folds.

Section CheckFacts.
Variable layout : Layout.

Lemma checkAliasImport_extends c p r imp :
  extends r (checkAliasImport layout c p r imp).
Proof.
  unfold checkAliasImport.
  destruct (negb _); [|now apply extends_same].
  eapply extends_trans; [|apply extends_report]. now apply extends_same.
Qed.

Lemma checkRelativeImport_extends c p r imp :
  extends r (checkRelativeImport layout c p r imp).
Proof.
  unfold checkRelativeImport.
  destruct (_ && _); [|destruct (negb _); [|now apply extends_same]];
    (eapply extends_trans; [|apply extends_report]); now apply extends_same.
Qed.

Lemma checkFile_extends r e : extends r (checkFile layout r e).
Proof.
  unfold checkFile. destruct e as [p c].
  destruct (negb _); [apply extends_refl|].
  eapply extends_trans;
    [|apply fold_extends; intros; apply checkRelativeImport_extends].
  eapply extends_trans;
    [|apply fold_extends; intros; apply checkAliasImport_extends].
  now apply extends_same.
Qed.

Lemma checkDependency_extends n r dep :
  extends r (checkDependency layout n r dep).
Proof.
  unfold checkDependency.
  destruct (negb _); [apply extends_report|apply extends_refl].
Qed.

Lemma checkManifest_extends r e : extends r (checkManifest layout r e).
Proof.
  unfold checkManifest. apply fold_extends. intros.
  apply checkDependency_extends.
Qed.

Lemma checkAliasImport_counted c p r imp :
  counted r -> counted (checkAliasImport layout c p r imp).
Proof.
  unfold checkAliasImport. intros H.
  destruct (negb _); [apply counted_report|]; exact H.
Qed.

Lemma checkRelativeImport_counted c p r imp :
  counted r -> counted (checkRelativeImport layout c p r imp).
Proof.
  unfold checkRelativeImport. intros H.
  destruct (_ && _); [|destruct (negb _)]; try apply counted_report; exact H.
Qed.

Lemma checkFile_counted r e : counted r -> counted (checkFile layout r e).
Proof.
  unfold checkFile. destruct e as [p c]. intros H.
  destruct (negb _); [exact H|].
  apply fold_counted; [intros; now apply checkRelativeImport_counted|].
  apply fold_counted; [intros; now apply checkAliasImport_counted|].
  exact H.
Qed.

Lemma checkManifest_counted r e :
  counted r -> counted (checkManifest layout r e).
Proof.
  unfold checkManifest. apply fold_counted. intros r0 dep H.
  unfold checkDependency. destruct (negb _); [apply counted_report|]; exact H.
Qed.

Lemma validateLayout_counted : counted (validateLayout layout).
Proof.
  unfold validateLayout.
  apply fold_counted; [intros; now apply checkManifest_counted|].
  apply fold_counted; [intros; now apply checkFile_counted|].
  reflexivity.
Qed.

(** What a file check reports is part of the report of the run. *)
Lemma validateLayout_In f e :
  In e (JsMap.entries (installedFiles layout)) ->
  (forall r, In f (findings (checkFile layout r e))) ->
  In f (findings (validateLayout layout)).
Proof.
  intros He Hf. unfold validateLayout.
  eapply extends_In;
    [apply fold_extends; intros; apply checkManifest_extends|].
  eapply fold_In; eauto. intros. apply checkFile_extends.
Qed.

End CheckFacts.

(** ** Effects of the scripts on the world *)

Section Keeps.
(** A relation between the world before and after that the steps of a
    computation maintain. *)
Variable P : World -> World -> Prop.
Hypothesis P_refl : forall w, P w w.
Hypothesis P_trans : forall w1 w2 w3, P w1 w2 -> P w2 w3 -> P w1 w3.

Lemma keeps_ret {A} (a : A) : keeps P (mret a).
Proof. intros w. apply P_refl. Qed.

Lemma keeps_throw {A} e : keeps P (@throw A e).
Proof. intros w. apply P_refl. Qed.

Lemma keeps_bind {A B} (m : M A) (f : A -> M B) :
  keeps P m -> (forall a, keeps P (f a)) -> keeps P (m ≫= f).
Proof.
  intros Hm Hf w. unfold mbind, M_bind. specialize (Hm w).
  destruct (m w) as [[a|e] w']; simpl in *; [|exact Hm].
  eapply P_trans; [exact Hm|apply Hf].
Qed.

Lemma keeps_fmap {A B} (f : A -> B) (m : M A) : keeps P m -> keeps P (f <$> m).
Proof.
  intros Hm w. unfold fmap, M_fmap. specialize (Hm w).
  now destruct (m w) as [[a|e] w'].
Qed.

Lemma keeps_tryCatch {A} (m : M A) h :
  keeps P m -> (forall e, keeps P (h e)) -> keeps P (tryCatch m h).
Proof.
  intros Hm Hh w. unfold tryCatch. specialize (Hm w).
  destruct (m w) as [[a|e] w']; simpl in *; [exact Hm|].
  eapply P_trans; [exact Hm|apply Hh].
Qed.

Lemma keeps_foldM {A S} (body : S -> A -> M S) l :
  (forall s a, keeps P (body s a)) -> forall s, keeps P (foldM body l s).
Proof.
  intros Hb. induction l as [|a l IH]; intros s; simpl.
  - apply keeps_ret.
  - apply keeps_bind; auto.
Qed.

Hypothesis keeps_readFile : forall p, keeps P (readFile p).
Hypothesis keeps_readdir : forall p, keeps P (readdir p).
Hypothesis keeps_print : forall s line, keeps P (print s line).

Lemma keeps_buildLayout JSON_parse ROOT : keeps P (buildLayout JSON_parse ROOT).
Proof.
  apply keeps_foldM. intros l typeDir. unfold scanTypeDir.
  apply keeps_bind.
  { apply keeps_tryCatch; [apply keeps_fmap, keeps_readdir|].
    intros. apply keeps_ret. }
  intros [entries|]; [|apply keeps_ret].
  apply keeps_foldM. intros l' entry. unfold scanEntry.
  apply keeps_bind.
  { apply keeps_tryCatch; [apply keeps_fmap, keeps_readFile|].
    intros. apply keeps_ret. }
  intros [raw|]; [|apply keeps_ret].
  apply keeps_bind.
  { unfold parseManifest. destruct (JSON_parse raw);
      [apply keeps_ret|apply keeps_throw]. }
  intros manifest. destruct (files manifest); [|apply keeps_throw].
  apply keeps_foldM. intros l'' fileName. unfold recordFile.
  apply keeps_bind; [apply keeps_readFile|]. intros. apply keeps_ret.
Qed.

Lemma keeps_main JSON_parse ROOT : keeps P (main JSON_parse ROOT).
Proof.
  unfold main. apply keeps_bind; [apply keeps_buildLayout|]. intros l.
  apply keeps_bind.
  { apply keeps_foldM. intros. apply keeps_print. }
  intros _. apply keeps_bind; [apply keeps_print|]. intros _.
  destruct (Nat.ltb _ _); (apply keeps_bind; [apply keeps_print|]);
    intros; apply keeps_ret.
Qed.

End Keeps.

(** Reading changes nothing. *)
Lemma readFile_same p w : snd (readFile p w) = w.
Proof. unfold readFile. now destruct (fs_files (fs w) !! p). Qed.

Lemma readdir_same p w : snd (readdir p w) = w.
Proof. unfold readdir. now destruct (fs_dirs (fs w) !! p). Qed.

(** Phase 1 only reads: it leaves the world, files and console, as it is. *)
Lemma buildLayout_same JSON_parse ROOT w :
  snd (buildLayout JSON_parse ROOT w) = w.
Proof.
  apply (keeps_buildLayout (fun w1 w2 => w2 = w1)); try congruence.
  - intros p w0. apply readFile_same.
  - intros p w0. apply readdir_same.
Qed.

(** The run of the validator changes no file and no directory. *)
Lemma validate_same_fs JSON_parse ROOT w :
  fs (snd (validate JSON_parse ROOT w)) = fs w.
Proof.
  unfold validate.
  pose proof (keeps_main (fun w1 w2 => fs w2 = fs w1)) as K.
  specialize (K (fun _ => eq_refl)).
  specialize (K (fun w1 w2 w3 H12 H23 => eq_trans H23 H12)).
  specialize (K (fun p w0 => f_equal fs (readFile_same p w0))).
  specialize (K (fun p w0 => f_equal fs (readdir_same p w0))).
  specialize (K (fun s line w0 => eq_refl) JSON_parse ROOT w).
  destruct (main JSON_parse ROOT w) as [[status|err] w']; exact K.
Qed.

Section Reads.

Lemma reader_ret {A} (a : A) : reader (mret a).
Proof. split; [reflexivity|]. now intros w w' _. Qed.

Lemma reader_throw {A} e : reader (@throw A e).
Proof. split; [reflexivity|]. now intros w w' _. Qed.

Lemma reader_bind {A B} (m : M A) (f : A -> M B) :
  reader m -> (forall a, reader (f a)) -> reader (m ≫= f).
Proof.
  intros [Hs Hr] Hf. split.
  - intros w. unfold mbind, M_bind. specialize (Hs w).
    destruct (m w) as [[a|e] w0]; simpl in *; subst; [apply Hf|reflexivity].
  - intros w w' E. unfold mbind, M_bind.
    pose proof (Hs w) as H1. pose proof (Hs w') as H2.
    specialize (Hr w w' E).
    destruct (m w) as [[a|e] w0], (m w') as [[a'|e'] w0']; simpl in *;
      subst; try congruence.
    injection Hr as ->. now apply Hf.
Qed.

Lemma reader_fmap {A B} (f : A -> B) (m : M A) : reader m -> reader (f <$> m).
Proof.
  intros [Hs Hr]. split.
  - intros w. unfold fmap, M_fmap. specialize (Hs w).
    now destruct (m w) as [[a|e] w0].
  - intros w w' E. unfold fmap, M_fmap. specialize (Hr w w' E).
    destruct (m w) as [[a|e] w0], (m w') as [[a'|e'] w0']; simpl in *;
      congruence.
Qed.

Lemma reader_tryCatch {A} (m : M A) h :
  reader m -> (forall e, reader (h e)) -> reader (tryCatch m h).
Proof.
  intros [Hs Hr] Hh. split.
  - intros w. unfold tryCatch. specialize (Hs w).
    destruct (m w) as [[a|e] w0]; simpl in *; subst; [reflexivity|apply Hh].
  - intros w w' E. unfold tryCatch.
    pose proof (Hs w) as H1. pose proof (Hs w') as H2.
    specialize (Hr w w' E).
    destruct (m w) as [[a|e] w0], (m w') as [[a'|e'] w0']; simpl in *;
      subst; try congruence.
    injection Hr as ->. now apply Hh.
Qed.

Lemma reader_foldM {A S} (body : S -> A -> M S) l :
  (forall s a, reader (body s a)) -> forall s, reader (foldM body l s).
Proof.
  intros Hb. induction l as [|a l IH]; intros s; simpl.
  - apply reader_ret.
  - apply reader_bind; auto.
Qed.

Lemma reader_readFile path : reader (readFile path).
Proof.
  split; [intros w; apply readFile_same|].
  intros w w' E. unfold readFile. rewrite E.
  now destruct (fs_files (fs w) !! path).
Qed.

Lemma reader_readdir path : reader (readdir path).
Proof.
  split; [intros w; apply readdir_same|].
  intros w w' E. unfold readdir. rewrite E.
  now destruct (fs_dirs (fs w) !! path).
Qed.

Lemma buildLayout_reads JSON_parse ROOT : reads (buildLayout JSON_parse ROOT).
Proof.
  apply reader_foldM. intros l typeDir. unfold scanTypeDir.
  apply reader_bind.
  { apply reader_tryCatch; [apply reader_fmap, reader_readdir|].
    intros. apply reader_ret. }
  intros [entries|]; [|apply reader_ret].
  apply reader_foldM. intros l' entry. unfold scanEntry.
  apply reader_bind.
  { apply reader_tryCatch; [apply reader_fmap, reader_readFile|].
    intros. apply reader_ret. }
  intros [raw|]; [|apply reader_ret].
  apply reader_bind.
  { unfold parseManifest. destruct (JSON_parse raw);
      [apply reader_ret|apply reader_throw]. }
  intros manifest. destruct (files manifest); [|apply reader_throw].
  apply reader_foldM. intros l'' fileName. unfold recordFile.
  apply reader_bind; [apply reader_readFile|]. intros. apply reader_ret.
Qed.

End Reads.

(** ** The layout phase 1 builds *)

Module JsMapFacts.
Import JsMap.

Lemma set_In {V} k (v : V) m e : In e (set k v m) -> e = (k, v) \/ In e m.
Proof.
  induction m as [|[k' v'] m IH]; simpl; [intuition congruence|].
  destruct (String.eqb k k'); simpl; intuition congruence.
Qed.

Lemma has_set {V} k (v : V) m k' :
  has k' (set k v m) = (String.eqb k' k || has k' m)%bool.
Proof.
  unfold has. induction m as [|[k0 v0] m IH]; simpl.
  - now destruct (String.eqb k' k).
  - destruct (String.eqb_spec k k0) as [->|Hne]; simpl.
    + now destruct (String.eqb k' k0).
    + destruct (String.eqb_spec k' k0) as [->|Hne'].
      * destruct (String.eqb_spec k0 k); [congruence|reflexivity].
      * exact IH.
Qed.

End JsMapFacts.

Lemma ensures_bind {A B} (P : A -> Prop) (Q : B -> Prop) (m : M A)
    (f : A -> M B) :
  ensures P m -> (forall a, P a -> ensures Q (f a)) -> ensures Q (m ≫= f).
Proof.
  intros Hm Hf w b. unfold mbind, M_bind. specialize (Hm w).
  destruct (m w) as [[a|e] w0]; simpl in *; [|discriminate].
  apply Hf. now apply Hm.
Qed.

Lemma ensures_weaken {A} (P Q : A -> Prop) (m : M A) :
  (forall a, P a -> Q a) -> ensures P m -> ensures Q m.
Proof. intros HPQ Hm w a E. eapply HPQ, Hm, E. Qed.

Lemma ensures_foldM {A S} (I : S -> Prop) (body : S -> A -> M S) l :
  (forall s a, I s -> ensures I (body s a)) ->
  forall s, I s -> ensures I (foldM body l s).
Proof.
  intros Hb. induction l as [|a l IH]; intros s Hs; simpl.
  - intros w s' E. injection E as <-. exact Hs.
  - eapply ensures_bind; [apply Hb, Hs|]. intros s' Hs'. now apply IH.
Qed.

Lemma buildLayout_owned JSON_parse ROOT w l :
  layoutOf JSON_parse ROOT w = Some l -> owned l.
Proof.
  unfold layoutOf. intros H.
  assert (E : fst (buildLayout JSON_parse ROOT w) = Ok l).
  { destruct (buildLayout JSON_parse ROOT w) as [[l0|e] w0];
      simpl; congruence. }
  clear H. revert w l E. fold (ensures owned (buildLayout JSON_parse ROOT)).
  apply ensures_foldM; [|intros path c []].
  intros l typeDir Hl. unfold scanTypeDir.
  apply (ensures_bind (fun _ => True)); [easy|]. intros [entries|] _;
    [|intros w l' E; injection E as <-; exact Hl].
  apply ensures_foldM; [|exact Hl]. clear l Hl.
  intros l entry Hl. unfold scanEntry.
  apply (ensures_bind (fun _ => True)); [easy|]. intros [raw|] _;
    [|intros w l' E; injection E as <-; exact Hl].
  apply (ensures_bind (fun _ => True)); [easy|]. intros manifest _.
  destruct (files manifest) as [fileNames|]; [|intros w l' E; discriminate].
  apply (ensures_weaken
           (fun l0 => owned l0
                      /\ JsMap.has (name manifest) (manifests l0) = true));
    [tauto|].
  apply ensures_foldM.
  2:{ split.
      - intros path c Hin. simpl in *. rewrite JsMapFacts.has_set.
        rewrite (Hl path c Hin). apply orb_true_r.
      - simpl. rewrite JsMapFacts.has_set. now rewrite String.eqb_refl. }
  intros l0 fileName [Ho Hn]. unfold recordFile.
  apply (ensures_bind (fun _ => True)); [easy|]. intros source _.
  intros w0 l' E. injection E as <-. simpl. split; [|exact Hn].
  intros path c Hin. simpl in Hin.
  apply JsMapFacts.set_In in Hin as [Hin|Hin].
  - injection Hin as _ ->. exact Hn.
  - exact (Ho path c Hin).
Qed.

(** ** The run of the validator *)

Lemma foldM_console_error lines w :
  foldM (fun _ line => console_error line) lines tt w
  = (Ok tt,
     {| fs := fs w;
        console := console w ++ List.map (pair Stderr) lines |}).
Proof.
  revert w. induction lines as [|line lines IH]; intros w; simpl.
  - unfold mret, M_ret. rewrite app_nil_r. now destruct w.
  - unfold mbind, M_bind, console_error, print. rewrite IH. simpl.
    now rewrite <- app_assoc.
Qed.

Section Runs.
Variable JSON_parse : string -> option ComponentManifest.
Variable ROOT : string.

Lemma validate_completed w l :
  layoutOf JSON_parse ROOT w = Some l ->
  validate JSON_parse ROOT w
  = (statusOf (validateLayout l),
     {| fs := fs w;
        console :=
          console w
            ++ List.map (pair Stderr)
                 (flat_map render (findings (validateLayout l)))
            ++ closingLines (validateLayout l) l |}).
Proof.
  unfold layoutOf, validate, main. intros H.
  pose proof (buildLayout_same JSON_parse ROOT w) as Hw.
  unfold mbind at 1. unfold M_bind at 1.
  destruct (buildLayout JSON_parse ROOT w) as [[l0|e] w0]; [|discriminate].
  simpl in Hw. subst w0. injection H as ->.
  unfold mbind at 1. unfold M_bind at 1. rewrite foldM_console_error.
  unfold statusOf, closingLines, mbind, M_bind, console_log, console_error,
    print, mret, M_ret.
  destruct (Nat.ltb 0 (errors (validateLayout l))); simpl;
    now rewrite <- !app_assoc.
Qed.

Lemma validate_aborted w :
  layoutOf JSON_parse ROOT w = None ->
  exists err,
    fst (buildLayout JSON_parse ROOT w) = Throw err
    /\ validate JSON_parse ROOT w
       = (1, {| fs := fs w;
                console := console w ++ [(Stderr, showExn err)] |}).
Proof.
  unfold layoutOf, validate, main. intros H.
  pose proof (buildLayout_same JSON_parse ROOT w) as Hw.
  unfold mbind at 1. unfold M_bind at 1.
  destruct (buildLayout JSON_parse ROOT w) as [[l0|e] w0]; [discriminate|].
  simpl in Hw. subst w0. now exists e.
Qed.

Lemma statusOf_findings l :
  statusOf (validateLayout l) = 1 <-> findings (validateLayout l) <> [].
Proof.
  unfold statusOf. rewrite (validateLayout_counted l).
  destruct (findings (validateLayout l)); simpl; split; congruence.
Qed.

End Runs.

(** C8. The validator leaves the file system as it found it, whatever it
    finds: the files and directories after a run are those before it, on
    runs that report errors and on runs that abort as well. A second run
    therefore meets the same files and ends as the first one did, with the
    same findings and the same status. *)
Theorem validate_keeps_file_system JSON_parse ROOT w :
  fs (snd (validate JSON_parse ROOT w)) = fs w
  /\ findingsOf JSON_parse ROOT (snd (validate JSON_parse ROOT w))
     = findingsOf JSON_parse ROOT w
  /\ fst (validate JSON_parse ROOT (snd (validate JSON_parse ROOT w)))
     = fst (validate JSON_parse ROOT w).
Proof.
  pose proof (validate_same_fs JSON_parse ROOT w) as Hfs.
  set (w' := snd (validate JSON_parse ROOT w)) in *.
  assert (Hl : layoutOf JSON_parse ROOT w' = layoutOf JSON_parse ROOT w).
  { unfold layoutOf.
    pose proof (buildLayout_reads JSON_parse ROOT w w' Hfs) as H.
    destruct (buildLayout JSON_parse ROOT w) as [r w0],
      (buildLayout JSON_parse ROOT w') as [r' w0']. simpl in H. now subst. }
  split; [exact Hfs|]. split; [unfold findingsOf; now rewrite Hl|].
  destruct (layoutOf JSON_parse ROOT w) as [l|] eqn:E.
  - rewrite (validate_completed _ _ _ _ Hl).
    now rewrite (validate_completed _ _ _ _ E).
  - destruct (validate_aborted _ _ _ Hl) as (e1 & _ & ->).
    now destruct (validate_aborted _ _ _ E) as (e2 & _ & ->).
Qed.

Lemma knownAliasTypes_has_spec d :
  knownAliasTypes_has d = true
  <-> In d ["agents"; "tools"; "skills"; "storage"].
Proof.
  unfold knownAliasTypes_has, knownAliasTypes. simpl.
  rewrite !orb_true_iff, !String.eqb_eq. intuition congruence.
Qed.

Section Findings.
Variable JSON_parse : string -> option ComponentManifest.
Variable ROOT : string.

(** A finding of a completed run is counted, sets the status to 1 and has
    its lines on the error stream. *)
Lemma finding_reported w l f :
  layoutOf JSON_parse ROOT w = Some l ->
  In f (findings (validateLayout l)) ->
  In f (findingsOf JSON_parse ROOT w)
  /\ fst (validate JSON_parse ROOT w) = 1
  /\ forall line, In line (render f) ->
       In (Stderr, line) (console (snd (validate JSON_parse ROOT w))).
Proof.
  intros Hl Hf. split; [|split].
  - unfold findingsOf. now rewrite Hl.
  - rewrite (validate_completed _ _ _ _ Hl). simpl.
    apply statusOf_findings. intros E. now rewrite E in Hf.
  - intros line Hline. rewrite (validate_completed _ _ _ _ Hl). simpl.
    apply List.in_app_iff. right. apply List.in_app_iff. left.
    apply List.in_map. apply List.in_flat_map. eauto.
Qed.

(** What the check of a TypeScript file reports for one of its relative
    imports is reported by the run. *)
Lemma relative_import_checked l installedPath componentName source importPath f :
  In (installedPath, componentName) (JsMap.entries (installedFiles l)) ->
  Path.extname installedPath = ".ts" ->
  JsMap.get installedPath (fileContents l) = Some source ->
  In importPath (extractRelativeImports source) ->
  (forall r,
     In f (findings
             (checkRelativeImport l componentName installedPath r importPath))) ->
  In f (findings (validateLayout l)).
Proof.
  intros He Hext Hsrc Himp Hf.
  eapply validateLayout_In; [exact He|]. intros r. unfold checkFile.
  rewrite Hext, Hsrc. simpl.
  eapply fold_In; [intros; apply checkRelativeImport_extends|exact Hf|exact Himp].
Qed.

Lemma alias_import_checked l installedPath componentName source imp f :
  In (installedPath, componentName) (JsMap.entries (installedFiles l)) ->
  Path.extname installedPath = ".ts" ->
  JsMap.get installedPath (fileContents l) = Some source ->
  In imp (extractKitnAliasImports source) ->
  (forall r,
     In f (findings (checkAliasImport l componentName installedPath r imp))) ->
  In f (findings (validateLayout l)).
Proof.
  intros He Hext Hsrc Himp Hf.
  eapply validateLayout_In; [exact He|]. intros r. unfold checkFile.
  rewrite Hext, Hsrc. simpl.
  eapply extends_In;
    [apply fold_extends; intros; apply checkRelativeImport_extends|].
  eapply fold_In; [intros; apply checkAliasImport_extends|exact Hf|exact Himp].
Qed.

(** C1, as amended. In a completed run, for every file of the installed
    layout with extension .ts, every relative import that the pattern of
    the validator finds in its source ([extractRelativeImports]) and whose
    resolved target lies in another directory than the file, that
    directory being agents, tools, skills or storage, is reported as a
    cross-type import: the finding is among the findings of the run, its
    lines are printed on the error stream and the status is 1. Nothing is
    asked of the target: it may or may not be a key of the layout. *)
Theorem cross_type_import_flagged w l installedPath componentName source
    importPath :
  layoutOf JSON_parse ROOT w = Some l ->
  In (installedPath, componentName) (JsMap.entries (installedFiles l)) ->
  Path.extname installedPath = ".ts" ->
  JsMap.get installedPath (fileContents l) = Some source ->
  In importPath (extractRelativeImports source) ->
  let resolvedTarget := resolveImportToFile importPath installedPath in
  let targetDir := Path.dirname resolvedTarget in
  targetDir <> Path.dirname installedPath ->
  In targetDir ["agents"; "tools"; "skills"; "storage"] ->
  let f := CrossTypeImport componentName installedPath importPath targetDir
             resolvedTarget in
  In f (findingsOf JSON_parse ROOT w)
  /\ fst (validate JSON_parse ROOT w) = 1
  /\ forall line, In line (render f) ->
       In (Stderr, line) (console (snd (validate JSON_parse ROOT w))).
Proof.
  intros Hl He Hext Hsrc Himp resolvedTarget targetDir Hdir Hknown f.
  apply (finding_reported w l f Hl).
  eapply relative_import_checked; eauto.
  intros r. unfold checkRelativeImport.
  fold resolvedTarget. fold targetDir.
  apply String.eqb_neq in Hdir. rewrite Hdir.
  apply knownAliasTypes_has_spec in Hknown. rewrite Hknown. simpl.
  apply In_report.
Qed.

(** C2, as amended. In a completed run, for every file of the installed
    layout with extension .ts: an alias import that the alias pattern of
    the validator finds in its source ([extractKitnAliasImports], the type
    being agents, tools, skills or storage) and whose resolved target
    (type, slash, sub-path, a final .js turned into .ts) is not a key of
    the layout is reported as an unresolved reference, by the header, the
    message and an empty line, without any suggestion. The suggestion is
    made for relative imports: when a relative import that the pattern for
    relative imports finds ([extractRelativeImports]) is not a cross-type
    import and its resolved target is not a key of the layout, the report
    has a did-you-mean line for every installed path that ends with the
    file name of the target, naming that path and the component that owns
    it. *)
Theorem unresolved_reference_flagged w l installedPath componentName source :
  layoutOf JSON_parse ROOT w = Some l ->
  In (installedPath, componentName) (JsMap.entries (installedFiles l)) ->
  Path.extname installedPath = ".ts" ->
  JsMap.get installedPath (fileContents l) = Some source ->
  (forall imp,
     In imp (extractKitnAliasImports source) ->
     let resolvedTarget :=
       jsToTs (alias_type imp +:+ "/" +:+ alias_path imp) in
     JsMap.has resolvedTarget (installedFiles l) = false ->
     let f := UnresolvedAlias componentName installedPath (alias_type imp)
                (alias_path imp) resolvedTarget in
     In f (findingsOf JSON_parse ROOT w)
     /\ fst (validate JSON_parse ROOT w) = 1
     /\ render f
        = [ headerLine componentName installedPath;
            "  import " +:+ q +:+ "@kitn/" +:+ alias_type imp +:+ "/"
              +:+ alias_path imp +:+ q +:+ " resolves to " +:+ q
              +:+ resolvedTarget +:+ q +:+ " which is not in the registry";
            "" ]
     /\ forall line, In line (render f) ->
          In (Stderr, line) (console (snd (validate JSON_parse ROOT w))))
  /\ (forall importPath,
        In importPath (extractRelativeImports source) ->
        let resolvedTarget := resolveImportToFile importPath installedPath in
        let targetDir := Path.dirname resolvedTarget in
        (targetDir = Path.dirname installedPath
         \/ ~ In targetDir ["agents"; "tools"; "skills"; "storage"]) ->
        JsMap.has resolvedTarget (installedFiles l) = false ->
        exists hints,
          let f := UnresolvedRelative componentName installedPath importPath
                     resolvedTarget hints in
          In f (findingsOf JSON_parse ROOT w)
          /\ (forall line, In line (render f) ->
                In (Stderr, line)
                  (console (snd (validate JSON_parse ROOT w))))
          /\ forall candidatePath candidateName,
               In (candidatePath, candidateName)
                 (JsMap.entries (installedFiles l)) ->
               Str.endsWith candidatePath
                 (Str.pop (Str.split Str.slash resolvedTarget)) = true ->
               In (didYouMeanLine candidatePath candidateName) (render f)).
Proof.
  intros Hl He Hext Hsrc. split.
  - intros imp Himp resolvedTarget Hmiss f.
    assert (Hf : In f (findings (validateLayout l))).
    { eapply alias_import_checked; eauto.
      intros r. unfold checkAliasImport. fold resolvedTarget.
      rewrite Hmiss. simpl. apply In_report. }
    destruct (finding_reported w l f Hl Hf) as (H1 & H2 & H3).
    repeat split; auto.
  - intros importPath Himp resolvedTarget targetDir Hsame Hmiss.
    exists (suggestions l componentName resolvedTarget). intros f.
    assert (Hf : In f (findings (validateLayout l))).
    { eapply relative_import_checked; eauto.
      intros r. unfold checkRelativeImport.
      fold resolvedTarget. fold targetDir.
      assert (Hc : negb (targetDir =? Path.dirname installedPath)%string
                   && knownAliasTypes_has targetDir = false).
      { destruct Hsame as [->|Hn].
        - now rewrite String.eqb_refl.
        - apply andb_false_iff. right.
          destruct (knownAliasTypes_has targetDir) eqn:E; [|reflexivity].
          now apply knownAliasTypes_has_spec in E. }
      rewrite Hc, Hmiss. simpl. apply In_report. }
    destruct (finding_reported w l f Hl Hf) as (H1 & H2 & H3).
    repeat split; auto.
    intros candidatePath candidateName Hc Hends.
    unfold f. simpl. right. right.
    apply List.in_app_iff. left. apply List.in_flat_map.
    set (deps := match JsMap.get componentName (manifests l) with
                 | Some manifest => default [] (registryDependencies manifest)
                 | None => []
                 end).
    exists (candidatePath, candidateName,
            negb (existsb (String.eqb candidateName) deps)).
    split; [|now left].
    unfold suggestions. fold deps.
    apply (List.in_map
             (fun e => (fst e, snd e, negb (existsb (String.eqb (snd e)) deps)))
             _ (candidatePath, candidateName)).
    apply List.filter_In. split; [exact Hc|exact Hends].
Qed.

End Findings.

(** C6, as amended. The status of a run is 0 or 1. It is 1 exactly when
    the run produced a finding or its scan of the components was aborted by
    an exception (malformed manifest text, a manifest without a list of
    files, a declared file that cannot be read); it is 0 exactly when the
    scan completed and produced no finding. A completed run prints its
    findings and the closing lines; an aborted run has no finding and
    prints the exception alone. *)
Theorem validate_status JSON_parse ROOT w :
  (fst (validate JSON_parse ROOT w) = 1
   <-> findingsOf JSON_parse ROOT w <> []
       \/ layoutOf JSON_parse ROOT w = None)
  /\ (fst (validate JSON_parse ROOT w) = 0
      <-> findingsOf JSON_parse ROOT w = []
          /\ layoutOf JSON_parse ROOT w <> None)
  /\ match layoutOf JSON_parse ROOT w with
     | Some l =>
         console (snd (validate JSON_parse ROOT w))
         = console w
             ++ List.map (pair Stderr)
                  (flat_map render (findings (validateLayout l)))
             ++ closingLines (validateLayout l) l
     | None =>
         exists err,
           console (snd (validate JSON_parse ROOT w))
           = console w ++ [(Stderr, showExn err)]
     end.
Proof.
  unfold findingsOf.
  destruct (layoutOf JSON_parse ROOT w) as [l|] eqn:Hl.
  - rewrite (validate_completed _ _ _ _ Hl). simpl.
    pose proof (statusOf_findings l) as S.
    assert (H01 : statusOf (validateLayout l) = 0
                  \/ statusOf (validateLayout l) = 1).
    { unfold statusOf. destruct (Nat.ltb _ _); auto. }
    split; [|split].
    + split; [intros H; left; tauto|intros [H|H]; [tauto|discriminate]].
    + split.
      * intros H0. split; [|discriminate].
        destruct (findings (validateLayout l)) eqn:E; [reflexivity|].
        assert (statusOf (validateLayout l) = 1) by (apply S; discriminate).
        lia.
      * intros [E _]. destruct H01 as [H|H]; [exact H|].
        apply S in H. contradiction.
    + reflexivity.
  - destruct (validate_aborted _ _ _ Hl) as (err & _ & ->). simpl.
    split; [|split].
    + split; [intros _; now right|reflexivity].
    + split; [discriminate|intros [_ H]; congruence].
    + now exists err.
Qed.

(** ** Witnesses and counterexamples *)

(** The witness of C1 as amended: the tool [x] imports [../agents/y.js]
    from [tools/x.ts] in a statement with [from], and [agents/y.ts] is in
    the layout. *)
Lemma cross_type_import_flagged_witness :
  let f := CrossTypeImport "x" "tools/x.ts" "../agents/y.js" "agents"
             "agents/y.ts" in
  JsMap.has "agents/y.ts" (installedFiles crossTypeLayout) = true
  /\ In f (findingsOf exampleParse "/repo/" crossTypeWorld)
  /\ fst (validate exampleParse "/repo/" crossTypeWorld) = 1
  /\ forall line, In line (render f) ->
       In (Stderr, line)
         (console (snd (validate exampleParse "/repo/" crossTypeWorld))).
Proof.
  split; [reflexivity|].
  apply (cross_type_import_flagged exampleParse "/repo/" crossTypeWorld
           crossTypeLayout "tools/x.ts" "x" crossTypeSource "../agents/y.js").
  - vm_compute. reflexivity.
  - vm_compute. auto.
  - vm_compute. reflexivity.
  - vm_compute. reflexivity.
  - vm_compute. auto.
  - vm_compute. discriminate.
  - vm_compute. auto.
Defined.

(** The counterexample to C1 as stated: the tool [x] imports
    [../agents/y.js] from [tools/x.ts] three times, none of them in the
    form the pattern of the validator looks for. Each import resolves to
    [agents/y.ts], in another type directory, yet the run reports nothing
    and ends with status 0. *)
Lemma side_effect_import_not_flagged :
  JsMap.get "tools/x.ts" (installedFiles sideEffectLayout) = Some "x"
  /\ JsMap.get "tools/x.ts" (fileContents sideEffectLayout)
     = Some sideEffectSource
  /\ Path.extname "tools/x.ts" = ".ts"
  /\ resolveImportToFile "../agents/y.js" "tools/x.ts" = "agents/y.ts"
  /\ Path.dirname "agents/y.ts" <> Path.dirname "tools/x.ts"
  /\ knownAliasTypes_has (Path.dirname "agents/y.ts") = true
  /\ extractRelativeImports sideEffectSource = []
  /\ layoutOf exampleParse "/repo/" sideEffectWorld = Some sideEffectLayout
  /\ findingsOf exampleParse "/repo/" sideEffectWorld = []
  /\ fst (validate exampleParse "/repo/" sideEffectWorld) = 0.
Proof. vm_compute. repeat split; auto. discriminate. Qed.

(** The counterexample to C2 as stated: [greeter] imports
    [@kitn/tools/missing.js], no [tools/missing.ts] is installed, the
    component [helper] owns [agents/missing.ts], and the output of the run
    has the unresolved reference but no suggestion. *)
Lemma alias_import_gets_no_suggestion :
  In {| alias_type := "tools"; alias_path := "missing.js" |}
    (extractKitnAliasImports aliasSource)
  /\ JsMap.get "agents/greeter.ts" (fileContents aliasLayout) = Some aliasSource
  /\ JsMap.has "tools/missing.ts" (installedFiles aliasLayout) = false
  /\ JsMap.get "agents/missing.ts" (installedFiles aliasLayout) = Some "helper"
  /\ findingsOf exampleParse "/repo/" aliasWorld
     = [ UnresolvedAlias "greeter" "agents/greeter.ts" "tools" "missing.js"
           "tools/missing.ts" ]
  /\ List.map snd (console (snd (validate exampleParse "/repo/" aliasWorld)))
     = [ headerLine "greeter" "agents/greeter.ts";
         "  import " +:+ q +:+ "@kitn/tools/missing.js" +:+ q
           +:+ " resolves to " +:+ q +:+ "tools/missing.ts" +:+ q
           +:+ " which is not in the registry";
         "";
         Str.nl +:+ "Validated 2 files, 1 imports, 2 components";
         Str.nl +:+ red "✗ 1 error(s) found" ]
  /\ forallb
       (fun line =>
          negb (Str.includes (snd line) "did you mean")
          && negb (Str.includes (snd line) "helper"))
       (console (snd (validate exampleParse "/repo/" aliasWorld))) = true.
Proof. vm_compute. repeat split; auto. Qed.

(** The witness of C2 as amended: the alias import of [greeter] is
    reported without a suggestion, and its unresolved relative import
    [./lost.js] comes with the suggestion of [tools/lost.ts], owned by
    [finder]. *)
Lemma unresolved_reference_flagged_witness :
  (In (UnresolvedAlias "greeter" "agents/greeter.ts" "tools" "missing.js"
         "tools/missing.ts")
      (findingsOf exampleParse "/repo/" unresolvedWorld)
   /\ fst (validate exampleParse "/repo/" unresolvedWorld) = 1)
  /\ exists hints,
       In (UnresolvedRelative "greeter" "agents/greeter.ts" "./lost.js"
             "agents/lost.ts" hints)
          (findingsOf exampleParse "/repo/" unresolvedWorld)
       /\ In (didYouMeanLine "tools/lost.ts" "finder")
            (render (UnresolvedRelative "greeter" "agents/greeter.ts"
                       "./lost.js" "agents/lost.ts" hints)).
Proof.
  assert (Hl : layoutOf exampleParse "/repo/" unresolvedWorld
               = Some unresolvedLayout) by (vm_compute; reflexivity).
  assert (He : In ("agents/greeter.ts", "greeter")
                 (JsMap.entries (installedFiles unresolvedLayout)))
    by (vm_compute; auto).
  assert (Hext : Path.extname "agents/greeter.ts" = ".ts")
    by (vm_compute; reflexivity).
  assert (Hsrc : JsMap.get "agents/greeter.ts" (fileContents unresolvedLayout)
                 = Some unresolvedSource) by (vm_compute; reflexivity).
  pose proof (unresolved_reference_flagged exampleParse "/repo/"
                unresolvedWorld unresolvedLayout "agents/greeter.ts" "greeter"
                unresolvedSource Hl He Hext Hsrc) as [Halias Hrel].
  split.
  - assert (Himp : In {| alias_type := "tools"; alias_path := "missing.js" |}
                     (extractKitnAliasImports unresolvedSource))
      by (vm_compute; auto).
    assert (Hmiss : JsMap.has "tools/missing.ts"
                      (installedFiles unresolvedLayout) = false)
      by (vm_compute; reflexivity).
    pose proof (Halias _ Himp Hmiss) as (H1 & H2 & _).
    (split; [exact H1|exact H2]).
  - assert (Himp : In "./lost.js" (extractRelativeImports unresolvedSource))
      by (vm_compute; auto).
    assert (Hdir : Path.dirname "agents/lost.ts"
                   = Path.dirname "agents/greeter.ts"
                   \/ ~ In (Path.dirname "agents/lost.ts")
                          ["agents"; "tools"; "skills"; "storage"])
      by (left; vm_compute; reflexivity).
    assert (Hmiss : JsMap.has "agents/lost.ts"
                      (installedFiles unresolvedLayout) = false)
      by (vm_compute; reflexivity).
    pose proof (Hrel "./lost.js" Himp Hdir Hmiss) as (hints & H1 & _ & H3).
    assert (Hres : resolveImportToFile "./lost.js" "agents/greeter.ts"
                   = "agents/lost.ts") by (vm_compute; reflexivity).
    rewrite Hres in H1, H3.
    exists hints. split; [exact H1|].
    apply (H3 "tools/lost.ts" "finder"); clear; vm_compute; auto.
Defined.

(** The counterexample to C6 as stated: the manifest of [broken] declares
    [gone.ts], which is not there; the run ends with status 1 and has no
    finding, it prints the exception alone. *)
Lemma aborted_scan_fails_without_finding :
  layoutOf exampleParse "/repo/" brokenWorld = None
  /\ findingsOf exampleParse "/repo/" brokenWorld = []
  /\ validate exampleParse "/repo/" brokenWorld
     = (1,
        {| fs := fs brokenWorld;
           console :=
             [ (Stderr,
                showExn (ENOENT "/repo/components/tools/broken/gone.ts")) ] |}).
Proof. vm_compute. repeat split; auto. Qed.


(** The witness of C5: the tool [echo] with two files, both read. *)
Lemma buildRegistryItem_files_witness :
  exists item records dir,
    buildRegistryItem "2026-01-01T00:00:00.000Z"
      (component "echo" "kitn:tool" ["echo.ts"; "lib/util.ts"] None None)
      {[ "echo.ts" := "export const echo = 1;";
         "lib/util.ts" := "export const util = 2;" ]}
    = Ok item
    /\ field "files" item = VArr records
    /\ length records = 2
    /\ dir = "tools"
    /\ records
       = [ VObj [ ("path", VStr "tools/echo.ts");
                  ("content", VStr "export const echo = 1;");
                  ("type", VStr "kitn:tool") ];
           VObj [ ("path", VStr "tools/lib/util.ts");
                  ("content", VStr "export const util = 2;");
                  ("type", VStr "kitn:tool") ] ].
Proof.
  destruct (buildRegistryItem_files "2026-01-01T00:00:00.000Z"
              (component "echo" "kitn:tool" ["echo.ts"; "lib/util.ts"] None
                 None)
              {[ "echo.ts" := "export const echo = 1;";
                 "lib/util.ts" := "export const util = 2;" ]}
              ["echo.ts"; "lib/util.ts"] eq_refl eq_refl)
    as (item & records & dir & Hitem & Hfiles & Hlen & Hdir & Hrec).
  - repeat constructor; eexists; vm_compute; reflexivity.
  - exists item, records, dir. split; [exact Hitem|]. split; [exact Hfiles|].
    split; [exact Hlen|].
    assert (Ed : dir = "tools").
    { clear - Hdir. simpl in Hdir.
      destruct Hdir as [[H _]|[[_ H]|[[H _]|[H _]]]];
        [discriminate|exact H|discriminate|discriminate]. }
    split; [exact Ed|]. subst dir.
    destruct (Hrec 0 "echo.ts" eq_refl) as (t0 & Ht0 & Hr0).
    destruct (Hrec 1 "lib/util.ts" eq_refl) as (t1 & Ht1 & Hr1).
    clear Hrec Hitem Hfiles.
    vm_compute in Ht0. vm_compute in Ht1.
    injection Ht0 as <-. injection Ht1 as <-.
    destruct records as [|r0 [|r1 [|r2 records]]]; try discriminate.
    simpl in Hr0, Hr1. injection Hr0 as ->. injection Hr1 as ->.
    reflexivity.
Defined.



(** ** Snapshots of the builder *)

(** C3 at the failing input. The first build writes the snapshot of [foo]
    1.0.0. The second build, after a component named [foo@1.0.0] has been
    added to the same type directory, writes the latest file of that
    component over it: the snapshot of [foo] 1.0.0 now holds the item of
    the other component. *)
Theorem snapshot_overwritten_by_latest_of_namesake :
  fst (exampleBuild "2026-01-01T00:00:00.000Z" (worldOf fooFiles)) = Ok tt
  /\ fs_files (fs afterFirstBuild) !! fooSnapshot
     = Some (itemOf "2026-01-01T00:00:00.000Z"
               (component "foo" "kitn:tool" ["foo.ts"] None (Some "1.0.0"))
               [("foo.ts", "export const foo = 1;")])
  /\ fst (exampleBuild "2026-01-02T00:00:00.000Z"
            (fold_left putFile clashFiles afterFirstBuild)) = Ok tt
  /\ latestPath "/repo/r/tools" "foo@1.0.0" = fooSnapshot
  /\ versionedPath "/repo/r/tools" "foo" "1.0.0" = fooSnapshot
  /\ fs_files (fs afterSecondBuild) !! fooSnapshot
     = Some (itemOf "2026-01-02T00:00:00.000Z"
               (component "foo@1.0.0" "kitn:tool" ["other.ts"] None
                  (Some "1.0.0"))
               [("other.ts", "export const other = 2;")])
  /\ fs_files (fs afterSecondBuild) !! fooSnapshot
     <> fs_files (fs afterFirstBuild) !! fooSnapshot.
Proof.
  vm_compute. repeat split; try reflexivity. discriminate.
Qed.

(** What holds away from such a clash: a build replaces the latest files
    of the components it builds and the index, and nothing else. *)
Section ExistingFiles.
Variable JSON_parse : string -> option ComponentManifest.
Variable JSON_stringify : value -> string.
Variable localeCompare : string -> string -> Z.
Variable ROOT : string.
Variable now : string.
Variable p : string.

Lemma keptAt_refl w : (keptAt p) w w.
Proof. now intros text. Qed.

Lemma keptAt_trans w1 w2 w3 : (keptAt p) w1 w2 -> (keptAt p) w2 w3 -> (keptAt p) w1 w3.
Proof. unfold keptAt. auto. Qed.

Lemma keptAt_same w w' : fs_files (fs w') = fs_files (fs w) -> (keptAt p) w w'.
Proof. intros E text. now rewrite E. Qed.

Local Abbreviation kept := (keeps (keptAt p)).

Lemma kept_readFile path : kept (readFile path).
Proof. intros w. rewrite readFile_same. apply keptAt_refl. Qed.

Lemma kept_readdir path : kept (readdir path).
Proof. intros w. rewrite readdir_same. apply keptAt_refl. Qed.

Lemma kept_print s line : kept (print s line).
Proof. intros w. now apply keptAt_same. Qed.

Lemma kept_mkdir dir : kept (mkdir_recursive dir).
Proof.
  intros w. apply keptAt_same. unfold mkdir_recursive.
  destruct (mkdirp _ _ _ _); [reflexivity|].
  now destruct (fs_files (fs w) !! dir).
Qed.

Lemma kept_writeFile path text : path <> p -> kept (writeFile path text).
Proof.
  intros Hne w. unfold writeFile.
  destruct (fs_dirs (fs w) !! Path.dirname path);
    [destruct (fs_dirs (fs w) !! path)|]; simpl; try apply keptAt_refl.
  intros t Ht. simpl. now rewrite lookup_insert_ne.
Qed.

(** The guarded write of a snapshot: nothing is written over a file that
    is there. *)
Lemma kept_snapshot path text (after : M unit) :
  kept after ->
  kept (tryCatch (access path) (fun _ => writeFile path text;; after)).
Proof.
  intros Hafter w. unfold tryCatch, access.
  destruct (fs_files (fs w) !! path) as [old|] eqn:Hfile; simpl;
    [apply keptAt_refl|].
  destruct (fs_dirs (fs w) !! path) eqn:Hdir; simpl; [apply keptAt_refl|].
  destruct (decide (path = p)) as [->|Hne].
  - intros t Ht. congruence.
  - apply (keeps_bind (keptAt p) keptAt_trans); [now apply kept_writeFile|].
    intros _. apply Hafter.
Qed.

Hypothesis not_a_latest_file :
  forall raw manifest typeDir,
    JSON_parse raw = Some manifest ->
    latestPath (Path.join [OUTPUT_DIR ROOT; typeDir]) (name manifest) <> p.
Hypothesis not_the_index : Path.join [OUTPUT_DIR ROOT; "registry.json"] <> p.

Lemma kept_ret_bind {A B} (a : A) (f : A -> M B) :
  kept (f a) -> kept (mret a ≫= f).
Proof. intros H w. exact (H w). Qed.

Lemma kept_bind {A B} (m : M A) (f : A -> M B) :
  kept m -> (forall a, kept (f a)) -> kept (m ≫= f).
Proof. apply (keeps_bind (keptAt p) keptAt_trans). Qed.

Lemma kept_ret {A} (a : A) : kept (mret a).
Proof. apply (keeps_ret (keptAt p) keptAt_refl). Qed.

Lemma kept_throw {A} e : kept (@throw A e).
Proof. apply (keeps_throw (keptAt p) keptAt_refl). Qed.

Lemma kept_buildEntry typeDir dir st entry :
  kept (buildEntry JSON_parse JSON_stringify localeCompare ROOT now typeDir dir st entry).
Proof.
  unfold buildEntry.
  apply kept_bind.
  { apply (keeps_tryCatch (keptAt p) keptAt_trans).
    - apply keeps_fmap, kept_readFile.
    - intros _. apply kept_bind; [apply kept_print|].
      intros _. apply kept_ret. }
  intros [raw|]; [|apply kept_ret].
  unfold parseManifest.
  destruct (JSON_parse raw) as [manifest|] eqn:Hparse;
    [|intros w; apply keptAt_refl].
  apply kept_ret_bind.
  apply kept_bind.
  { unfold readSources. destruct (files manifest); [|apply kept_throw].
    apply (keeps_foldM (keptAt p) keptAt_refl keptAt_trans). intros fc fileName.
    apply kept_bind; [apply kept_readFile|]. intros. apply kept_ret. }
  intros fc. apply kept_bind; [intros w; apply keptAt_refl|].
  intros item.
  apply kept_bind; [apply kept_mkdir|]. intros _.
  apply kept_bind; [apply kept_writeFile; eapply not_a_latest_file, Hparse|].
  intros _. apply kept_bind; [apply kept_print|]. intros _.
  apply kept_bind; [apply kept_snapshot, kept_print|]. intros _.
  apply kept_bind; [apply kept_readdir|]. intros. apply kept_ret.
Qed.

(** A build keeps every file that is there before it, the latest files of
    the components and the index apart: a snapshot that exists is never
    written again. *)
Lemma build_keeps_existing_files w text :
  fs_files (fs w) !! p = Some text ->
  fs_files (fs (snd (build JSON_parse JSON_stringify localeCompare ROOT now w))) !! p
  = Some text.
Proof.
  revert text. fold ((keptAt p) w (snd (build JSON_parse JSON_stringify localeCompare ROOT now w))).
  revert w. fold (kept (build JSON_parse JSON_stringify localeCompare ROOT now)).
  unfold build. apply kept_bind.
  { apply (keeps_foldM (keptAt p) keptAt_refl keptAt_trans). intros st typeDir.
    unfold buildTypeDir. apply kept_bind.
    { apply (keeps_tryCatch (keptAt p) keptAt_trans).
      - apply keeps_fmap, kept_readdir.
      - intros _. apply kept_ret. }
    intros [entries|]; [|apply kept_ret].
    apply (keeps_foldM (keptAt p) keptAt_refl keptAt_trans). intros st' entry.
    apply kept_buildEntry. }
  intros st. apply kept_bind; [now apply kept_writeFile|].
  intros _. apply kept_print.
Qed.

End ExistingFiles.

(** * More properties of the scripts *)

(** ** The report of the validator *)

Section ReportFacts.
Variable layout : Layout.

Lemma fold_findings_inv {X} (step : Report -> X -> Report) (Q : X -> finding -> Prop)
    l :
  (forall r x f, In f (findings (step r x)) -> In f (findings r) \/ Q x f) ->
  forall r f,
    In f (findings (fold_left step l r)) ->
    In f (findings r) \/ exists x, In x l /\ Q x f.
Proof.
  intros Hstep. induction l as [|x l' IH]; intros r f Hf; simpl in *;
    [now left|].
  apply IH in Hf as [Hf|(y & Hy & HQ)]; [|right; eauto].
  apply Hstep in Hf as [Hf|HQ]; [now left|right; eauto].
Qed.

Lemma report_inv g r f :
  In f (findings (report g r)) -> In f (findings r) \/ f = g.
Proof.
  simpl. intros H. apply List.in_app_iff in H as [H|[H|[]]]; auto.
Qed.

Lemma checkAliasImport_inv c p r imp f :
  In f (findings (checkAliasImport layout c p r imp)) ->
  In f (findings r)
  \/ (f = UnresolvedAlias c p (alias_type imp) (alias_path imp)
            (jsToTs (alias_type imp +:+ "/" +:+ alias_path imp))
      /\ JsMap.has (jsToTs (alias_type imp +:+ "/" +:+ alias_path imp))
           (installedFiles layout) = false).
Proof.
  unfold checkAliasImport.
  destruct (JsMap.has _ (installedFiles layout)) eqn:E; simpl negb; cbv iota.
  - now left.
  - intros H. apply report_inv in H as [H|H]; [now left|now right].
Qed.

Lemma checkRelativeImport_inv c p r importPath f :
  In f (findings (checkRelativeImport layout c p r importPath)) ->
  In f (findings r)
  \/ (let rt := resolveImportToFile importPath p in
      let td := Path.dirname rt in
      (f = CrossTypeImport c p importPath td rt
       /\ td <> Path.dirname p
       /\ In td ["agents"; "tools"; "skills"; "storage"])
      \/ (f = UnresolvedRelative c p importPath rt (suggestions layout c rt)
          /\ (td = Path.dirname p
              \/ ~ In td ["agents"; "tools"; "skills"; "storage"])
          /\ JsMap.has rt (installedFiles layout) = false)).
Proof.
  unfold checkRelativeImport.
  set (rt := resolveImportToFile importPath p).
  set (td := Path.dirname rt).
  destruct (String.eqb_spec td (Path.dirname p)) as [Heq|Hne]; simpl negb.
  - rewrite andb_false_l.
    destruct (JsMap.has rt (installedFiles layout)) eqn:E; simpl negb;
      cbv iota; [now left|].
    intros H. apply report_inv in H as [H|H]; [now left|].
    right. right. auto.
  - rewrite andb_true_l.
    destruct (knownAliasTypes_has td) eqn:K.
    + intros H. apply report_inv in H as [H|H]; [now left|].
      right. left. apply knownAliasTypes_has_spec in K. auto.
    + assert (Hn : ~ In td ["agents"; "tools"; "skills"; "storage"]).
      { intros Hin. apply knownAliasTypes_has_spec in Hin. congruence. }
      destruct (JsMap.has rt (installedFiles layout)) eqn:E; simpl negb;
        cbv iota; [now left|].
      intros H. apply report_inv in H as [H|H]; [now left|].
      right. right. auto.
Qed.

Lemma checkFile_justified r e f :
  In e (JsMap.entries (installedFiles layout)) ->
  In f (findings (checkFile layout r e)) ->
  In f (findings r) \/ justified layout f.
Proof.
  intros He. unfold checkFile. destruct e as [p c].
  destruct (String.eqb_spec (Path.extname p) ".ts") as [Hext|Hext];
    simpl negb; cbv iota; [|now left].
  set (source := show (JsMap.get p (fileContents layout))).
  intros H.
  apply (fold_findings_inv _
           (fun importPath f =>
              let rt := resolveImportToFile importPath p in
              let td := Path.dirname rt in
              (f = CrossTypeImport c p importPath td rt
               /\ td <> Path.dirname p
               /\ In td ["agents"; "tools"; "skills"; "storage"])
              \/ (f = UnresolvedRelative c p importPath rt
                        (suggestions layout c rt)
                  /\ (td = Path.dirname p
                      \/ ~ In td ["agents"; "tools"; "skills"; "storage"])
                  /\ JsMap.has rt (installedFiles layout) = false)))
    in H; [|intros; now apply checkRelativeImport_inv].
  destruct H as [H|(importPath & Hin & Hcause)].
  - apply (fold_findings_inv _
             (fun imp f =>
                f = UnresolvedAlias c p (alias_type imp) (alias_path imp)
                      (jsToTs (alias_type imp +:+ "/" +:+ alias_path imp))
                /\ JsMap.has
                     (jsToTs (alias_type imp +:+ "/" +:+ alias_path imp))
                     (installedFiles layout) = false))
      in H; [|intros; now apply checkAliasImport_inv].
    destruct H as [H|(imp & Hin & -> & Hmiss)]; [now left|].
    right. simpl. destruct imp as [ty ip]. simpl in *. auto 10.
  - right. simpl in Hcause.
    destruct Hcause as [(-> & Hne & Hk)|(-> & Hsame & Hmiss)]; simpl; auto 10.
Qed.

Lemma checkManifest_justified r e f :
  In e (JsMap.entries (manifests layout)) ->
  In f (findings (checkManifest layout r e)) ->
  In f (findings r) \/ justified layout f.
Proof.
  intros He. unfold checkManifest. destruct e as [n m]. simpl. intros H.
  apply (fold_findings_inv _
           (fun dep f => f = DanglingDependency n dep
                         /\ JsMap.has dep (manifests layout) = false))
    in H.
  - destruct H as [H|(dep & Hin & -> & Hmiss)]; [now left|].
    right. simpl. eauto.
  - intros r0 dep f0. unfold checkDependency.
    destruct (JsMap.has dep (manifests layout)) eqn:E; simpl negb; cbv iota;
      [now left|].
    intros H0. apply report_inv in H0 as [H0|H0]; auto.
Qed.

Lemma fold_justified {X} (step : Report -> X -> Report) l :
  (forall r x f, In x l -> In f (findings (step r x)) ->
                 In f (findings r) \/ justified layout f) ->
  forall r f,
    In f (findings (fold_left step l r)) ->
    In f (findings r) \/ justified layout f.
Proof.
  induction l as [|x l' IH]; intros Hstep r f Hf; simpl in *; [now left|].
  apply IH in Hf as [Hf|Hf]; [|now right|intros; eapply Hstep; eauto].
  eapply Hstep; eauto.
Qed.

Lemma validateLayout_justified f :
  In f (findings (validateLayout layout)) -> justified layout f.
Proof.
  unfold validateLayout. intros H.
  apply fold_justified in H;
    [|intros r x f0 Hx; now apply checkManifest_justified].
  destruct H as [H|H]; [|exact H].
  apply fold_justified in H;
    [|intros r x f0 Hx; now apply checkFile_justified].
  destruct H as [[]|H]. exact H.
Qed.


Lemma justified_reported f :
  justified layout f -> In f (findings (validateLayout layout)).
Proof.
  destruct f as [c p ty ip rt|c p ip td rt|c p ip rt hints|n dep]; simpl.
  - intros (He & Hext & Himp & -> & Hmiss).
    eapply validateLayout_In; [exact He|]. intros r. unfold checkFile.
    rewrite Hext. simpl negb. cbv iota.
    eapply extends_In;
      [apply fold_extends; intros; apply checkRelativeImport_extends|].
    eapply fold_In; [intros; apply checkAliasImport_extends| |exact Himp].
    intros r0. unfold checkAliasImport. cbn [alias_type alias_path].
    rewrite Hmiss. apply In_report.
  - intros (He & Hext & Himp & -> & -> & Hne & Hknown).
    eapply validateLayout_In; [exact He|]. intros r. unfold checkFile.
    rewrite Hext. simpl negb. cbv iota.
    eapply fold_In; [intros; apply checkRelativeImport_extends| |exact Himp].
    intros r0. unfold checkRelativeImport.
    apply knownAliasTypes_has_spec in Hknown. rewrite Hknown.
    apply String.eqb_neq in Hne. rewrite Hne. apply In_report.
  - intros (He & Hext & Himp & -> & Hdir & Hmiss & ->).
    eapply validateLayout_In; [exact He|]. intros r. unfold checkFile.
    rewrite Hext. simpl negb. cbv iota.
    eapply fold_In; [intros; apply checkRelativeImport_extends| |exact Himp].
    intros r0. unfold checkRelativeImport. rewrite Hmiss.
    assert (negb (String.eqb
                    (Path.dirname (resolveImportToFile ip p))
                    (Path.dirname p))
            && knownAliasTypes_has
                 (Path.dirname (resolveImportToFile ip p)) = false) as ->.
    { destruct Hdir as [->|Hn].
      - now rewrite String.eqb_refl.
      - apply andb_false_iff. right.
        destruct (knownAliasTypes_has _) eqn:K; [|reflexivity].
        apply knownAliasTypes_has_spec in K. tauto. }
    apply In_report.
  - intros (manifest & Hm & Hdep & Hmiss). unfold validateLayout.
    eapply fold_In; [intros; apply checkManifest_extends| |exact Hm].
    intros r. unfold checkManifest. simpl.
    eapply fold_In; [intros; apply checkDependency_extends| |exact Hdep].
    intros r0. unfold checkDependency. rewrite Hmiss. apply In_report.
Qed.

End ReportFacts.

(** X1. The findings of a completed run are the causes the layout holds,
    no more and no fewer: an unresolved alias or relative import, or a
    cross-type import, for each import the patterns find in the source of
    an installed file with extension .ts that fails the very test the
    message names; a dangling dependency for each dependency that a
    recorded manifest declares and that names no recorded component. Files
    of another extension never yield a finding about imports. *)
Theorem finding_iff_cause JSON_parse ROOT w l f :
  layoutOf JSON_parse ROOT w = Some l ->
  In f (findingsOf JSON_parse ROOT w) <-> justified l f.
Proof.
  intros Hl. unfold findingsOf. rewrite Hl. split.
  - apply validateLayout_justified.
  - apply justified_reported.
Qed.

Lemma finding_iff_cause_witness :
  justified danglingLayout (DanglingDependency "planner" "calendar").
Proof.
  assert (Hl : layoutOf (parseAmong danglingManifests) "/repo/" danglingWorld
               = Some danglingLayout) by (vm_compute; reflexivity).
  assert (Hf : In (DanglingDependency "planner" "calendar")
                 (findingsOf (parseAmong danglingManifests) "/repo/"
                    danglingWorld)) by (vm_compute; auto).
  exact (proj1 (finding_iff_cause (parseAmong danglingManifests) "/repo/"
                  danglingWorld danglingLayout
                  (DanglingDependency "planner" "calendar") Hl) Hf).
Defined.

(** X2. In a completed run, a dependency that a recorded manifest declares
    and that is not the name of a recorded component is reported as a
    dangling dependency: the finding is among the findings, its line is on
    the error stream and the status is 1. *)
Theorem dangling_dependency_flagged JSON_parse ROOT w l name manifest dep :
  layoutOf JSON_parse ROOT w = Some l ->
  In (name, manifest) (JsMap.entries (manifests l)) ->
  In dep (default [] (registryDependencies manifest)) ->
  JsMap.has dep (manifests l) = false ->
  In (DanglingDependency name dep) (findingsOf JSON_parse ROOT w)
  /\ fst (validate JSON_parse ROOT w) = 1
  /\ forall line,
       In line (render (DanglingDependency name dep)) ->
       In (Stderr, line) (console (snd (validate JSON_parse ROOT w))).
Proof.
  intros Hl Hm Hdep Hmiss. apply (finding_reported _ _ w l _ Hl).
  unfold validateLayout.
  eapply fold_In; [intros; apply checkManifest_extends| |exact Hm].
  intros r. unfold checkManifest. simpl.
  eapply fold_In; [intros; apply checkDependency_extends| |exact Hdep].
  intros r0. unfold checkDependency. rewrite Hmiss. simpl. apply In_report.
Qed.

Lemma dangling_dependency_flagged_witness :
  In (DanglingDependency "planner" "calendar")
    (findingsOf (parseAmong danglingManifests) "/repo/" danglingWorld)
  /\ fst (validate (parseAmong danglingManifests) "/repo/" danglingWorld) = 1
  /\ forall line,
       In line (render (DanglingDependency "planner" "calendar")) ->
       In (Stderr, line)
         (console
            (snd (validate (parseAmong danglingManifests) "/repo/"
                    danglingWorld))).
Proof.
  apply (dangling_dependency_flagged (parseAmong danglingManifests) "/repo/"
           danglingWorld danglingLayout "planner"
           (component "planner" "kitn:agent" ["planner.ts"]
              (Some ["calendar"]) None) "calendar").
  - vm_compute. reflexivity.
  - vm_compute. auto.
  - vm_compute. auto.
  - vm_compute. reflexivity.
Defined.

(** ** The counters of the summary *)

Section CounterFacts.
Variable layout : Layout.

Lemma checkAliasImport_counts c p r imp :
  adds 0 1 r (checkAliasImport layout c p r imp).
Proof.
  unfold adds, checkAliasImport.
  destruct (negb _); cbn [report countImport filesChecked importsChecked errors];
    lia.
Qed.

Lemma checkAliasImports_counts c p imps r :
  adds 0 (length imps) r (fold_left (checkAliasImport layout c p) imps r).
Proof.
  revert r.
  induction imps as [|imp imps IH]; intros r; cbn [fold_left length];
    [unfold adds; lia|].
  specialize (IH (checkAliasImport layout c p r imp)).
  pose proof (checkAliasImport_counts c p r imp) as Hstep.
  unfold adds in *. lia.
Qed.

Lemma checkRelativeImport_counts c p r imp :
  adds 0 1 r (checkRelativeImport layout c p r imp).
Proof.
  unfold adds, checkRelativeImport.
  destruct (_ && _); [|destruct (negb _)];
    cbn [report countImport filesChecked importsChecked errors]; lia.
Qed.

Lemma checkRelativeImports_counts c p imps r :
  adds 0 (length imps) r (fold_left (checkRelativeImport layout c p) imps r).
Proof.
  revert r.
  induction imps as [|imp imps IH]; intros r; cbn [fold_left length];
    [unfold adds; lia|].
  specialize (IH (checkRelativeImport layout c p r imp)).
  pose proof (checkRelativeImport_counts c p r imp) as Hstep.
  unfold adds in *. lia.
Qed.

Lemma checkFile_counts r e :
  adds (if isTypeScript e then 1 else 0)
       (if isTypeScript e then importsIn layout e else 0)
       r (checkFile layout r e).
Proof.
  unfold adds, checkFile, isTypeScript, importsIn. destruct e as [p c].
  simpl fst.
  destruct (String.eqb (Path.extname p) ".ts"); simpl negb; cbv iota; [|lia].
  set (source := show (JsMap.get p (fileContents layout))).
  pose proof (checkAliasImports_counts c p (extractKitnAliasImports source)
                (countFile r)) as (A1 & A2 & A3 & A4).
  pose proof (checkRelativeImports_counts c p (extractRelativeImports source)
                (fold_left (checkAliasImport layout c p)
                   (extractKitnAliasImports source) (countFile r)))
    as (B1 & B2 & B3 & B4).
  simpl in *. lia.
Qed.

Lemma checkFiles_counts es r :
  adds (length (List.filter isTypeScript es))
       (list_sum (List.map (importsIn layout) (List.filter isTypeScript es)))
       r (fold_left (checkFile layout) es r).
Proof.
  unfold adds. revert r.
  induction es as [|e es IH]; intros r; simpl; [lia|].
  specialize (IH (checkFile layout r e)).
  destruct IH as (H1 & H2 & H3 & H4).
  pose proof (checkFile_counts r e) as (C1 & C2 & C3 & C4).
  destruct (isTypeScript e); simpl; lia.
Qed.

Lemma checkDependencies_counts n deps r :
  let r' := fold_left (checkDependency layout n) deps r in
  filesChecked r' = filesChecked r
  /\ importsChecked r' = importsChecked r
  /\ errors r' <= errors r + length deps.
Proof.
  revert r. induction deps as [|d deps IH]; intros r; simpl; [lia|].
  specialize (IH (checkDependency layout n r d)). simpl in IH.
  destruct IH as (D1 & D2 & D3). rewrite D1, D2.
  unfold checkDependency in *. destruct (negb _); simpl in *; lia.
Qed.

Lemma checkManifests_counts ms r :
  let r' := fold_left (checkManifest layout) ms r in
  filesChecked r' = filesChecked r
  /\ importsChecked r' = importsChecked r
  /\ errors r'
     <= errors r
        + list_sum
            (List.map
               (fun e => length (default [] (registryDependencies (snd e))))
               ms).
Proof.
  revert r. induction ms as [|e ms IH]; intros r; simpl; [lia|].
  specialize (IH (checkManifest layout r e)). simpl in IH.
  destruct IH as (H1 & H2 & H3). rewrite H1, H2.
  pose proof (checkDependencies_counts (fst e)
                (default [] (registryDependencies (snd e))) r) as (D1 & D2 & D3).
  unfold checkManifest in *. lia.
Qed.

End CounterFacts.

(** X3. The counts of the summary line are exact: the files checked are the
    installed files with extension .ts, each once; the imports checked are
    the imports the two patterns find in their sources; and there are no
    more errors than imports checked and dependencies declared together. *)
Theorem summary_counts l :
  let r := validateLayout l in
  let checked := List.filter isTypeScript (JsMap.entries (installedFiles l)) in
  filesChecked r = length checked
  /\ importsChecked r = list_sum (List.map (importsIn l) checked)
  /\ errors r <= importsChecked r + declaredDependencies l.
Proof.
  unfold validateLayout, declaredDependencies.
  pose proof (checkFiles_counts l (JsMap.entries (installedFiles l))
                emptyReport) as (F1 & F2 & F3 & F4).
  pose proof (checkManifests_counts l (JsMap.entries (manifests l))
                (fold_left (checkFile l) (JsMap.entries (installedFiles l))
                   emptyReport)) as (M1 & M2 & M3).
  simpl in *. lia.
Qed.

(** ** The maps of phase 1 *)

Section MapFacts.
Context {V : Type}.

Lemma keys_set k (v : V) m :
  keys (JsMap.set k v m)
  = if JsMap.has k m then keys m else keys m ++ [k].
Proof.
  unfold keys, JsMap.has. induction m as [|[k' v'] m IH]; simpl; [reflexivity|].
  destruct (String.eqb_spec k k') as [->|Hne]; simpl; [reflexivity|].
  rewrite IH. now destruct (JsMap.get k m).
Qed.

Lemma has_keys k (m : JsMap.t V) : JsMap.has k m = true <-> In k (keys m).
Proof.
  unfold keys, JsMap.has. induction m as [|[k' v'] m IH]; simpl.
  - split; [discriminate|tauto].
  - destruct (String.eqb_spec k k') as [->|Hne]; [tauto|].
    rewrite IH. intuition congruence.
Qed.

Lemma NoDup_keys_set k (v : V) m :
  NoDup (keys m) -> NoDup (keys (JsMap.set k v m)).
Proof.
  intros H. rewrite keys_set. destruct (JsMap.has k m) eqn:E; [exact H|].
  apply NoDup_app. split; [exact H|]. split; [|repeat constructor; easy].
  intros x Hx Hk. apply list_elem_of_In in Hx, Hk.
  destruct Hk as [<-|[]]. apply has_keys in Hx. congruence.
Qed.

Lemma get_set_same k (v : V) m : JsMap.get k (JsMap.set k v m) = Some v.
Proof.
  induction m as [|[k' v'] m IH]; simpl.
  - now rewrite String.eqb_refl.
  - destruct (String.eqb_spec k k') as [->|Hne]; simpl.
    + now rewrite String.eqb_refl.
    + destruct (String.eqb_spec k k'); [congruence|exact IH].
Qed.

Lemma get_set_other k (v : V) m k' :
  k' <> k -> JsMap.get k' (JsMap.set k v m) = JsMap.get k' m.
Proof.
  intros Hne. induction m as [|[k0 v0] m IH]; simpl.
  - destruct (String.eqb_spec k' k); [congruence|reflexivity].
  - destruct (String.eqb_spec k k0) as [->|Hk]; simpl.
    + destruct (String.eqb_spec k' k0); [congruence|reflexivity].
    + destruct (String.eqb_spec k' k0); [reflexivity|exact IH].
Qed.

Lemma get_In k (v : V) m : JsMap.get k m = Some v -> In (k, v) m.
Proof.
  induction m as [|[k' v'] m IH]; simpl; [discriminate|].
  destruct (String.eqb_spec k k') as [->|Hne]; [intros [= ->]; now left|].
  auto.
Qed.

Lemma In_get k (v : V) m : NoDup (keys m) -> In (k, v) m -> JsMap.get k m = Some v.
Proof.
  unfold keys. induction m as [|[k' v'] m IH]; simpl; [tauto|].
  intros Hnd [Heq|Hin].
  - injection Heq as -> ->. now rewrite String.eqb_refl.
  - apply NoDup_cons in Hnd as [Hnotin Hnd].
    destruct (String.eqb_spec k k') as [->|Hne]; [|auto].
    exfalso. apply Hnotin. apply list_elem_of_In.
    apply (List.in_map fst) in Hin. exact Hin.
Qed.

End MapFacts.

Lemma has_same_keys {V W} (m : JsMap.t V) (m' : JsMap.t W) k :
  keys m = keys m' -> JsMap.has k m = JsMap.has k m'.
Proof.
  intros E. destruct (JsMap.has k m) eqn:H1, (JsMap.has k m') eqn:H2; auto.
  - apply has_keys in H1. rewrite E in H1. apply has_keys in H1. congruence.
  - apply has_keys in H2. rewrite <- E in H2. apply has_keys in H2. congruence.
Qed.

Lemma buildLayout_coherent JSON_parse ROOT :
  ensures coherent (buildLayout JSON_parse ROOT).
Proof.
  apply ensures_foldM.
  2:{ repeat split; try constructor. intros n m []. }
  intros l typeDir Hl. unfold scanTypeDir.
  apply (ensures_bind (fun _ => True)); [easy|]. intros [entries|] _;
    [|intros w l' E; injection E as <-; exact Hl].
  apply ensures_foldM; [|exact Hl]. clear l Hl.
  intros l entry Hl. unfold scanEntry.
  apply (ensures_bind (fun _ => True)); [easy|]. intros [raw|] _;
    [|intros w l' E; injection E as <-; exact Hl].
  apply (ensures_bind (fun _ => True)); [easy|]. intros manifest _.
  destruct (files manifest) as [fileNames|]; [|intros w l' E; discriminate].
  apply ensures_foldM.
  2:{ destruct Hl as (H1 & H2 & H3 & H4). repeat split; simpl; auto.
      - now apply NoDup_keys_set.
      - intros n m Hin. apply JsMapFacts.set_In in Hin as [Hin|Hin]; auto.
        now injection Hin as -> ->. }
  intros l0 fileName (H1 & H2 & H3 & H4). unfold recordFile.
  apply (ensures_bind (fun _ => True)); [easy|]. intros source _.
  intros w0 l' E. injection E as <-. repeat split; simpl; auto.
  - rewrite !keys_set, (has_same_keys _ (fileContents l0) _ H1), H1.
    reflexivity.
  - now apply NoDup_keys_set.
Qed.

(** X4. The three maps of a completed scan agree: the installed files and
    their sources have the same keys in the same order, without
    repetition, so every installed path is checked once and the two
    non-null assertions of the checks never meet a missing entry: each
    installed path has its source, and its owner has its manifest, recorded
    under the owner's name. *)
Theorem layout_coherent JSON_parse ROOT w l :
  layoutOf JSON_parse ROOT w = Some l ->
  coherent l
  /\ forall installedPath componentName,
       In (installedPath, componentName) (JsMap.entries (installedFiles l)) ->
       JsMap.get installedPath (installedFiles l) = Some componentName
       /\ (exists source, JsMap.get installedPath (fileContents l) = Some source)
       /\ exists manifest,
            JsMap.get componentName (manifests l) = Some manifest
            /\ name manifest = componentName.
Proof.
  intros Hl.
  assert (E : fst (buildLayout JSON_parse ROOT w) = Ok l).
  { unfold layoutOf in Hl.
    destruct (buildLayout JSON_parse ROOT w) as [[l0|e] w0]; simpl; congruence. }
  pose proof (buildLayout_coherent JSON_parse ROOT w l E) as Hc.
  pose proof (buildLayout_owned JSON_parse ROOT w l Hl) as Ho.
  split; [exact Hc|]. destruct Hc as (H1 & H2 & H3 & H4).
  intros p c Hin. split; [now apply In_get|]. split.
  - assert (Hk : JsMap.has p (fileContents l) = true).
    { rewrite <- (has_same_keys _ _ _ H1). apply has_keys.
      apply (List.in_map fst) in Hin. exact Hin. }
    unfold JsMap.has in Hk.
    destruct (JsMap.get p (fileContents l)) as [source|]; [eauto|discriminate].
  - specialize (Ho p c Hin). unfold JsMap.has in Ho.
    destruct (JsMap.get c (manifests l)) as [m|] eqn:Em; [|discriminate].
    exists m. split; [reflexivity|]. apply H4. now apply get_In.
Qed.

Lemma layout_coherent_witness :
  coherent danglingLayout
  /\ JsMap.get "agents/planner.ts" (installedFiles danglingLayout)
     = Some "planner".
Proof.
  destruct (layout_coherent (parseAmong danglingManifests) "/repo/"
              danglingWorld danglingLayout) as [Hc Hall].
  - vm_compute. reflexivity.
  - split; [exact Hc|].
    apply (Hall "agents/planner.ts" "planner"). clear. vm_compute. auto.
Defined.

(** ** Runs of the validator that end early *)

(** A loop whose steps leave the world alone stops at a step that throws
    whatever the state. *)
Lemma foldM_throws {A S} (body : S -> A -> M S) l x w :
  (forall s a, snd (body s a w) = w) ->
  (forall s, exists e, fst (body s x w) = Throw e) ->
  In x l ->
  forall s, exists e, fst (foldM body l s w) = Throw e.
Proof.
  intros Hsame Hx. induction l as [|a l IH]; intros Hin s; [destruct Hin|].
  simpl. unfold mbind, M_bind.
  pose proof (Hsame s a) as Hw.
  destruct (body s a w) as [[s'|e] w0] eqn:E; simpl in Hw; subst w0.
  - destruct Hin as [->|Hin]; [|now apply IH].
    destruct (Hx s) as [e He]. rewrite E in He. discriminate.
  - simpl. eauto.
Qed.

Section EarlyEnd.
Variable JSON_parse : string -> option ComponentManifest.
Variable ROOT : string.

Lemma recordFile_same dir entry manifest installDir l fileName w :
  snd (recordFile dir entry manifest installDir l fileName w) = w.
Proof.
  unfold recordFile, mbind, M_bind, readFile.
  now destruct (fs_files (fs w) !! _).
Qed.

Lemma scanEntry_same dir l entry w :
  snd (scanEntry JSON_parse dir l entry w) = w.
Proof.
  revert w. fold (keeps (fun w1 w2 => w2 = w1) (scanEntry JSON_parse dir l entry)).
  unfold scanEntry.
  apply keeps_bind; [congruence| |].
  - apply keeps_tryCatch; [congruence| |intros; now apply keeps_ret].
    apply keeps_fmap. intros w0. apply readFile_same.
  - intros [raw|]; [|now apply keeps_ret].
    apply keeps_bind; [congruence| |].
    { unfold parseManifest. destruct (JSON_parse raw);
        [now apply keeps_ret|now apply keeps_throw]. }
    intros manifest. destruct (files manifest); [|now apply keeps_throw].
    apply keeps_foldM; [auto|congruence|]. intros l' fileName w0.
    apply recordFile_same.
Qed.

Lemma scanTypeDir_same l typeDir w :
  snd (scanTypeDir JSON_parse ROOT l typeDir w) = w.
Proof.
  revert w.
  fold (keeps (fun w1 w2 => w2 = w1) (scanTypeDir JSON_parse ROOT l typeDir)).
  unfold scanTypeDir.
  apply keeps_bind; [congruence| |].
  - apply keeps_tryCatch; [congruence| |intros; now apply keeps_ret].
    apply keeps_fmap. intros w0. apply readdir_same.
  - intros [es|]; [|now apply keeps_ret].
    apply keeps_foldM; [auto|congruence|]. intros l' en w0.
    apply scanEntry_same.
Qed.

Lemma scanEntry_broken w dir entry l :
  brokenEntry JSON_parse w dir entry ->
  exists e, fst (scanEntry JSON_parse dir l entry w) = Throw e.
Proof.
  intros (raw & Hraw & Hbad).
  unfold scanEntry, mbind at 1, M_bind at 1, tryCatch, fmap, M_fmap, readFile.
  rewrite Hraw. simpl.
  unfold parseManifest, mbind, M_bind.
  destruct (JSON_parse raw) as [manifest|]; [|simpl; eauto].
  simpl. destruct (files manifest) as [fileNames|]; [|simpl; eauto].
  destruct Hbad as (fileName & Hin & Hnone).
  apply foldM_throws with (x := fileName); [| |exact Hin].
  - intros. apply recordFile_same.
  - intros s. unfold recordFile, mbind, M_bind, readFile. rewrite Hnone.
    simpl. eauto.
Qed.

Lemma buildLayout_broken w typeDir entries entry :
  In typeDir typeDirs ->
  fs_dirs (fs w) !! Path.join [COMPONENTS_DIR ROOT; typeDir] = Some entries ->
  In entry entries ->
  brokenEntry JSON_parse w (Path.join [COMPONENTS_DIR ROOT; typeDir]) entry ->
  layoutOf JSON_parse ROOT w = None.
Proof.
  intros Htype Hdir Hentry Hbroken. unfold layoutOf.
  destruct (foldM_throws (scanTypeDir JSON_parse ROOT) typeDirs typeDir w)
    with (s := emptyLayout) as [e He]; [| |exact Htype|].
  - intros s a. apply scanTypeDir_same.
  - intros s. unfold scanTypeDir, mbind, M_bind, tryCatch, fmap, M_fmap,
      readdir. rewrite Hdir. simpl.
    apply foldM_throws with (x := entry); [| |exact Hentry].
    + intros. apply scanEntry_same.
    + intros l. now apply scanEntry_broken.
  - unfold buildLayout.
    destruct (foldM (scanTypeDir JSON_parse ROOT) typeDirs emptyLayout w)
      as [[l|e'] w']; simpl in He; [discriminate|reflexivity].
Qed.

End EarlyEnd.

(** X5. One broken component aborts the whole validation: when some type
    directory lists an entry whose manifest does not parse, or has no list
    of files, or declares a file that cannot be read, the run ends with
    status 1 before any check is made. It reports no finding, whatever the
    other components contain, and prints the exception alone. *)
Theorem broken_component_aborts_validation JSON_parse ROOT w typeDir entries
    entry :
  In typeDir typeDirs ->
  fs_dirs (fs w) !! Path.join [COMPONENTS_DIR ROOT; typeDir] = Some entries ->
  In entry entries ->
  brokenEntry JSON_parse w (Path.join [COMPONENTS_DIR ROOT; typeDir]) entry ->
  fst (validate JSON_parse ROOT w) = 1
  /\ findingsOf JSON_parse ROOT w = []
  /\ exists err,
       console (snd (validate JSON_parse ROOT w))
       = console w ++ [(Stderr, showExn err)].
Proof.
  intros Htype Hdir Hentry Hbroken.
  pose proof (buildLayout_broken JSON_parse ROOT w typeDir entries entry
                Htype Hdir Hentry Hbroken) as Hl.
  destruct (validate_aborted _ _ _ Hl) as (err & _ & ->). simpl.
  split; [reflexivity|]. split; [unfold findingsOf; now rewrite Hl|].
  now exists err.
Qed.

Lemma broken_component_aborts_validation_witness :
  In "../agents/y.js" (extractRelativeImports crossTypeSource)
  /\ fst (validate (parseAmong hiddenManifests) "/repo/" hiddenWorld) = 1
  /\ findingsOf (parseAmong hiddenManifests) "/repo/" hiddenWorld = [].
Proof.
  split; [vm_compute; auto|].
  destruct (broken_component_aborts_validation (parseAmong hiddenManifests)
              "/repo/" hiddenWorld "tools" ["x"; "broken"] "broken")
    as (H1 & H2 & _).
  - vm_compute. auto.
  - vm_compute. reflexivity.
  - vm_compute. auto.
  - exists (manifestText (component "broken" "kitn:tool" ["gone.ts"] None None)).
    split; [vm_compute; reflexivity|].
    vm_compute. exists "gone.ts". split; [auto|reflexivity].
  - split; [exact H1|exact H2].
Defined.

(** X6. When none of the four type directories can be listed, for
    instance because the root is wrong, the validator does not fail: it
    checks nothing, prints a summary of zero files, imports and components
    and the line of success, and ends with status 0. *)
Theorem nothing_to_scan_passes JSON_parse ROOT w :
  (forall typeDir,
     In typeDir typeDirs ->
     fs_dirs (fs w) !! Path.join [COMPONENTS_DIR ROOT; typeDir] = None) ->
  validate JSON_parse ROOT w
  = (0,
     {| fs := fs w;
        console :=
          console w
            ++ [ (Stdout,
                  Str.nl +:+ "Validated 0 files, 0 imports, 0 components");
                 (Stdout, successLine) ] |}).
Proof.
  intros Hnone.
  assert (Hl : layoutOf JSON_parse ROOT w = Some emptyLayout).
  { unfold layoutOf, buildLayout.
    assert (H : forall dirs l,
               (forall d, In d dirs -> In d typeDirs) ->
               foldM (scanTypeDir JSON_parse ROOT) dirs l w = (Ok l, w)).
    { induction dirs as [|d dirs IH]; intros l Hsub; [reflexivity|].
      simpl. unfold mbind at 1. unfold M_bind at 1.
      assert (E : scanTypeDir JSON_parse ROOT l d w = (Ok l, w)).
      { unfold scanTypeDir, mbind, M_bind, tryCatch, fmap, M_fmap, readdir.
        rewrite (Hnone d); [reflexivity|]. apply Hsub. now left. }
      rewrite E. apply IH. intros d' Hd'. apply Hsub. now right. }
    now rewrite H. }
  rewrite (validate_completed _ _ _ _ Hl). reflexivity.
Qed.

Lemma nothing_to_scan_passes_witness :
  fst (validate exampleParse "/elsewhere/" crossTypeWorld) = 0.
Proof.
  rewrite (nothing_to_scan_passes exampleParse "/elsewhere/" crossTypeWorld);
    [reflexivity|].
  intros typeDir Hin. vm_compute in Hin.
  destruct Hin as [<-|[<-|[<-|[<-|[]]]]]; vm_compute; reflexivity.
Defined.

(** ** One component through the builder *)

(** ** When [buildRegistryItem] fails *)

Lemma each_item_rejects item l :
  Exists (fun x => exists e, Zod.parse item x = inr e) l ->
  forall i, exists e, Zod.each_item Zod.parse item i l = inr e.
Proof.
  induction 1 as [x l [e He]|x l _ IH]; intros i; cbn [Zod.each_item].
  - rewrite He. cbn. eauto.
  - destruct (Zod.under _ (Zod.parse item x)) as [x'|e]; [|eauto].
    destruct (IH (S i)) as [e ->]. eauto.
Qed.

Lemma each_key_rejects input shape k sk e :
  In (k, sk) shape ->
  Zod.parse sk (field k (VObj input)) = inr e ->
  exists e', Zod.each_key Zod.parse input shape = inr e'.
Proof.
  intros Hin He. induction shape as [|[k0 sk0] shape IH]; [easy|].
  cbn [Zod.each_key].
  destruct Hin as [E|Hin].
  - injection E as -> ->. rewrite He. cbn. eauto.
  - destruct (Zod.under _ (Zod.parse sk0 _)) as [x'|e0]; [|eauto].
    destruct (IH Hin) as [e' ->]. eauto.
Qed.

Lemma changelog_rejected l :
  forallb validChangelogEntry l = false ->
  exists e,
    Zod.parse (Zod.optional (Zod.array changelogEntrySchema))
      (VArr (List.map vchangelog l)) = inr e.
Proof.
  intros H. cbn [Zod.parse].
  destruct (each_item_rejects changelogEntrySchema (List.map vchangelog l))
    with (i := 0) as [e ->]; [|cbn; eauto].
  induction l as [|c l IH]; [discriminate|].
  cbn [forallb] in H. apply andb_false_iff in H as [H|H].
  - left. unfold validChangelogEntry in H.
    unfold changelogEntrySchema, vchangelog.
    cbn [Zod.parse Zod.each_key Zod.lift Zod.under field assoc String.eqb
         Ascii.eqb Bool.eqb].
    rewrite H. eauto.
  - right. auto.
Qed.

Lemma buildRegistryItem_bad_type now m fc fileNames :
  files m = Some fileNames ->
  existsb (String.eqb (type_ m))
    ["kitn:agent"; "kitn:tool"; "kitn:skill"; "kitn:storage"] = false ->
  buildRegistryItem now m fc
  = Throw (ZodError {| Zod.at_path := ["type"]; Zod.expected := "enum" |}).
Proof.
  intros Hfiles H. unfold buildRegistryItem. rewrite Hfiles.
  unfold registryItemSchema.
  cbn [Zod.parse Zod.each_key Zod.lift Zod.under field assoc String.eqb
       Ascii.eqb Bool.eqb componentType].
  rewrite H. reflexivity.
Qed.

Lemma buildRegistryItem_illtyped now m fc fileNames :
  files m = Some fileNames ->
  wellTyped m = false ->
  exists i, buildRegistryItem now m fc = Throw (ZodError i).
Proof.
  intros Hfiles H. unfold wellTyped in H.
  apply andb_false_iff in H as [H|H].
  - eexists. apply (buildRegistryItem_bad_type now m fc fileNames Hfiles H).
  - destruct (changelog m) as [l|] eqn:Hl; [|discriminate]. cbn in H.
    apply changelog_rejected in H as [e He].
    unfold buildRegistryItem. rewrite Hfiles.
    match goal with
    | |- context [Zod.parse registryItemSchema (VObj ?input)] =>
        destruct (each_key_rejects input (shapeOf registryItemSchema)
                    "changelog"
                    (Zod.optional (Zod.array changelogEntrySchema)) e)
          as [e' He']
    end.
    + cbn. auto 20.
    + rewrite Hl. exact He.
    + unfold registryItemSchema in *. cbn [shapeOf] in He'.
      cbn [Zod.parse]. rewrite He'. cbn. eauto.
Qed.

Lemma forallb_first_false {A} (p : A -> bool) l :
  forallb p l = false ->
  exists pre x post,
    l = pre ++ x :: post /\ forallb p pre = true /\ p x = false.
Proof.
  induction l as [|a l IH]; [discriminate|]. cbn [forallb].
  destruct (p a) eqn:Ea.
  - intros H. destruct (IH H) as (pre & x & post & -> & Hpre & Hx).
    exists (a :: pre), x, post. cbn [forallb]. now rewrite Ea.
  - intros _. now exists [], a, l.
Qed.

(** A declared name that reads as an inherited member makes
    [buildRegistryItem] throw, whatever the manifest. *)
Lemma buildRegistryItem_not_plain now m fc fileNames :
  files m = Some fileNames ->
  forallb (plain fc) fileNames = false ->
  exists i, buildRegistryItem now m fc = Throw (ZodError i).
Proof.
  intros Hfiles H. destruct (wellTyped m) eqn:Hm.
  - apply forallb_first_false in H as (pre & x & post & -> & Hpre & Hx).
    eexists.
    apply (buildRegistryItem_inherited now m fc pre x post Hm Hfiles Hpre Hx).
  - now apply (buildRegistryItem_illtyped now m fc fileNames).
Qed.

Lemma buildRegistryItem_Ok_plain now m fc fileNames item :
  files m = Some fileNames ->
  buildRegistryItem now m fc = Ok item ->
  forallb (plain fc) fileNames = true.
Proof.
  intros Hfiles Hitem. destruct (forallb (plain fc) fileNames) eqn:E;
    [reflexivity|].
  destruct (buildRegistryItem_not_plain now m fc fileNames Hfiles E) as [i Hi].
  congruence.
Qed.

(** X14. With a list of files, [buildRegistryItem] returns an item exactly
    when the manifest is one of the interface and every declared name
    reads from [fileContents] as a text or as nothing. When the type is
    not one of the four component types, or a changelog entry has a type
    outside its enumeration, or a declared name without an entry is the
    name of an inherited member, the schema rejects the object and the
    function throws. For a type without a directory the issue is the type
    itself, so no path made of an undefined directory is ever returned. *)
Theorem buildRegistryItem_outcome now m fc fileNames :
  files m = Some fileNames ->
  (wellTyped m = true ->
   forallb (plain fc) fileNames = true ->
   exists item, buildRegistryItem now m fc = Ok item)
  /\ (wellTyped m = false ->
      exists i, buildRegistryItem now m fc = Throw (ZodError i))
  /\ (forallb (plain fc) fileNames = false ->
      exists i, buildRegistryItem now m fc = Throw (ZodError i))
  /\ (typeToDir (type_ m) = None ->
      buildRegistryItem now m fc
      = Throw (ZodError {| Zod.at_path := ["type"]; Zod.expected := "enum" |})).
Proof.
  intros Hfiles. split; [|split; [|split]].
  - intros H Hp. eexists.
    apply (buildRegistryItem_ok now m fc fileNames H Hfiles Hp).
  - now apply (buildRegistryItem_illtyped now m fc fileNames).
  - now apply (buildRegistryItem_not_plain now m fc fileNames).
  - intros H. apply (buildRegistryItem_bad_type now m fc fileNames Hfiles).
    revert H. unfold typeToDir.
    cbn [assoc typeToDir_table existsb].
    destruct (String.eqb (type_ m) "kitn:agent"); [discriminate|].
    destruct (String.eqb (type_ m) "kitn:tool"); [discriminate|].
    destruct (String.eqb (type_ m) "kitn:skill"); [discriminate|].
    destruct (String.eqb (type_ m) "kitn:storage"); [discriminate|].
    reflexivity.
Qed.

Lemma buildRegistryItem_outcome_witness :
  (exists item,
      buildRegistryItem "2026-01-01T00:00:00.000Z"
        (component "gadget" "kitn:tool" ["gadget.ts"] None None) ∅
      = Ok item)
  /\ (exists i,
        buildRegistryItem "2026-01-01T00:00:00.000Z"
          (component "gadget" "kitn:tool" ["valueOf"] None None) ∅
        = Throw (ZodError i))
  /\ buildRegistryItem "2026-01-01T00:00:00.000Z"
       (component "gadget" "kitn:widget" ["gadget.ts"] None None) ∅
     = Throw (ZodError {| Zod.at_path := ["type"]; Zod.expected := "enum" |}).
Proof.
  split; [|split].
  - apply (proj1 (buildRegistryItem_outcome "2026-01-01T00:00:00.000Z"
                    (component "gadget" "kitn:tool" ["gadget.ts"] None None)
                    ∅ ["gadget.ts"] eq_refl));
      vm_compute; reflexivity.
  - apply (proj1 (proj2 (proj2
             (buildRegistryItem_outcome "2026-01-01T00:00:00.000Z"
                (component "gadget" "kitn:tool" ["valueOf"] None None)
                ∅ ["valueOf"] eq_refl))));
      vm_compute; reflexivity.
  - apply (proj2 (proj2 (proj2
             (buildRegistryItem_outcome "2026-01-01T00:00:00.000Z"
                (component "gadget" "kitn:widget" ["gadget.ts"] None None)
                ∅ ["gadget.ts"] eq_refl))));
      vm_compute; reflexivity.
Defined.

Lemma bind_Ok {A B} (m : M A) (f : A -> M B) w b w' :
  (m ≫= f) w = (Ok b, w') ->
  exists a w1, m w = (Ok a, w1) /\ f a w1 = (Ok b, w').
Proof.
  unfold mbind, M_bind. destruct (m w) as [[a|e] w1]; [eauto|discriminate].
Qed.

Lemma writeFile_Ok path text w w' :
  writeFile path text w = (Ok tt, w') ->
  fs_files (fs w') = <[path := text]> (fs_files (fs w))
  /\ console w' = console w.
Proof.
  unfold writeFile.
  destruct (fs_dirs (fs w) !! Path.dirname path); [|discriminate].
  destruct (fs_dirs (fs w) !! path); [discriminate|].
  intros H. injection H as <-. now split.
Qed.

Lemma readSources_same componentDir manifest w :
  snd (readSources componentDir manifest w) = w.
Proof.
  revert w.
  fold (keeps (fun w1 w2 => w2 = w1) (readSources componentDir manifest)).
  unfold readSources. destruct (files manifest); [|now apply keeps_throw].
  apply keeps_foldM; [auto|congruence|]. intros fc fileName.
  apply keeps_bind; [congruence| |intros; now apply keeps_ret].
  intros w. apply readFile_same.
Qed.

Section BuildFacts.
Variable JSON_parse : string -> option ComponentManifest.
Variable JSON_stringify : value -> string.
Variable localeCompare : string -> string -> Z.
Variable ROOT : string.
Variable now : string.

(** The dictionary the builder fills holds, for every declared file but
    one named [__proto__], the text of that file, and nothing else; every
    declared file was read. *)
Lemma readSources_Ok componentDir manifest w fc w' :
  readSources componentDir manifest w = (Ok fc, w') ->
  w' = w
  /\ exists fileNames,
       files manifest = Some fileNames
       /\ (forall fileName,
             In fileName fileNames ->
             is_Some (fs_files (fs w) !! Path.join [componentDir; fileName])
             /\ (fileName <> "__proto__" ->
                 fc !! fileName
                 = fs_files (fs w) !! Path.join [componentDir; fileName]))
       /\ (forall fileName, ~ In fileName fileNames -> fc !! fileName = None)
       /\ fc !! "__proto__" = None.
Proof.
  unfold readSources. destruct (files manifest) as [fileNames|]; [|discriminate].
  intros H.
  assert (G : forall l (acc : gmap string string) fc0 w0,
             foldM
               (fun (fileContents : gmap string string) fileName =>
                  text ← readFile (Path.join [componentDir; fileName]);
                  mret (PlainObject.set fileName text fileContents)) l acc w
             = (Ok fc0, w0) ->
             w0 = w
             /\ (forall f, In f l ->
                   is_Some (fs_files (fs w) !! Path.join [componentDir; f])
                   /\ (f <> "__proto__" ->
                       fc0 !! f
                       = fs_files (fs w) !! Path.join [componentDir; f]))
             /\ (forall f, ~ In f l -> fc0 !! f = acc !! f)
             /\ fc0 !! "__proto__" = acc !! "__proto__").
  { induction l as [|x l IH]; intros acc fc0 w0 E; simpl in E.
    - injection E as <- <-. split; [reflexivity|].
      split; [intros g []|]. split; reflexivity.
    - apply bind_Ok in E as (acc' & w1 & E1 & E2).
      apply bind_Ok in E1 as (text & w2 & R & E1).
      injection E1 as <- <-.
      unfold readFile in R.
      destruct (fs_files (fs w) !! Path.join [componentDir; x]) as [t|] eqn:Ex;
        [|discriminate].
      injection R as <- <-.
      apply IH in E2 as (-> & Hin & Hout & Hproto). split; [reflexivity|].
      unfold PlainObject.set in Hout, Hproto.
      split; [|split].
      + intros f [<-|Hf]; [|now apply Hin].
        split; [rewrite Ex; eauto|]. intros Hne.
        destruct (in_dec String.string_dec x l) as [Hx|Hx];
          [now apply Hin|].
        rewrite (Hout x Hx).
        destruct (String.eqb_spec x "__proto__") as [->|_]; [easy|].
        now rewrite lookup_insert_eq, Ex.
      + intros f Hf. rewrite Hout by (intros Hf'; apply Hf; now right).
        destruct (String.eqb x "__proto__"); [reflexivity|].
        apply lookup_insert_ne. intros ->. apply Hf. now left.
      + rewrite Hproto.
        destruct (String.eqb_spec x "__proto__") as [->|Hne]; [reflexivity|].
        now apply lookup_insert_ne. }
  apply G in H as (-> & Hin & Hout & Hproto). split; [reflexivity|].
  exists fileNames. split; [reflexivity|]. split; [exact Hin|].
  split; [|rewrite Hproto; apply lookup_empty].
  intros f Hf. rewrite (Hout f Hf). apply lookup_empty.
Qed.

(** What was read is what the item is made of: when the item is built, no
    declared file is named [__proto__], and every declared file has its
    text in the dictionary. *)
Lemma readSources_built componentDir manifest w fc w' item :
  readSources componentDir manifest w = (Ok fc, w') ->
  buildRegistryItem now manifest fc = Ok item ->
  exists fileNames,
    files manifest = Some fileNames
    /\ forall fileName,
         In fileName fileNames ->
         is_Some (fc !! fileName)
         /\ fc !! fileName
            = fs_files (fs w) !! Path.join [componentDir; fileName].
Proof.
  intros Hread Hitem.
  apply readSources_Ok in Hread
    as (_ & fileNames & Hfiles & Hin & _ & Hproto).
  exists fileNames. split; [exact Hfiles|]. intros f Hf.
  pose proof (buildRegistryItem_Ok_plain now manifest fc fileNames item
                Hfiles Hitem) as Hplain.
  rewrite forallb_forall in Hplain.
  destruct (Hin f Hf) as [Hsome Heq].
  assert (Hne : f <> "__proto__").
  { intros ->. specialize (Hplain "__proto__" Hf). unfold plain in Hplain.
    rewrite Hproto in Hplain. discriminate. }
  rewrite (Heq Hne). split; [exact Hsome|reflexivity].
Qed.

(** The steps of [buildEntry] on an entry with a manifest, when it
    succeeds. *)
Lemma buildEntry_steps typeDir dir st entry w st' w' raw manifest :
  fs_files (fs w) !! Path.join [Path.join [dir; entry]; "manifest.json"]
  = Some raw ->
  JSON_parse raw = Some manifest ->
  buildEntry JSON_parse JSON_stringify localeCompare ROOT now typeDir dir st entry w
  = (Ok st', w') ->
  let outDir := Path.join [OUTPUT_DIR ROOT; typeDir] in
  let snapshot :=
    versionedPath outDir (name manifest)
      (orDefault (version manifest) "1.0.0") in
  exists fc item w2 w3 line listing,
    readSources (Path.join [dir; entry]) manifest w = (Ok fc, w)
    /\ buildRegistryItem now manifest fc = Ok item
    /\ writeFile (latestPath outDir (name manifest))
         (JSON_stringify item +:+ Str.nl) (snd (mkdir_recursive outDir w))
       = (Ok tt, w2)
    /\ fs w3 = fs w2
    /\ tryCatch (access snapshot)
         (fun _ =>
            writeFile snapshot (JSON_stringify item +:+ Str.nl);;
            console_log line) w3
       = (Ok tt, w')
    /\ readdir outDir w' = (Ok listing, w')
    /\ st'
       = {| allItems := allItems st ++ [item];
            existingVersions :=
              JsMap.set (name manifest)
                (collectVersions localeCompare (name manifest) listing)
                (existingVersions st) |}.
Proof.
  intros Hraw Hparse H outDir snapshot. unfold buildEntry in H.
  apply bind_Ok in H as (mr & w1 & E1 & H).
  assert (mr = Some raw /\ w1 = w) as [-> ->].
  { unfold tryCatch, fmap, M_fmap, readFile in E1. rewrite Hraw in E1.
    now injection E1 as <- <-. }
  clear E1. unfold parseManifest in H. rewrite Hparse in H.
  apply bind_Ok in H as (m & w1 & E1 & H). injection E1 as <- <-.
  apply bind_Ok in H as (fc & w1 & E1 & H).
  assert (w1 = w) as ->.
  { pose proof (readSources_same (Path.join [dir; entry]) manifest w) as Hw.
    now rewrite E1 in Hw. }
  apply bind_Ok in H as (item & w1 & Eitem & H).
  assert (buildRegistryItem now manifest fc = Ok item /\ w1 = w) as [Hitem ->].
  { now injection Eitem as -> <-. }
  clear Eitem.
  apply bind_Ok in H as ([] & w1 & Emk & H).
  assert (w1 = snd (mkdir_recursive (Path.join [OUTPUT_DIR ROOT; typeDir]) w))
    as -> by now rewrite Emk.
  clear Emk.
  apply bind_Ok in H as ([] & w2 & E2 & H).
  apply bind_Ok in H as ([] & w3 & E3 & H).
  apply bind_Ok in H as ([] & w4 & E4 & H).
  apply bind_Ok in H as (listing & w5 & E5 & H).
  injection H as <- <-.
  assert (w5 = w4) as ->.
  { pose proof (readdir_same (Path.join [OUTPUT_DIR ROOT; typeDir]) w4) as Hw.
    now rewrite E5 in Hw. }
  exists fc, item, w2, w3. eexists. exists listing.
  split; [exact E1|]. split; [exact Hitem|]. split; [exact E2|].
  split; [unfold console_log, print in E3; now injection E3 as <-|].
  split; [exact E4|]. split; [exact E5|reflexivity].
Qed.

(** X7. When the step of the builder for a directory entry with a manifest
    succeeds, the files it declares were all read and the item was made of
    their texts; the latest file of the component holds that item;
    something is at the path of its snapshot; the item is the last of the
    items built; and the versions recorded for the component are those the
    output directory lists. *)
Theorem component_built typeDir dir st entry w st' w' raw manifest :
  fs_files (fs w) !! Path.join [Path.join [dir; entry]; "manifest.json"]
  = Some raw ->
  JSON_parse raw = Some manifest ->
  buildEntry JSON_parse JSON_stringify localeCompare ROOT now typeDir dir st entry w
  = (Ok st', w') ->
  let outDir := Path.join [OUTPUT_DIR ROOT; typeDir] in
  let snapshot :=
    versionedPath outDir (name manifest)
      (orDefault (version manifest) "1.0.0") in
  exists fileNames fc item listing,
    files manifest = Some fileNames
    /\ (forall fileName,
          In fileName fileNames ->
          is_Some (fc !! fileName)
          /\ fc !! fileName
             = fs_files (fs w) !! Path.join [Path.join [dir; entry]; fileName])
    /\ buildRegistryItem now manifest fc = Ok item
    /\ fs_files (fs w') !! latestPath outDir (name manifest)
       = Some (JSON_stringify item +:+ Str.nl)
    /\ (is_Some (fs_files (fs w') !! snapshot)
        \/ is_Some (fs_dirs (fs w') !! snapshot))
    /\ fs_dirs (fs w') !! outDir = Some listing
    /\ allItems st' = allItems st ++ [item]
    /\ JsMap.get (name manifest) (existingVersions st')
       = Some (collectVersions localeCompare (name manifest) listing).
Proof.
  intros Hraw Hparse H outDir snapshot.
  destruct (buildEntry_steps typeDir dir st entry w st' w' raw manifest
              Hraw Hparse H)
    as (fc & item & w2 & w3 & line & listing & Hread & Hitem & Hlatest & Hfs
        & Hsnap & Hlist & ->).
  fold outDir in Hlatest, Hsnap, Hlist. fold snapshot in Hsnap.
  destruct (readSources_built _ _ _ _ _ _ Hread Hitem)
    as (fileNames & Hfiles & Hin).
  apply writeFile_Ok in Hlatest as [Hlatest _].
  exists fileNames, fc, item, listing.
  split; [exact Hfiles|]. split; [exact Hin|]. split; [exact Hitem|].
  assert (Hafter :
            fs_files (fs w') !! latestPath outDir (name manifest)
            = Some (JSON_stringify item +:+ Str.nl)
            /\ (is_Some (fs_files (fs w') !! snapshot)
                \/ is_Some (fs_dirs (fs w') !! snapshot))).
  { unfold tryCatch, access in Hsnap. rewrite Hfs in Hsnap.
    destruct (fs_files (fs w2) !! snapshot) as [old|] eqn:F1.
    - (* the snapshot is there: nothing is written *)
      injection Hsnap as <-. rewrite Hfs, F1, Hlatest, lookup_insert_eq. eauto.
    - destruct (fs_dirs (fs w2) !! snapshot) as [names|] eqn:F2.
      + injection Hsnap as <-. rewrite Hfs, F2, Hlatest, lookup_insert_eq.
        eauto.
      + (* the snapshot is written now *)
        apply bind_Ok in Hsnap as ([] & w6 & Hwrite & Hlog).
        unfold console_log, print in Hlog. injection Hlog as <-.
        apply writeFile_Ok in Hwrite as [Hwrite _]. cbn [fs].
        rewrite Hwrite, Hfs, Hlatest, lookup_insert_eq. split; [|eauto].
        destruct (decide (snapshot = latestPath outDir (name manifest)))
          as [->|Hne]; [now rewrite lookup_insert_eq|].
        rewrite lookup_insert_ne by exact Hne. apply lookup_insert_eq. }
  split; [apply Hafter|]. split; [apply Hafter|].
  unfold readdir in Hlist.
  destruct (fs_dirs (fs w') !! outDir) as [names|]; [|discriminate].
  injection Hlist as ->.
  split; [reflexivity|]. split; [reflexivity|].
  cbn [existingVersions]. apply get_set_same.
Qed.

End BuildFacts.

Lemma component_built_witness :
  exists st' w' item,
    buildEntry exampleParse exampleStringify Collator.localeCompare "/repo/"
      "2026-01-01T00:00:00.000Z" "tools" "/repo/components/tools"
      {| allItems := []; existingVersions := JsMap.empty |} "foo"
      (worldOf fooFiles)
    = (Ok st', w')
    /\ allItems st' = [item]
    /\ fs_files (fs w') !! "/repo/r/tools/foo.json"
       = Some (exampleStringify item +:+ Str.nl)
    /\ JsMap.get "foo" (existingVersions st') = Some ["1.0.0"].
Proof.
  pose (st0 := {| allItems := []; existingVersions := JsMap.empty |}).
  pose (m := component "foo" "kitn:tool" ["foo.ts"] None (Some "1.0.0")).
  pose (r := buildEntry exampleParse exampleStringify Collator.localeCompare "/repo/"
               "2026-01-01T00:00:00.000Z" "tools" "/repo/components/tools"
               st0 "foo" (worldOf fooFiles)).
  pose (st' := match fst r with Ok s => s | Throw _ => st0 end).
  assert (Hrun : r = (Ok st', snd r)) by (vm_compute; reflexivity).
  assert (Hraw :
            fs_files (fs (worldOf fooFiles))
              !! Path.join [Path.join ["/repo/components/tools"; "foo"];
                            "manifest.json"]
            = Some (manifestText m)) by (vm_compute; reflexivity).
  assert (Hparse : exampleParse (manifestText m) = Some m)
    by (vm_compute; reflexivity).
  pose proof (component_built exampleParse exampleStringify Collator.localeCompare "/repo/"
                "2026-01-01T00:00:00.000Z" "tools" "/repo/components/tools"
                st0 "foo" (worldOf fooFiles) st' (snd r) (manifestText m) m
                Hraw Hparse Hrun)
    as (fileNames & fc & item & listing & _ & _ & _ & Hlatest & _ & Hlist
        & Hitems & Hversions).
  exists st', (snd r), item.
  split; [exact Hrun|]. split; [exact Hitems|].
  assert (Hpath :
            latestPath (Path.join [OUTPUT_DIR "/repo/"; "tools"]) (name m)
            = "/repo/r/tools/foo.json") by (vm_compute; reflexivity).
  rewrite Hpath in Hlatest. split; [exact Hlatest|].
  assert (Hdirs :
            fs_dirs (fs (snd r)) !! Path.join [OUTPUT_DIR "/repo/"; "tools"]
            = Some ["foo.json"; "foo@1.0.0.json"])
    by (vm_compute; reflexivity).
  rewrite Hdirs in Hlist. injection Hlist as <-.
  assert (Hname : name m = "foo") by reflexivity.
  rewrite Hname in Hversions. rewrite Hversions. clear.
  vm_compute. reflexivity.
Defined.

(** ** The patterns of the scripts *)

Module RegexFacts.
Import Str Regex.

Lemma starts_inv p l : starts p l = true -> l = p ++ drop (length p) l.
Proof.
  revert l. induction p as [|a p IH]; intros [|b l]; simpl; try easy.
  unfold eqc. intros H. apply andb_prop in H as [Hab H].
  apply Ascii.eqb_eq in Hab as ->. f_equal. now apply IH.
Qed.

Lemma star_sound g p k s c res :
  star g p k s c = Some res ->
  exists w s', s = w ++ s' /\ forallb p w = true /\ k s' c = Some res.
Proof.
  induction s as [|a s IH]; simpl; intros H.
  - now exists [], [].
  - destruct (p a) eqn:Hp; [|now exists [], (a :: s)].
    assert (star g p k s c = Some res \/ k (a :: s) c = Some res) as [H'|H'].
    { destruct g; unfold orElse in H.
      - destruct (star true p k s c); auto.
      - destruct (k (a :: s) c); auto. }
    + destruct (IH H') as (w & s' & -> & Hw & Hk).
      exists (a :: w), s'. simpl. now rewrite Hp, Hw.
    + now exists [], (a :: s).
Qed.

Lemma star_complete g p k w s' c :
  forallb p w = true -> k s' c <> None -> star g p k (w ++ s') c <> None.
Proof.
  intros Hw Hk. induction w as [|a w IH]; simpl.
  - destruct s' as [|a s']; simpl; [exact Hk|].
    destruct (p a); [|exact Hk].
    destruct g; unfold orElse.
    + now destruct (star true p k s' c).
    + now destruct (k (a :: s') c).
  - simpl in Hw. apply andb_prop in Hw as [Hp Hw]. rewrite Hp.
    specialize (IH Hw).
    destruct g; unfold orElse.
    + now destruct (star true p k (w ++ s') c).
    + now destruct (k (a :: w ++ s') c).
Qed.

(** Whatever the matcher returns went through a match of the pattern on a
    prefix of the input, and on to the continuation with its captures. *)
Lemma run_sound r :
  forall k s c res,
    run r k s c = Some res ->
    exists w s' gs,
      s = w ++ s' /\ matchesWith r w gs /\ k s' (c ++ gs) = Some res.
Proof.
  induction r as [t|p|r1 IH1 r2 IH2|r1 IH1 r2 IH2|g p|g p|r1 IH1];
    intros k s c res H; simpl in H.
  - destruct (starts (chars t) s) eqn:Hs; [|discriminate].
    exists (chars t), (drop (length (chars t)) s), [].
    rewrite app_nil_r. split; [now apply starts_inv|]. now split.
  - destruct s as [|a s]; [discriminate|].
    destruct (p a) eqn:Hp; [|discriminate].
    exists [a], s, []. rewrite app_nil_r. split; [reflexivity|].
    split; [|exact H]. now exists a.
  - apply IH1 in H as (w1 & s1 & g1 & -> & M1 & H).
    apply IH2 in H as (w2 & s2 & g2 & -> & M2 & H).
    exists (w1 ++ w2), s2, (g1 ++ g2).
    rewrite <- app_assoc. split; [reflexivity|].
    split; [now exists w1, w2, g1, g2|]. now rewrite app_assoc.
  - unfold orElse in H. destruct (run r1 k s c) eqn:E1.
    + apply IH1 in E1 as (w & s' & gs & -> & M & Hk).
      exists w, s', gs. split; [reflexivity|]. split; [now left|congruence].
    + apply IH2 in H as (w & s' & gs & -> & M & Hk).
      exists w, s', gs. split; [reflexivity|]. split; [now right|exact Hk].
  - apply star_sound in H as (w & s' & -> & Hw & Hk).
    exists w, s', []. rewrite app_nil_r. now repeat split.
  - destruct s as [|a s]; [discriminate|].
    destruct (p a) eqn:Hp; [|discriminate].
    apply star_sound in H as (w & s' & -> & Hw & Hk).
    exists (a :: w), s', []. rewrite app_nil_r. split; [reflexivity|].
    split; [|exact Hk]. simpl. now rewrite Hp, Hw.
  - apply IH1 in H as (w & s' & g1 & -> & M & Hk).
    exists w, s', (g1 ++ [of_chars w]). split; [reflexivity|].
    split; [now exists g1|].
    rewrite length_app in Hk.
    replace (length w + length s' - length s') with (length w) in Hk by lia.
    rewrite take_app_length in Hk. now rewrite app_assoc.
Qed.

(** A match of the pattern on a prefix that the continuation accepts is
    enough for the matcher not to fail. *)
Lemma run_complete r :
  forall k w s' c gs,
    matchesWith r w gs ->
    k s' (c ++ gs) <> None ->
    run r k (w ++ s') c <> None.
Proof.
  induction r as [t|p|r1 IH1 r2 IH2|r1 IH1 r2 IH2|g p|g p|r1 IH1];
    intros k w s' c gs M Hk; simpl in M; simpl.
  - destruct M as [-> ->]. rewrite app_nil_r in Hk.
    now rewrite starts_app, drop_app_length.
  - destruct M as (a & -> & Hp & ->). rewrite app_nil_r in Hk.
    simpl. now rewrite Hp.
  - destruct M as (w1 & w2 & g1 & g2 & -> & -> & M1 & M2).
    rewrite <- app_assoc. apply (IH1 _ _ _ _ g1 M1).
    apply (IH2 _ _ _ _ g2 M2). now rewrite <- app_assoc.
  - unfold orElse. destruct M as [M|M].
    + pose proof (IH1 _ _ _ _ _ M Hk).
      now destruct (run r1 k (w ++ s') c).
    + pose proof (IH2 _ _ _ _ _ M Hk).
      now destruct (run r1 k (w ++ s') c).
  - destruct M as [Hw ->]. rewrite app_nil_r in Hk.
    now apply star_complete.
  - destruct M as (Hne & Hw & ->). rewrite app_nil_r in Hk.
    destruct w as [|a w]; [easy|]. simpl in Hw.
    apply andb_prop in Hw as [Hp Hw]. simpl. rewrite Hp.
    now apply star_complete.
  - destruct M as (g1 & M & ->).
    apply (IH1 _ _ _ _ g1 M).
    rewrite length_app.
    replace (length w + length s' - length s') with (length w) by lia.
    rewrite take_app_length. now rewrite <- app_assoc.
Qed.

Lemma of_chars_chars s : of_chars (chars s) = s.
Proof. apply string_of_list_ascii_of_string. Qed.

Lemma chars_of_chars l : chars (of_chars l) = l.
Proof. apply list_ascii_of_string_of_list_ascii. Qed.

Lemma of_chars_app a b : of_chars (a ++ b) = of_chars a +:+ of_chars b.
Proof. induction a as [|c a IH]; simpl; [reflexivity|]. now rewrite IH. Qed.

Lemma matchWhole_sound r s m :
  matchWhole r s = Some m -> matchesWith r (chars s) m.
Proof.
  unfold matchWhole. intros H.
  destruct (run r _ (chars s) []) as [[rest c]|] eqn:E; [|discriminate].
  injection H as ->.
  apply run_sound in E as (w & s' & gs & Hs & M & Hk).
  destruct s'; [|discriminate]. simpl in Hk. injection Hk as _ <-.
  rewrite app_nil_r in Hs. now rewrite Hs.
Qed.

Lemma matchWhole_complete r s gs :
  matchesWith r (chars s) gs -> matchWhole r s <> None.
Proof.
  intros M. unfold matchWhole.
  pose proof (run_complete r
                (fun s' c => match s' with [] => Some ([], c) | _ => None end)
                (chars s) [] [] gs M) as H.
  rewrite app_nil_r in H.
  destruct (run r _ (chars s) []) as [[rest c]|]; [easy|].
  exfalso. now apply H.
Qed.

End RegexFacts.

Lemma versionPattern_matches name w gs :
  matchesWith (versionPattern name) w gs
  <-> exists v,
        versionText v
        /\ w = Str.chars (name +:+ "@" +:+ v +:+ ".json")
        /\ gs = [v].
Proof.
  unfold versionPattern, versionText. simpl. split.
  - intros (w1 & w2 & g1 & g2 & -> & -> & [-> ->]
            & w3 & w4 & g3 & g4 & -> & -> & [-> ->]
            & w5 & w6 & g5 & g6 & -> & ->
            & (g7 & (Hne & Hall & ->) & ->) & [-> ->]).
    exists (Str.of_chars w5).
    rewrite RegexFacts.chars_of_chars, !chars_app,
      RegexFacts.chars_of_chars.
    repeat split; auto.
    intros H. apply Hne.
    now rewrite <- (RegexFacts.chars_of_chars w5), H.
  - intros (v & [Hne Hall] & -> & ->).
    exists (Str.chars name), (Str.chars ("@" +:+ v +:+ ".json")), [], [v].
    rewrite !chars_app. repeat split.
    exists (Str.chars "@"), (Str.chars v ++ Str.chars ".json"), [], [v].
    repeat split.
    exists (Str.chars v), (Str.chars ".json"), [v], [].
    repeat split.
    exists []. rewrite RegexFacts.of_chars_chars. repeat split; auto.
    intros H. apply Hne.
    now rewrite <- (RegexFacts.of_chars_chars v), H.
Qed.

Lemma snapshot_name_inj name v v' :
  name +:+ "@" +:+ v +:+ ".json" = name +:+ "@" +:+ v' +:+ ".json" -> v = v'.
Proof.
  intros H. apply (f_equal Str.chars) in H. rewrite !chars_app in H.
  apply app_inv_head in H. apply app_inv_head in H.
  apply app_inv_tail in H.
  now rewrite <- (RegexFacts.of_chars_chars v),
    <- (RegexFacts.of_chars_chars v'), H.
Qed.

Lemma scanVersions_spec name dirEntries v :
  In v (scanVersions name dirEntries)
  <-> versionText v /\ In (name +:+ "@" +:+ v +:+ ".json") dirEntries.
Proof.
  unfold scanVersions. rewrite List.in_flat_map. split.
  - intros (f & Hf & H).
    destruct (Regex.matchWhole (versionPattern name) f) as [m|] eqn:E;
      [|easy].
    destruct H as [<-|[]].
    apply RegexFacts.matchWhole_sound, versionPattern_matches in E
      as (v & Hv & Hw & ->).
    change (group 1 [v]) with v. split; [exact Hv|].
    apply (f_equal Str.of_chars) in Hw.
    rewrite !RegexFacts.of_chars_chars in Hw. now rewrite <- Hw.
  - intros [Hv Hf]. eexists. split; [exact Hf|].
    destruct (Regex.matchWhole (versionPattern name)
                (name +:+ "@" +:+ v +:+ ".json")) as [m|] eqn:E.
    + apply RegexFacts.matchWhole_sound, versionPattern_matches in E
        as (v' & _ & Hw & ->).
      left. unfold group. simpl.
      apply (snapshot_name_inj name).
      apply (f_equal Str.of_chars) in Hw.
      now rewrite !RegexFacts.of_chars_chars in Hw.
    + exfalso. revert E.
      apply (RegexFacts.matchWhole_complete _ _ [v]).
      apply versionPattern_matches. now exists v.
Qed.

(** X8. The versions collected for a component are the texts [v], not
    empty and on one line, for which the listing of the output directory
    has the name of the snapshot of the component at [v]; nothing else is
    collected and no such snapshot is missed. *)
Theorem collected_versions_are_the_snapshots localeCompare name dirEntries v :
  In v (collectVersions localeCompare name dirEntries)
  <-> versionText v /\ In (name +:+ "@" +:+ v +:+ ".json") dirEntries.
Proof.
  rewrite <- scanVersions_spec. unfold collectVersions.
  split; apply Permutation_in;
    [|symmetry]; apply sort_perm.
Qed.

(** *** The imports a source is scanned for *)

Lemma execAll_go_sound r s skip c :
  In c (Regex.execAll_go r s skip) ->
  exists pre w rest, s = pre ++ w ++ rest /\ matchesWith r w c.
Proof.
  revert skip. induction s as [|a s IH]; intros skip; simpl; [easy|].
  assert (Hlater :
            forall n, In c (Regex.execAll_go r s n) ->
                      exists pre w rest,
                        a :: s = pre ++ w ++ rest /\ matchesWith r w c).
  { intros n H. apply IH in H as (pre & w & rest & -> & M).
    now exists (a :: pre), w, rest. }
  destruct skip as [|n]; [|apply Hlater].
  destruct (Regex.matchAt r (a :: s)) as [[rest c']|] eqn:E; [|apply Hlater].
  intros [<-|H]; [|now apply Hlater in H].
  apply RegexFacts.run_sound in E as (w & s' & gs & Hs & M & Hk).
  injection Hk as <- <-. now exists [], w, s'.
Qed.

Lemma blank_of_chars w :
  w <> [] -> forallb Str.is_space w = true -> blank (Str.of_chars w).
Proof.
  intros Hne Hall. unfold blank. rewrite RegexFacts.chars_of_chars.
  split; [|exact Hall]. intros H. apply Hne.
  now rewrite <- (RegexFacts.chars_of_chars w), H.
Qed.

(** What the common head of the two patterns matches, followed by a
    quoted specifier. *)
Lemma importHead_matches tail w gs :
  tail <> [] ->
  matchesWith (Regex.seq (importHead ++ tail)) w gs ->
  exists kw ws1 mid ws2 ws3 q1 t,
    w = Str.chars kw ++ Str.chars ws1 ++ mid ++ Str.chars ws2
          ++ Str.chars "from" ++ Str.chars ws3 ++ [q1] ++ t
    /\ (kw = "import" \/ kw = "export")
    /\ blank ws1 /\ blank ws2 /\ blank ws3
    /\ Str.is_quote q1 = true
    /\ matchesWith (Regex.seq tail) t gs.
Proof.
  intros Htail. destruct tail as [|r0 tail]; [easy|].
  unfold importHead. cbn [app Regex.seq].
  set (rest := Regex.seq (r0 :: tail)).
  cbn [matchesWith].
  intros (w1 & ? & g1 & ? & -> & -> & Hkw
          & w2 & ? & ? & ? & -> & -> & (N2 & A2 & ->)
          & w3 & ? & ? & ? & -> & -> & (_ & ->)
          & w4 & ? & ? & ? & -> & -> & (N4 & A4 & ->)
          & ? & ? & ? & ? & -> & -> & (-> & ->)
          & w6 & ? & ? & ? & -> & -> & (N6 & A6 & ->)
          & ? & t & ? & g & -> & -> & (q1 & -> & Hq & ->)
          & M).
  exists (Str.of_chars w1), (Str.of_chars w2), w3, (Str.of_chars w4),
    (Str.of_chars w6), q1, t.
  rewrite !RegexFacts.chars_of_chars.
  split; [reflexivity|].
  split.
  { destruct Hkw as [[-> ->]|[-> ->]]; rewrite RegexFacts.of_chars_chars; auto. }
  split; [now apply blank_of_chars|].
  split; [now apply blank_of_chars|].
  split; [now apply blank_of_chars|].
  split; [exact Hq|].
  destruct Hkw as [[_ ->]|[_ ->]]; exact M.
Qed.

Lemma importOf_intro source pre kw ws1 mid ws2 ws3 q1 spec q2 post :
  Str.chars source
  = pre ++ (Str.chars kw ++ Str.chars ws1 ++ mid ++ Str.chars ws2
              ++ Str.chars "from" ++ Str.chars ws3 ++ [q1]
              ++ Str.chars spec ++ [q2]) ++ post ->
  (kw = "import" \/ kw = "export") ->
  blank ws1 -> blank ws2 -> blank ws3 ->
  Str.is_quote q1 = true -> Str.is_quote q2 = true ->
  importOf source spec.
Proof.
  intros Hs Hkw B1 B2 B3 Q1 Q2.
  exists (Str.of_chars pre), kw, ws1, (Str.of_chars mid), ws2, ws3, q1, q2,
    (Str.of_chars post).
  repeat split; try tauto; try apply B1; try apply B2; try apply B3.
  match goal with
  | |- _ = ?t => rewrite <- (RegexFacts.of_chars_chars t)
  end.
  rewrite <- (RegexFacts.of_chars_chars source), Hs. f_equal.
  rewrite !chars_app, !RegexFacts.chars_of_chars. cbn [Str.chars list_ascii_of_string].
  rewrite !chars_app. cbn [Str.chars list_ascii_of_string].
  rewrite <- !app_assoc.
  change (list_ascii_of_string (Str.of_chars post))
    with (Str.chars (Str.of_chars post)).
  rewrite ?RegexFacts.chars_of_chars. reflexivity.
Qed.

Lemma quoteFree_of_chars w :
  forallb Regex.notQuote w = true -> quoteFree (Str.of_chars w).
Proof. unfold quoteFree. now rewrite RegexFacts.chars_of_chars. Qed.

Lemma of_chars_nonempty w : w <> [] -> Str.of_chars w <> "".
Proof.
  intros Hne H. apply Hne. now rewrite <- (RegexFacts.chars_of_chars w), H.
Qed.

(** X9. Every relative import the validator extracts from a source is
    the text between two quote characters after an import or export
    clause ending in the word from; it is a dot followed by at least one
    character and has no quote character in it. *)
Theorem relative_import_extracted source p :
  In p (extractRelativeImports source) ->
  importOf source p
  /\ exists body, p = "." +:+ body /\ body <> "" /\ quoteFree body.
Proof.
  unfold extractRelativeImports, Regex.execAll.
  rewrite List.in_map_iff. intros (c & <- & H).
  apply execAll_go_sound in H as (pre & w & rest & Hs & M).
  unfold relativeImportPattern in M.
  apply importHead_matches in M
    as (kw & ws1 & mid & ws2 & ws3 & q1 & t & -> & Hkw & B1 & B2 & B3 & Q1
        & M); [|easy].
  cbn [Regex.seq matchesWith] in M.
  destruct M as (w1 & ? & g1 & ? & -> & -> & (g & M1 & ->)
                 & (q2 & -> & Q2 & ->)).
  destruct M1 as (? & body & ? & ? & -> & -> & (-> & ->) & (N & A & ->)).
  cbn [app group Nat.sub nth]. split.
  - eapply (importOf_intro source pre kw ws1 mid ws2 ws3 q1 _ q2 rest);
      try eassumption.
    rewrite Hs, RegexFacts.chars_of_chars.
    now rewrite <- !app_assoc.
  - exists (Str.of_chars body).
    split; [reflexivity|].
    split; [now apply of_chars_nonempty|now apply quoteFree_of_chars].
Qed.

Lemma relative_import_extracted_witness :
  importOf crossTypeSource "../agents/y.js".
Proof.
  apply (relative_import_extracted crossTypeSource "../agents/y.js").
  vm_compute. auto.
Defined.

(** X10. Every alias import the validator extracts from a source names
    one of the four type directories and a path that is not empty and has
    no quote character; the source has them, as kitn alias, type, slash
    and path, between two quote characters after an import or export
    clause ending in the word from. *)
Theorem alias_import_extracted source a :
  In a (extractKitnAliasImports source) ->
  In (alias_type a) ["agents"; "tools"; "skills"; "storage"]
  /\ alias_path a <> ""
  /\ quoteFree (alias_path a)
  /\ importOf source ("@kitn/" +:+ alias_type a +:+ "/" +:+ alias_path a).
Proof.
  unfold extractKitnAliasImports, Regex.execAll.
  rewrite List.in_flat_map. intros (c & H & Ha).
  destruct (knownAliasTypes_has (group 1 c)) eqn:Hknown; [|easy].
  destruct Ha as [<-|[]]. cbn [alias_type alias_path].
  split.
  { unfold knownAliasTypes_has in Hknown.
    apply existsb_exists in Hknown as (d & Hd & Heq).
    apply String.eqb_eq in Heq as ->. exact Hd. }
  clear Hknown.
  apply execAll_go_sound in H as (pre & w & rest & Hs & M).
  unfold aliasImportPattern in M.
  apply importHead_matches in M
    as (kw & ws1 & mid & ws2 & ws3 & q1 & t & -> & Hkw & B1 & B2 & B3 & Q1
        & M); [|easy].
  cbn [Regex.seq matchesWith] in M.
  destruct M as (? & ? & ? & ? & -> & -> & (-> & ->)
                 & ty & ? & ? & ? & -> & -> & (? & (Nt & At & ->) & ->)
                 & ? & ? & ? & ? & -> & -> & (-> & ->)
                 & pa & ? & ? & ? & -> & -> & (? & (Np & Ap & ->) & ->)
                 & (q2 & -> & Q2 & ->)).
  cbn [app group Nat.sub nth].
  split; [now apply of_chars_nonempty|].
  split; [now apply quoteFree_of_chars|].
  eapply (importOf_intro source pre kw ws1 mid ws2 ws3 q1 _ q2 rest);
    try eassumption.
  rewrite Hs, !chars_app, !RegexFacts.chars_of_chars.
  now rewrite <- !app_assoc.
Qed.

Lemma alias_import_extracted_witness :
  importOf aliasSource "@kitn/tools/missing.js".
Proof.
  apply (alias_import_extracted aliasSource
           {| alias_type := "tools"; alias_path := "missing.js" |}).
  vm_compute. auto.
Defined.

(** ** What parsing returns *)

Module ParseFacts.
Import Zod.

Section SchemaInduction.
Variable P : schema -> Prop.
Hypothesis P_string : P string_.
Hypothesis P_enum : forall options, P (enum options).
Hypothesis P_array : forall item, P item -> P (array item).
Hypothesis P_record : forall item, P item -> P (record item).
Hypothesis P_object :
  forall shape, Forall (fun ks => P (snd ks)) shape -> P (object shape).
Hypothesis P_optional : forall s, P s -> P (optional s).
Hypothesis P_default : forall s d, P s -> P (default s d).
Hypothesis P_describe : forall s text, P s -> P (describe s text).

Lemma schema_nested_ind : forall s, P s.
Proof.
  fix IH 1. intros [|options|item|item|shape|s|s d|s text].
  - apply P_string.
  - apply P_enum.
  - apply P_array, IH.
  - apply P_record, IH.
  - apply P_object. revert shape. fix IHshape 1.
    intros [|[k sk] shape]; constructor; [apply IH|apply IHshape].
  - apply P_optional, IH.
  - apply P_default, IH.
  - apply P_describe, IH.
Qed.

End SchemaInduction.

(** Parsing makes nothing undefined that was defined. *)
Lemma parse_undefined s :
  forall v, parse s v = inl VUndefined -> v = VUndefined.
Proof.
  induction s as [|options|item _|item _|shape|s IH|s IH d|s IH text];
    intros v H; simpl in H.
  - destruct v; congruence.
  - destruct v as [|x| | |]; try discriminate.
    destruct (existsb _ _); congruence.
  - destruct v as [| |items| |]; try discriminate.
    destruct (each_item _ _ _ _); discriminate.
  - destruct v as [| | |fields|]; try discriminate.
    destruct (each_entry _ _ _); discriminate.
  - destruct v as [| | |fields|]; try discriminate.
    destruct (each_key _ _ _); discriminate.
  - destruct v; auto.
  - destruct v; auto.
  - auto.
Qed.

Lemma distinct_NoDup keys : distinct keys = true -> NoDup keys.
Proof.
  induction keys as [|k keys IH]; simpl; [constructor|].
  intros H. apply andb_prop in H as [Hk H]. constructor; [|auto].
  intros Hin. apply negb_true_iff in Hk.
  assert (existsb (String.eqb k) keys = true); [|congruence].
  apply existsb_exists. exists k. split; [|apply String.eqb_refl].
  now apply list_elem_of_In.
Qed.

Lemma assoc_None {A} k (l : list (string * A)) :
  ~ In k (List.map fst l) -> assoc k l = None.
Proof.
  induction l as [|[k' x] l IH]; simpl; [reflexivity|].
  intros H. destruct (String.eqb_spec k k') as [->|Hne]; [tauto|].
  apply IH. tauto.
Qed.

Lemma each_key_keys input shape l :
  each_key parse input shape = inl l ->
  forall k, In k (List.map fst l) -> In k (List.map fst shape).
Proof.
  revert l. induction shape as [|[k0 sk] shape IH]; simpl; intros l H k.
  - injection H as <-. auto.
  - destruct (parse sk _) as [x|]; [|discriminate]. simpl in H.
    destruct (each_key parse input shape) as [l'|]; [|discriminate].
    specialize (IH l' eq_refl k).
    assert (l = (k0, x) :: l' \/ l = l') as [->| ->].
    { destruct x; try (left; congruence).
      destruct (hasKey k0 input); [left|right]; congruence. }
    + simpl. tauto.
    + tauto.
Qed.

(** The step of [each_key] for one declared key. *)
Lemma each_key_cons input k sk shape l :
  each_key parse input ((k, sk) :: shape) = inl l ->
  exists x l',
    parse sk (field k (VObj input)) = inl x
    /\ each_key parse input shape = inl l'
    /\ (l = (k, x) :: l'
        \/ (x = VUndefined /\ hasKey k input = false /\ l = l')).
Proof.
  cbn [each_key].
  destruct (parse sk _) as [x|]; [|discriminate]. cbn [under].
  destruct (each_key parse input shape) as [l'|]; [|discriminate].
  intros H. exists x, l'. split; [reflexivity|]. split; [reflexivity|].
  destruct x; try (left; congruence).
  destruct (hasKey k input); [left|right]; [congruence|].
  split; [reflexivity|]. split; [reflexivity|congruence].
Qed.

(** Each declared key of an object is parsed from the field of the input
    to the field of the result. *)
Lemma each_key_field input shape l :
  NoDup (List.map fst shape) ->
  each_key parse input shape = inl l ->
  forall k sk,
    In (k, sk) shape ->
    parse sk (field k (VObj input)) = inl (field k (VObj l)).
Proof.
  revert l. induction shape as [|[k0 sk0] shape IH]; intros l Hnd H k sk Hin;
    [easy|].
  apply each_key_cons in H as (x & l' & Hx & Hrest & Hl).
  cbn [List.map fst] in Hnd. apply NoDup_cons in Hnd as [Hk0 Hnd].
  assert (Hfresh : assoc k0 l' = None).
  { apply assoc_None. intros Hin'. apply Hk0.
    apply list_elem_of_In. eapply each_key_keys; eassumption. }
  destruct Hin as [E|Hin].
  - injection E as <- <-. rewrite Hx. f_equal.
    destruct Hl as [->|(-> & _ & ->)]; cbn [field assoc].
    + now rewrite String.eqb_refl.
    + now rewrite Hfresh.
  - specialize (IH l' Hnd Hrest k sk Hin). rewrite IH. f_equal.
    destruct Hl as [->|(_ & _ & ->)]; [|reflexivity].
    cbn [field assoc].
    destruct (String.eqb_spec k k0) as [->|Hne]; [|reflexivity].
    exfalso. apply Hk0. apply list_elem_of_In.
    apply List.in_map_iff. now exists (k0, sk).
Qed.

Lemma each_item_again item :
  idempotent item ->
  forall items i l,
    each_item parse item i items = inl l ->
    forall j, each_item parse item j l = inl l.
Proof.
  intros Hitem. induction items as [|x items IH]; simpl; intros i l H j.
  - now injection H as <-.
  - destruct (parse item x) as [x'|] eqn:Hx; [|discriminate]. simpl in H.
    destruct (each_item parse item (S i) items) as [l'|] eqn:Hl;
      [|discriminate].
    injection H as <-. simpl. rewrite (Hitem _ _ Hx). simpl.
    now rewrite (IH _ _ Hl).
Qed.

Lemma each_entry_again item :
  idempotent item ->
  forall fields l,
    each_entry parse item fields = inl l -> each_entry parse item l = inl l.
Proof.
  intros Hitem. induction fields as [|[k x] fields IH]; simpl; intros l H.
  - now injection H as <-.
  - destruct (parse item x) as [x'|] eqn:Hx; [|discriminate]. simpl in H.
    destruct (each_entry parse item fields) as [l'|] eqn:Hl; [|discriminate].
    injection H as <-. simpl. rewrite (Hitem _ _ Hx). simpl.
    now rewrite (IH _ eq_refl).
Qed.

Lemma each_key_again full input shape :
  Forall (fun ks => idempotent (snd ks)) shape ->
  NoDup (List.map fst shape) ->
  forall l,
    each_key parse input shape = inl l ->
    (forall k, In k (List.map fst shape) -> assoc k full = assoc k l) ->
    each_key parse full shape = inl l.
Proof.
  induction shape as [|[k sk] shape IH]; intros Hidem Hnd l H Hfull.
  - exact H.
  - apply each_key_cons in H as (x & l' & Hx & Hrest & Hl).
    apply Forall_cons in Hidem as [Hsk Hidem]. cbn [snd] in Hsk.
    cbn [List.map fst] in Hnd. apply NoDup_cons in Hnd as [Hk Hnd].
    assert (Hfresh : assoc k l' = None).
    { apply assoc_None. intros Hin'. apply Hk.
      apply list_elem_of_In. eapply each_key_keys; eassumption. }
    assert (Hother : forall k0, In k0 (List.map fst shape) ->
                                assoc k0 full = assoc k0 l').
    { intros k0 Hk0. rewrite Hfull by now right.
      destruct Hl as [->|(_ & _ & ->)]; [|reflexivity].
      cbn [assoc]. destruct (String.eqb_spec k0 k) as [->|]; [|reflexivity].
      exfalso. apply Hk. now apply list_elem_of_In. }
    specialize (IH Hidem Hnd l' Hrest Hother).
    pose proof (Hfull k (or_introl eq_refl)) as Hhead.
    cbn [each_key field]. rewrite IH, Hhead. unfold hasKey. rewrite Hhead.
    destruct Hl as [->|(-> & _ & ->)]; cbn [assoc].
    + rewrite String.eqb_refl, (Hsk _ _ Hx). cbn [under].
      now destruct x.
    + rewrite Hfresh, (Hsk _ _ Hx). reflexivity.
Qed.

(** What a schema returns it returns again when given it: parsing twice
    is parsing once. *)
Lemma parse_idempotent : forall s, distinctKeys s = true -> idempotent s.
Proof.
  apply (schema_nested_ind (fun s => distinctKeys s = true -> idempotent s)).
  - intros _ v v' H. simpl in *. destruct v; try discriminate.
    now injection H as <-.
  - intros options _ v v' H. simpl in *.
    destruct v as [|x| | |]; try discriminate.
    destruct (existsb _ _) eqn:E; [|discriminate].
    injection H as <-. simpl. now rewrite E.
  - intros item IH Hwf v v' H. simpl in *.
    destruct v as [| |items| |]; try discriminate.
    destruct (each_item parse item 0 items) as [l|] eqn:E; [|discriminate].
    injection H as <-. simpl.
    now rewrite (each_item_again item (IH Hwf) _ _ _ E).
  - intros item IH Hwf v v' H. simpl in *.
    destruct v as [| | |fields|]; try discriminate.
    destruct (each_entry parse item fields) as [l|] eqn:E; [|discriminate].
    injection H as <-. simpl.
    now rewrite (each_entry_again item (IH Hwf) _ _ E).
  - intros shape IH Hwf v v' H. simpl in Hwf.
    apply andb_prop in Hwf as [Hkeys Hwf].
    cbn [parse] in H. destruct v as [| | |fields|]; try discriminate.
    destruct (each_key parse fields shape) as [l|] eqn:E; [|discriminate].
    injection H as <-. cbn [parse].
    assert (each_key parse l shape = inl l) as ->; [|reflexivity].
    apply (each_key_again l fields shape); auto.
    + clear -IH Hwf. induction IH as [|[k sk] shape Hsk _ IHs];
        constructor; simpl in *; apply andb_prop in Hwf as [H1 H2]; auto.
    + now apply distinct_NoDup.
  - intros s IH Hwf v v' H. simpl in *.
    destruct v'; [reflexivity|..]; destruct v; try discriminate;
      now apply (IH Hwf) in H.
  - intros s d IH Hwf v v' H. simpl in Hwf.
    assert (Hs : parse s v' = inl v').
    { destruct v; simpl in H; now apply (IH Hwf) in H. }
    destruct v'; simpl; auto.
    destruct v; simpl in H; auto.
    all: apply parse_undefined in H; discriminate.
  - intros s text IH Hwf v v' H. simpl in *. now apply (IH Hwf) in H.
Qed.

End ParseFacts.

(** ** The items and the index the builder makes are valid *)

(** X11. An item that [buildRegistryItem] returns is valid for the schema
    of items as it is: parsing it again changes nothing. *)
Theorem built_item_valid now manifest fileContents item :
  buildRegistryItem now manifest fileContents = Ok item ->
  accepts registryItemSchema item.
Proof.
  unfold buildRegistryItem. destruct (files manifest); [|discriminate].
  destruct (Zod.parse registryItemSchema _) as [v|] eqn:E; [|discriminate].
  intros H. injection H as <-.
  now apply (ParseFacts.parse_idempotent registryItemSchema eq_refl) in E.
Qed.

Lemma built_item_valid_witness :
  exists item,
    buildRegistryItem "2026-01-01T00:00:00.000Z"
      (component "foo" "kitn:tool" ["foo.ts"] None (Some "1.0.0")) ∅
    = Ok item
    /\ accepts registryItemSchema item.
Proof.
  pose (r := buildRegistryItem "2026-01-01T00:00:00.000Z"
               (component "foo" "kitn:tool" ["foo.ts"] None (Some "1.0.0"))
               ∅).
  assert (E : r = Ok (match r with Ok i => i | Throw _ => VUndefined end))
    by (vm_compute; reflexivity).
  eexists. split; [exact E|].
  exact (built_item_valid _ _ _ _ E).
Defined.

Section IndexFacts.
Variable existingVersions : JsMap.t (list string).

Lemma item_fields item k sk :
  accepts registryItemSchema item ->
  In (k, sk) (shapeOf registryItemSchema) ->
  accepts sk (field k item).
Proof.
  unfold accepts, registryItemSchema. cbn [shapeOf]. intros H Hin.
  cbn [Zod.parse] in H. destruct item as [| | |fields|]; try discriminate.
  match type of H with
  | Zod.lift _ (Zod.each_key _ _ ?shape) = _ => set (sh := shape) in *
  end.
  destruct (Zod.each_key Zod.parse fields sh) as [l|] eqn:E; [|discriminate].
  injection H as ->.
  assert (Hnd : NoDup (List.map fst sh))
    by (apply ParseFacts.distinct_NoDup; reflexivity).
  exact (ParseFacts.each_key_field fields sh fields Hnd E k sk Hin).
Qed.

Lemma indexItem_valid item :
  accepts registryItemSchema item ->
  accepts registryIndexItemSchema (indexItem existingVersions item).
Proof.
  intros H.
  pose proof (fun k sk => item_fields item k sk H) as F.
  assert (Hname : accepts Zod.string_ (field "name" item)).
  { apply (F "name" (Zod.describe Zod.string_ "Unique component identifier")).
    repeat (first [left; reflexivity | right]). }
  assert (Htype : accepts componentType (field "type" item)).
  { apply F. repeat (first [left; reflexivity | right]). }
  assert (Hdesc : accepts Zod.string_ (field "description" item)).
  { apply F. repeat (first [left; reflexivity | right]). }
  assert (Hdeps : accepts (Zod.optional (Zod.array Zod.string_))
                    (field "registryDependencies" item)).
  { apply (F "registryDependencies"
             (Zod.describe (Zod.optional (Zod.array Zod.string_))
                "Other kitn components this depends on")).
    repeat (first [left; reflexivity | right]). }
  assert (Hcats : accepts (Zod.optional (Zod.array Zod.string_))
                    (field "categories" item)).
  { apply F. repeat (first [left; reflexivity | right]). }
  assert (Hver : accepts (Zod.default (Zod.optional Zod.string_)
                            (VStr "1.0.0"))
                   (field "version" item)).
  { apply F. repeat (first [left; reflexivity | right]). }
  assert (Hupd : accepts (Zod.optional Zod.string_) (field "updatedAt" item)).
  { apply F. repeat (first [left; reflexivity | right]). }
  clear F H. unfold indexItem, registryIndexItemSchema.
  set (name := field "name" item) in *.
  set (type := field "type" item) in *.
  set (description := field "description" item) in *.
  set (deps := field "registryDependencies" item) in *.
  set (cats := field "categories" item) in *.
  set (version := field "version" item) in *.
  set (updatedAt := field "updatedAt" item) in *.
  clearbody name type description deps cats version updatedAt.
  assert (Hversion : exists v, version = VStr v).
  { unfold accepts in Hver. destruct version; try discriminate. eauto. }
  destruct Hversion as [v ->].
  assert (Hn : exists n, name = VStr n).
  { unfold accepts in Hname. destruct name; try discriminate. eauto. }
  destruct Hn as [n ->].
  set (versions := match JsMap.get n existingVersions with
                   | Some vs => vstrings vs
                   | None => VArr [VStr v]
                   end).
  assert (Hversions : accepts (Zod.optional (Zod.array Zod.string_)) versions).
  { unfold versions. destruct (JsMap.get n existingVersions).
    - apply ZodFacts.accepts_optional, ZodFacts.accepts_strings.
    - reflexivity. }
  clearbody versions. unfold accepts.
  rewrite ZodFacts.parse_object; [reflexivity|].
  repeat constructor; assumption.
Qed.

Lemma index_valid items :
  Forall (accepts registryItemSchema) items ->
  accepts registryIndexSchema (buildRegistryIndex items existingVersions).
Proof.
  intros H. unfold buildRegistryIndex, registryIndexSchema, accepts.
  rewrite ZodFacts.parse_object; [reflexivity|].
  constructor; [split; reflexivity|].
  constructor; [split; reflexivity|].
  constructor; [|constructor]. split; [reflexivity|].
  cbn [fst snd field assoc String.eqb Ascii.eqb Bool.eqb].
  apply ZodFacts.accepts_array.
  induction H as [|item items Hitem _ IH]; cbn [List.map]; constructor;
    [now apply indexItem_valid|exact IH].
Qed.

(** X12. The index [buildRegistryIndex] makes of items that are valid for
    the schema of items is valid, as it is, for the schema of the index,
    whatever versions were recorded; it has one entry for each item, each
    valid for the schema of index entries, and the entry at a position
    carries the name, the type and the version of the item at that
    position. *)
Theorem built_index_valid items :
  Forall (accepts registryItemSchema) items ->
  accepts registryIndexSchema (buildRegistryIndex items existingVersions)
  /\ exists entries,
       field "items" (buildRegistryIndex items existingVersions)
       = VArr entries
       /\ length entries = length items
       /\ Forall (accepts registryIndexItemSchema) entries
       /\ forall i item,
            items !! i = Some item ->
            exists entry,
              entries !! i = Some entry
              /\ field "name" entry = field "name" item
              /\ field "type" entry = field "type" item
              /\ field "version" entry = field "version" item.
Proof.
  intros H. split; [now apply index_valid|].
  exists (List.map (indexItem existingVersions) items).
  split; [reflexivity|]. split; [apply length_map|]. split.
  - induction H as [|item items Hitem _ IH]; cbn [List.map]; constructor;
      [now apply indexItem_valid|exact IH].
  - intros i item Hi. exists (indexItem existingVersions item).
    rewrite lookup_map, Hi. repeat split; reflexivity.
Qed.

End IndexFacts.

Lemma built_index_valid_witness :
  accepts registryIndexSchema
    (buildRegistryIndex
       [ VObj [ ("name", VStr "foo");
                ("type", VStr "kitn:tool");
                ("description", VStr "An example");
                ("files", VArr []);
                ("version", VStr "1.0.0") ] ]
       (JsMap.set "foo" ["1.1.0"; "1.0.0"] JsMap.empty)).
Proof.
  apply built_index_valid.
  constructor; [vm_compute; reflexivity|constructor].
Defined.

Lemma ensures_any {A} (m : M A) : ensures (fun _ => True) m.
Proof. now intros w a _. Qed.

Lemma ensures_ret {A} (Q : A -> Prop) (a : A) : Q a -> ensures Q (mret a).
Proof. intros H w a' E. now injection E as <-. Qed.

Section WholeBuild.
Variable JSON_parse : string -> option ComponentManifest.
Variable JSON_stringify : value -> string.
Variable localeCompare : string -> string -> Z.
Variable ROOT : string.
Variable now : string.

Lemma buildEntry_items typeDir dir st entry :
  Forall (accepts registryItemSchema) (allItems st) ->
  ensures (fun st' => Forall (accepts registryItemSchema) (allItems st'))
    (buildEntry JSON_parse JSON_stringify localeCompare ROOT now typeDir dir st entry).
Proof.
  intros Hst. unfold buildEntry.
  eapply ensures_bind; [apply ensures_any|]. intros [raw|] _;
    [|now apply ensures_ret].
  eapply ensures_bind; [apply ensures_any|]. intros manifest _.
  eapply ensures_bind; [apply ensures_any|]. intros fc _.
  eapply (ensures_bind (accepts registryItemSchema)).
  { intros w item E. cbn [fst] in E. unfold buildRegistryItem in E.
    destruct (files manifest); [|discriminate].
    destruct (Zod.parse registryItemSchema _) as [v|] eqn:Ev; [|discriminate].
    injection E as <-.
    now apply (ParseFacts.parse_idempotent registryItemSchema eq_refl) in Ev. }
  intros item Hitem.
  eapply ensures_bind; [apply ensures_any|]. intros _ _.
  eapply ensures_bind; [apply ensures_any|]. intros _ _.
  eapply ensures_bind; [apply ensures_any|]. intros _ _.
  eapply ensures_bind; [apply ensures_any|]. intros _ _.
  eapply ensures_bind; [apply ensures_any|]. intros listing _.
  apply ensures_ret. cbn [allItems].
  apply Forall_app. split; [exact Hst|]. now constructor.
Qed.

Lemma build_items :
  ensures (fun st => Forall (accepts registryItemSchema) (allItems st))
    (foldM (buildTypeDir JSON_parse JSON_stringify localeCompare ROOT now) typeDirs
       {| allItems := []; existingVersions := JsMap.empty |}).
Proof.
  apply (ensures_foldM
           (fun st => Forall (accepts registryItemSchema) (allItems st)));
    [|constructor].
  intros st typeDir Hst. unfold buildTypeDir.
  eapply ensures_bind; [apply ensures_any|]. intros [entries|] _;
    [|now apply ensures_ret].
  apply (ensures_foldM
           (fun st => Forall (accepts registryItemSchema) (allItems st)));
    [|exact Hst].
  intros st' entry Hst'. now apply buildEntry_items.
Qed.

(** X13. When the builder ends without an exception, the index file holds
    the text of an index that is valid for the schema of the index, made
    of items that are each valid for the schema of items; the last line
    on the console counts them. *)
Theorem build_publishes_valid_index w w' :
  build JSON_parse JSON_stringify localeCompare ROOT now w = (Ok tt, w') ->
  exists items versions,
    Forall (accepts registryItemSchema) items
    /\ accepts registryIndexSchema (buildRegistryIndex items versions)
    /\ fs_files (fs w') !! Path.join [OUTPUT_DIR ROOT; "registry.json"]
       = Some (JSON_stringify (buildRegistryIndex items versions) +:+ Str.nl)
    /\ last (console w')
       = Some (Stdout,
               Str.nl +:+ "✓ Registry index: " +:+ Str.of_nat (length items)
                 +:+ " components").
Proof.
  unfold build. intros H.
  apply bind_Ok in H as (st & w1 & E1 & H).
  apply bind_Ok in H as ([] & w2 & E2 & H).
  unfold console_log, print in H. injection H as <-.
  assert (Hitems : Forall (accepts registryItemSchema) (allItems st)).
  { apply (build_items w st). now rewrite E1. }
  apply writeFile_Ok in E2 as [Hfile _].
  exists (allItems st), (existingVersions st).
  split; [exact Hitems|].
  split; [now apply index_valid|].
  split; [cbn [fs]; rewrite Hfile; apply lookup_insert_eq|].
  cbn [console]. apply last_snoc.
Qed.

End WholeBuild.

Lemma build_publishes_valid_index_witness :
  exists index,
    accepts registryIndexSchema index
    /\ fs_files (fs afterFirstBuild) !! "/repo/r/registry.json"
       = Some (exampleStringify index +:+ Str.nl).
Proof.
  assert (Hrun : exampleBuild "2026-01-01T00:00:00.000Z" (worldOf fooFiles)
                 = (Ok tt, afterFirstBuild)) by (vm_compute; reflexivity).
  destruct (build_publishes_valid_index exampleParse exampleStringify
              Collator.localeCompare "/repo/" "2026-01-01T00:00:00.000Z"
              (worldOf fooFiles)
              afterFirstBuild Hrun)
    as (items & versions & _ & Hvalid & Hfile & _).
  exists (buildRegistryIndex items versions).
  split; [exact Hvalid|exact Hfile].
Defined.

(** ** A component the builder cannot get through *)

Section Unbuildable.
Variable JSON_parse : string -> option ComponentManifest.
Variable JSON_stringify : value -> string.
Variable localeCompare : string -> string -> Z.
Variable ROOT : string.
Variable now : string.

Lemma readSources_missing componentDir manifest fileNames fileName w :
  files manifest = Some fileNames ->
  In fileName fileNames ->
  fs_files (fs w) !! Path.join [componentDir; fileName] = None ->
  exists e, fst (readSources componentDir manifest w) = Throw e.
Proof.
  intros Hfiles Hin Hnone. unfold readSources. rewrite Hfiles.
  apply foldM_throws with (x := fileName); [| |exact Hin].
  - intros fc f. unfold mbind, M_bind, readFile.
    destruct (fs_files (fs w) !! Path.join [componentDir; f]); reflexivity.
  - intros fc. unfold mbind, M_bind, readFile. rewrite Hnone. simpl. eauto.
Qed.

(** X15. A component the builder cannot get through leaves no trace: when
    the manifest of a directory entry does not parse, or has no list of
    files, or declares a file that cannot be read, or is not a manifest of
    the interface, the step for that entry throws before anything is
    created, written or printed. *)
Theorem unbuildable_component_leaves_no_trace typeDir dir st entry w :
  unbuildable JSON_parse w dir entry ->
  exists e,
    buildEntry JSON_parse JSON_stringify localeCompare ROOT now typeDir dir st entry w
    = (Throw e, w).
Proof.
  intros (raw & Hraw & Hbad).
  unfold buildEntry, mbind at 1, M_bind at 1, tryCatch, fmap, M_fmap, readFile.
  rewrite Hraw. cbn [fst snd].
  unfold parseManifest, mbind at 1, M_bind at 1.
  destruct (JSON_parse raw) as [manifest|]; [|cbn; eauto].
  cbn [mret M_ret]. unfold mbind at 1, M_bind at 1.
  pose proof (readSources_same (Path.join [dir; entry]) manifest w) as Hsame.
  destruct (files manifest) as [fileNames|] eqn:Hfiles.
  - destruct (readSources (Path.join [dir; entry]) manifest w)
      as [[fc|e] w1] eqn:E; cbn [snd] in Hsame; subst w1; [|eauto].
    destruct Hbad as [(fileName & Hin & Hnone)|Hill].
    + destruct (readSources_missing _ _ _ _ _ Hfiles Hin Hnone) as [e He].
      rewrite E in He. discriminate.
    + unfold mbind at 1, M_bind at 1.
      destruct (buildRegistryItem_illtyped now manifest fc fileNames Hfiles
                  Hill) as [i ->].
      eauto.
  - unfold readSources. rewrite Hfiles. cbn. eauto.
Qed.

End Unbuildable.

Lemma unbuildable_component_leaves_no_trace_witness :
  exists e,
    buildEntry (parseAmong gadgetManifests) exampleStringify
      Collator.localeCompare "/repo/"
      "2026-01-01T00:00:00.000Z" "tools" "/repo/components/tools"
      {| allItems := []; existingVersions := JsMap.empty |} "gadget"
      gadgetWorld
    = (Throw e, gadgetWorld).
Proof.
  apply unbuildable_component_leaves_no_trace.
  exists (manifestText
            (component "gadget" "kitn:widget" ["gadget.ts"] None None)).
  split; [vm_compute; reflexivity|].
  vm_compute. right. reflexivity.
Defined.

(** ** A repository without components *)

Section NoComponents.
Variable JSON_parse : string -> option ComponentManifest.
Variable JSON_stringify : value -> string.
Variable localeCompare : string -> string -> Z.
Variable ROOT : string.
Variable now : string.

Lemma nothing_to_build w st :
  (forall typeDir,
     In typeDir typeDirs ->
     fs_dirs (fs w) !! Path.join [COMPONENTS_DIR ROOT; typeDir] = None) ->
  foldM (buildTypeDir JSON_parse JSON_stringify localeCompare ROOT now) typeDirs st w
  = (Ok st, w).
Proof.
  intros Hnone.
  assert (H : forall dirs,
             (forall d, In d dirs -> In d typeDirs) ->
             foldM (buildTypeDir JSON_parse JSON_stringify localeCompare ROOT now) dirs st w
             = (Ok st, w)).
  { induction dirs as [|d dirs IH]; intros Hsub; [reflexivity|].
    simpl. unfold mbind at 1. unfold M_bind at 1.
    assert (E : buildTypeDir JSON_parse JSON_stringify localeCompare ROOT now st d w
                = (Ok st, w)).
    { unfold buildTypeDir, mbind, M_bind, tryCatch, fmap, M_fmap, readdir.
      rewrite (Hnone d); [reflexivity|]. apply Hsub. now left. }
    rewrite E. apply IH. intros d' Hd'. apply Hsub. now right. }
  now apply H.
Qed.


End NoComponents.


(** ** The configuration and the component types *)

Lemma parse_object_field shape v v' k sk :
  Zod.parse (Zod.object shape) v = inl v' ->
  NoDup (List.map fst shape) ->
  In (k, sk) shape ->
  Zod.parse sk (field k v) = inl (field k v').
Proof.
  cbn [Zod.parse]. destruct v as [| | |fields|]; try discriminate.
  destruct (Zod.each_key Zod.parse fields shape) as [l|] eqn:E;
    [|discriminate].
  intros H Hnd Hin. injection H as <-.
  exact (ParseFacts.each_key_field fields shape l Hnd E k sk Hin).
Qed.

(** X17. A configuration that [configSchema] lets through has a directory
    for every component type: the key [typeToAliasKey] gives a type is a
    key of [aliases] whose value is a string, in the input and in the
    parsed configuration alike. A configuration without one of the four
    aliases is therefore rejected. *)
Theorem config_has_alias_for_every_type cfg cfg' t :
  Zod.parse configSchema cfg = inl cfg' ->
  accepts componentType (VStr t) ->
  exists key dir,
    typeToAliasKey t = Some key
    /\ field key (field "aliases" cfg) = VStr dir
    /\ field key (field "aliases" cfg') = VStr dir.
Proof.
  intros Hcfg Ht.
  assert (Hkey : exists key,
             typeToAliasKey t = Some key
             /\ In (key, Zod.string_)
                  [ ("base", Zod.optional Zod.string_);
                    ("agents", Zod.string_);
                    ("tools", Zod.string_);
                    ("skills", Zod.string_);
                    ("storage", Zod.string_) ]).
  { unfold accepts, componentType in Ht. cbn [Zod.parse existsb] in Ht.
    unfold typeToAliasKey. cbn [assoc].
    destruct (String.eqb t "kitn:agent");
      [eexists; split; [reflexivity|cbn; auto 10]|].
    destruct (String.eqb t "kitn:tool");
      [eexists; split; [reflexivity|cbn; auto 10]|].
    destruct (String.eqb t "kitn:skill");
      [eexists; split; [reflexivity|cbn; auto 10]|].
    destruct (String.eqb t "kitn:storage");
      [eexists; split; [reflexivity|cbn; auto 10]|].
    discriminate. }
  destruct Hkey as (key & Hkey & Hin).
  unfold configSchema in Hcfg.
  eapply parse_object_field with (k := "aliases") in Hcfg;
    [|apply ParseFacts.distinct_NoDup; reflexivity
     |cbn; repeat (first [left; reflexivity | right])].
  eapply parse_object_field with (k := key) in Hcfg;
    [|apply ParseFacts.distinct_NoDup; reflexivity|exact Hin].
  exists key. cbn [Zod.parse] in Hcfg.
  destruct (field key (field "aliases" cfg)) as [|dir| | |]; try discriminate.
  exists dir. split; [exact Hkey|]. split; [reflexivity|].
  now injection Hcfg as <-.
Qed.

Lemma config_has_alias_for_every_type_witness :
  exists key dir,
    typeToAliasKey "kitn:tool" = Some key
    /\ field key (field "aliases" exampleConfig) = VStr dir.
Proof.
  destruct (config_has_alias_for_every_type exampleConfig exampleConfig
              "kitn:tool")
    as (key & dir & Hkey & Hdir & _); [reflexivity|reflexivity|].
  now exists key, dir.
Defined.

(** ** No version twice *)

Lemma scanVersions_cons name f l :
  scanVersions name (f :: l)
  = match Regex.matchWhole (versionPattern name) f with
    | Some m => group 1 m :: scanVersions name l
    | None => scanVersions name l
    end.
Proof.
  unfold scanVersions. cbn [flat_map].
  now destruct (Regex.matchWhole (versionPattern name) f).
Qed.

Lemma scanVersions_NoDup name dirEntries :
  NoDup dirEntries -> NoDup (scanVersions name dirEntries).
Proof.
  induction 1 as [|f l Hf Hl IH]; [constructor|].
  rewrite scanVersions_cons.
  destruct (Regex.matchWhole (versionPattern name) f) as [m|] eqn:E;
    [|exact IH].
  apply NoDup_cons. split; [|exact IH].
  intros Hin. apply Hf. apply list_elem_of_In in Hin.
  apply scanVersions_spec in Hin as [_ Hin].
  apply RegexFacts.matchWhole_sound, versionPattern_matches in E
    as (v & _ & Hw & ->).
  change (group 1 [v]) with v in Hin.
  apply (f_equal Str.of_chars) in Hw.
  rewrite !RegexFacts.of_chars_chars in Hw. subst f.
  now apply list_elem_of_In.
Qed.

(** X18. A listing without repeated names, as a directory gives it, yields
    a version list without repeated versions. *)
Theorem collected_versions_distinct localeCompare name dirEntries :
  NoDup dirEntries -> NoDup (collectVersions localeCompare name dirEntries).
Proof.
  intros H. unfold collectVersions.
  rewrite sort_perm. now apply scanVersions_NoDup.
Qed.

Lemma collected_versions_distinct_witness :
  NoDup (collectVersions Collator.localeCompare "foo"
           ["foo.json"; "foo@1.0.0.json"; "foo@1.1.0.json"]).
Proof.
  apply collected_versions_distinct.
  apply (bool_decide_unpack _). vm_compute. reflexivity.
Defined.

(** ** The targets of imports *)

Lemma ts_is_not_js x : Str.endsWith (x +:+ ".ts") ".js" = false.
Proof.
  unfold Str.endsWith. rewrite chars_app, rev_app_distr. reflexivity.
Qed.

(** X19. The target an import resolves to never ends in .js, whether the
    import is relative or an alias: a trailing .js is always replaced by
    .ts, so only an installed path ending otherwise can be the target of
    an import. *)
Theorem import_target_is_not_js importPath fromFileInstalledPath t :
  Str.endsWith (resolveImportToFile importPath fromFileInstalledPath) ".js"
  = false
  /\ Str.endsWith (jsToTs t) ".js" = false.
Proof.
  split.
  - unfold resolveImportToFile.
    set (resolved := Str.of_chars _).
    destruct (Str.endsWith resolved ".js") eqn:E;
      [apply ts_is_not_js|exact E].
  - unfold jsToTs.
    destruct (Str.endsWith t ".js") eqn:E; [apply ts_is_not_js|exact E].
Qed.

(** ** The import statements the scan finds *)

Module ScanFacts.
Import Str Regex.

Lemma run_seq r1 r2 k : run (Seq r1 r2) k = run r1 (run r2 k).
Proof. reflexivity. Qed.

(** A greedy repetition followed by a character outside its class takes
    the whole run when the continuation succeeds there. *)
Lemma star_greedy_all p k w s' c res :
  forallb p w = true ->
  stops p s' ->
  k s' c = Some res ->
  star true p k (w ++ s') c = Some res.
Proof.
  intros Hw Hstop Hk. induction w as [|a w IH]; simpl.
  - destruct s' as [|a s']; [exact Hk|]. simpl in *. now rewrite Hstop.
  - simpl in Hw. apply andb_prop in Hw as [Ha Hw]. rewrite Ha.
    now rewrite (IH Hw).
Qed.

Lemma plus_greedy_all p k w s' c res :
  w <> [] ->
  forallb p w = true ->
  stops p s' ->
  k s' c = Some res ->
  run (Plus true p) k (w ++ s') c = Some res.
Proof.
  intros Hne Hw Hstop Hk. destruct w as [|a w]; [easy|].
  simpl in Hw. apply andb_prop in Hw as [Ha Hw]. simpl. rewrite Ha.
  now apply star_greedy_all.
Qed.

(** A lazy repetition stops at the first place where the continuation
    succeeds. *)
Lemma star_lazy_first p k w s' c res :
  forallb p w = true ->
  (forall j, j < length w ->
             k (drop j w ++ s') c = None \/ k (drop j w ++ s') c = Some res) ->
  k s' c = Some res ->
  star false p k (w ++ s') c = Some res.
Proof.
  intros Hw Hearly Hk. induction w as [|a w IH]; simpl.
  - destruct s' as [|a s']; [exact Hk|]. simpl.
    destruct (p a); [|exact Hk]. now rewrite Hk.
  - simpl in Hw. apply andb_prop in Hw as [Ha Hw]. rewrite Ha.
    destruct (Hearly 0) as [H0|H0]; [simpl; lia|..]; simpl in H0; rewrite H0;
      [|reflexivity].
    simpl. apply IH; [exact Hw|].
    intros j Hj. apply (Hearly (S j)). simpl. lia.
Qed.

Lemma run_lit t k rest c : run (Lit t) k (chars t ++ rest) c = k rest c.
Proof. simpl. now rewrite starts_app, drop_app_length. Qed.

Lemma run_quote q k rest c :
  is_quote q = true -> run quote k (q :: rest) c = k rest c.
Proof. intros H. simpl. now rewrite H. Qed.

Lemma run_keyword kw k rest c res :
  kw = "import" \/ kw = "export" ->
  k rest c = Some res ->
  run (Alt (Lit "import") (Lit "export")) k (chars kw ++ rest) c = Some res.
Proof.
  intros [->| ->] Hk; cbn [run].
  - rewrite starts_app, drop_app_length, Hk. reflexivity.
  - change (starts (chars "import") (chars "export" ++ rest)) with false.
    cbn [orElse]. now rewrite starts_app, drop_app_length.
Qed.

Lemma space_notQuote c : is_space c = true -> notQuote c = true.
Proof.
  destruct c as [[] [] [] [] [] [] [] []]; try discriminate; reflexivity.
Qed.

Lemma spaces_notQuote w :
  forallb is_space w = true -> forallb notQuote w = true.
Proof.
  induction w as [|a w IH]; simpl; [reflexivity|].
  intros H. apply andb_prop in H as [Ha H].
  now rewrite (space_notQuote a Ha), IH.
Qed.

Lemma quote_not_space q : is_quote q = true -> is_space q = false.
Proof.
  intros H. destruct (is_space q) eqn:E; [|reflexivity].
  apply space_notQuote in E. unfold notQuote in E. now rewrite H in E.
Qed.

Lemma forallb_drop {A} (p : A -> bool) j l :
  forallb p l = true -> forallb p (drop j l) = true.
Proof.
  revert j. induction l as [|a l IH]; intros [|j]; simpl; auto.
  intros H. apply andb_prop in H as [_ H]. auto.
Qed.

(** The first quote character of a text is where it is. *)
Lemma first_quote_unique t t' q q' r r' :
  forallb notQuote t = true ->
  forallb notQuote t' = true ->
  is_quote q = true ->
  is_quote q' = true ->
  t ++ q :: r = t' ++ q' :: r' ->
  t = t' /\ q = q' /\ r = r'.
Proof.
  intros Ht Ht' Hq Hq'. revert t' Ht'.
  induction t as [|a t IH]; intros [|a' t'] Ht' E; simpl in *.
  - now injection E as -> ->.
  - injection E as -> _. apply andb_prop in Ht' as [Ha _].
    unfold notQuote in Ha. now rewrite Hq in Ha.
  - injection E as -> _. apply andb_prop in Ht as [Ha _].
    unfold notQuote in Ha. now rewrite Hq' in Ha.
  - injection E as -> E. apply andb_prop in Ht as [_ Ht].
    apply andb_prop in Ht' as [_ Ht'].
    destruct (IH Ht t' Ht' E) as (-> & -> & ->). auto.
Qed.

Lemma fromQuote_at_first_quote k t q after c r :
  forallb notQuote t = true ->
  is_quote q = true ->
  run fromQuote k (t ++ q :: after) c = Some r ->
  k after c = Some r.
Proof.
  intros Ht Hq H.
  apply RegexFacts.run_sound in H as (w & s' & gs & Hs & M & Hk).
  cbn [fromQuote matchesWith] in M.
  destruct M as (w2 & ? & ? & ? & -> & -> & (N2 & A2 & ->)
                 & ? & ? & ? & ? & -> & -> & (-> & ->)
                 & w3 & ? & ? & ? & -> & -> & (N3 & A3 & ->)
                 & (q' & -> & Hq' & ->)).
  rewrite <- !app_assoc in Hs. cbn [app] in Hs.
  rewrite !app_assoc in Hs.
  apply first_quote_unique in Hs as (_ & _ & <-); auto.
  - now rewrite app_nil_r in Hk.
  - rewrite !forallb_app, (spaces_notQuote w2 A2), (spaces_notQuote w3 A3).
    reflexivity.
Qed.

Lemma fromQuote_matches k ws2 ws3 q after c res :
  ws2 <> [] -> forallb is_space ws2 = true ->
  ws3 <> [] -> forallb is_space ws3 = true ->
  is_quote q = true ->
  k after c = Some res ->
  run fromQuote k (ws2 ++ chars "from" ++ ws3 ++ q :: after) c = Some res.
Proof.
  intros N2 A2 N3 A3 Hq Hk. unfold fromQuote. rewrite run_seq.
  apply plus_greedy_all; [exact N2|exact A2|reflexivity|].
  rewrite run_seq, run_lit, run_seq.
  apply plus_greedy_all; [exact N3|exact A3| |].
  - simpl. now apply quote_not_space.
  - now rewrite run_quote.
Qed.

(** A match that starts at an import statement as one writes it goes on
    after the first quote character with the rest of the pattern. *)
Lemma importHead_first tail kw ws1 m0 mid ws2 ws3 q after res :
  tail <> [] ->
  kw = "import" \/ kw = "export" ->
  ws1 <> [] -> forallb is_space ws1 = true ->
  is_space m0 = false -> forallb notQuote (m0 :: mid) = true ->
  ws2 <> [] -> forallb is_space ws2 = true ->
  ws3 <> [] -> forallb is_space ws3 = true ->
  is_quote q = true ->
  run (seq tail) matched after [] = Some res ->
  matchAt (seq (importHead ++ tail))
    (chars kw ++ ws1 ++ (m0 :: mid) ++ ws2 ++ chars "from" ++ ws3
       ++ q :: after)
  = Some res.
Proof.
  intros Htail Hkw N1 A1 Hm0 Hmid N2 A2 N3 A3 Hq Htl.
  destruct tail as [|r0 tail]; [easy|].
  unfold matchAt, importHead. cbn [app seq].
  set (rest := seq (r0 :: tail)) in *.
  fold matched.
  rewrite run_seq. apply run_keyword; [exact Hkw|].
  rewrite run_seq.
  apply plus_greedy_all; [exact N1|exact A1|exact Hm0|].
  change (star false any (run fromQuote (run rest matched))
            ((m0 :: mid) ++ ws2 ++ chars "from" ++ ws3 ++ q :: after) []
          = Some res).
  apply star_lazy_first.
  - clear. induction (m0 :: mid); simpl; auto.
  - intros j _.
    destruct (run fromQuote (run rest matched) _ []) as [r|] eqn:E;
      [|now left].
    right.
    replace (drop j (m0 :: mid) ++ ws2 ++ chars "from" ++ ws3 ++ q :: after)
      with ((drop j (m0 :: mid) ++ ws2 ++ chars "from" ++ ws3) ++ q :: after)
      in E by now rewrite <- !app_assoc.
    apply fromQuote_at_first_quote in E; [congruence| |exact Hq].
    rewrite !forallb_app, (forallb_drop _ j _ Hmid), (spaces_notQuote ws2 A2),
      (spaces_notQuote ws3 A3).
    reflexivity.
  - now apply fromQuote_matches.
Qed.

(** After a match the scan goes on behind it. *)
Lemma execAll_go_skip r w s' :
  execAll_go r (w ++ s') (length w) = execAll_go r s' 0.
Proof.
  induction w as [|a w IH]; simpl; [|exact IH].
  destruct s'; reflexivity.
Qed.

Lemma execAll_go_match r w rest c :
  w <> [] ->
  matchAt r (w ++ rest) = Some (rest, c) ->
  execAll_go r (w ++ rest) 0 = c :: execAll_go r rest 0.
Proof.
  intros Hne H. destruct w as [|a w]; [easy|].
  cbn [app execAll_go] in *. rewrite H. f_equal.
  replace (length (a :: w ++ rest) - length rest - 1) with (length w)
    by (cbn [length]; rewrite length_app; lia).
  apply execAll_go_skip.
Qed.

Lemma group_capture (k : cont) w rest c :
  (fun s' c' => k s' (c' ++ [of_chars (take (length (w ++ rest) - length s')
                                        (w ++ rest))])) rest c
  = k rest (c ++ [of_chars w]).
Proof.
  cbn beta. rewrite length_app.
  replace (length w + length rest - length rest) with (length w) by lia.
  now rewrite take_app_length.
Qed.

Lemma run_group r k s c :
  run (Group r) k s c
  = run r (fun s' c' =>
             k s' (c' ++ [of_chars (take (length s - length s') s)])) s c.
Proof. reflexivity. Qed.

Lemma relativeTail_matches body q post :
  body <> [] -> forallb notQuote body = true -> is_quote q = true ->
  run (seq [Group (Seq (Lit ".") (Plus true notQuote)); quote]) matched
    ((chars "." ++ body) ++ q :: post) []
  = Some (post, [of_chars (chars "." ++ body)]).
Proof.
  intros Hne Hall Hq. cbn [seq]. rewrite run_seq, run_group.
  match goal with
  | |- run _ ?k _ _ = _ => remember k as K eqn:HK
  end.
  rewrite run_seq, <- app_assoc, run_lit.
  apply plus_greedy_all; [exact Hne|exact Hall| |].
  - simpl. unfold notQuote. now rewrite Hq.
  - subst K.
    rewrite (group_capture (run quote matched) (chars "." ++ body) (q :: post)).
    now rewrite run_quote.
Qed.

Lemma aliasTail_matches ty path q post :
  ty <> [] ->
  forallb (fun c => is_word c || eqc c "-"%char) ty = true ->
  path <> [] -> forallb notQuote path = true -> is_quote q = true ->
  run (seq [ Lit "@kitn/";
             Group (Plus true (fun c => is_word c || eqc c "-"%char));
             Lit "/";
             Group (Plus true notQuote);
             quote ]) matched
    (chars "@kitn/" ++ ty ++ chars "/" ++ path ++ q :: post) []
  = Some (post, [of_chars ty; of_chars path]).
Proof.
  intros Nt At Np Ap Hq. cbn [seq].
  rewrite run_seq, run_lit, run_seq, run_group.
  match goal with
  | |- run _ ?k _ _ = _ => remember k as K eqn:HK
  end.
  apply plus_greedy_all; [exact Nt|exact At|reflexivity|].
  subst K.
  rewrite (group_capture
             (run (Seq (Lit "/") (Seq (Group (Plus true notQuote)) quote))
                matched)
             ty (chars "/" ++ path ++ q :: post)).
  rewrite run_seq, run_lit, run_seq, run_group.
  match goal with
  | |- run _ ?k _ _ = _ => remember k as K eqn:HK
  end.
  apply plus_greedy_all; [exact Np|exact Ap| |].
  - simpl. unfold notQuote. now rewrite Hq.
  - subst K. rewrite (group_capture (run quote matched) path (q :: post)).
    now rewrite run_quote.
Qed.

Lemma execAll_go_pass r a s :
  matchAt r (a :: s) = None ->
  execAll_go r (a :: s) 0 = execAll_go r s 0.
Proof. intros H. cbn [execAll_go]. now rewrite H. Qed.

End ScanFacts.

Lemma blank_chars ws :
  blank ws -> Str.chars ws <> [] /\ forallb Str.is_space (Str.chars ws) = true.
Proof.
  intros [Hne Hall]. split; [|exact Hall].
  intros H. apply Hne. now rewrite <- (RegexFacts.of_chars_chars ws), H.
Qed.

Lemma nonempty_chars t : t <> "" -> Str.chars t <> [].
Proof.
  intros Hne H. apply Hne. now rewrite <- (RegexFacts.of_chars_chars t), H.
Qed.

Lemma statement_chars kw ws1 mid ws2 ws3 q1 spec q2 post :
  Str.chars
    (kw +:+ ws1 +:+ mid +:+ ws2 +:+ "from" +:+ ws3
       +:+ String q1 (spec +:+ String q2 post))
  = (Str.chars kw ++ Str.chars ws1 ++ Str.chars mid ++ Str.chars ws2
       ++ Str.chars "from" ++ Str.chars ws3 ++ q1 :: Str.chars spec ++ [q2])
      ++ Str.chars post.
Proof.
  rewrite !chars_app. cbn [Str.chars list_ascii_of_string].
  fold (Str.chars (spec +:+ String q2 post)). rewrite chars_app.
  cbn [Str.chars list_ascii_of_string]. fold (Str.chars post).
  rewrite <- !app_assoc. cbn [app]. rewrite <- !app_assoc. reflexivity.
Qed.

Lemma statement_match tail kw ws1 mid ws2 ws3 q1 spec q2 post res :
  tail <> [] ->
  kw = "import" \/ kw = "export" ->
  blank ws1 -> importClause mid -> blank ws2 -> blank ws3 ->
  Str.is_quote q1 = true ->
  Regex.run (Regex.seq tail) matched
    (Str.chars spec ++ q2 :: Str.chars post) []
  = Some res ->
  Regex.matchAt (Regex.seq (importHead ++ tail))
    ((Str.chars kw ++ Str.chars ws1 ++ Str.chars mid ++ Str.chars ws2
        ++ Str.chars "from" ++ Str.chars ws3 ++ q1 :: Str.chars spec ++ [q2])
       ++ Str.chars post)
  = Some res.
Proof.
  intros Htail Hkw B1 [Hfree (m0 & mid' & -> & Hm0)] B2 B3 Hq1 Htl.
  apply blank_chars in B1 as [N1 A1]. apply blank_chars in B2 as [N2 A2].
  apply blank_chars in B3 as [N3 A3].
  rewrite <- !app_assoc. cbn [app]. rewrite <- !app_assoc. cbn [app].
  change (Str.chars (String m0 mid')) with (m0 :: Str.chars mid').
  now apply ScanFacts.importHead_first.
Qed.

(** X20. An import statement as one writes it is found: from a text that
    begins with import or export, white space, a clause without quote
    characters that begins with something else than white space, white
    space, the word from, white space and a relative path between two
    quote characters, the scan extracts that path first and goes on right
    after the closing quote. *)
Theorem relative_import_found kw ws1 mid ws2 ws3 q1 body q2 post :
  kw = "import" \/ kw = "export" ->
  blank ws1 -> importClause mid -> blank ws2 -> blank ws3 ->
  Str.is_quote q1 = true ->
  body <> "" -> quoteFree body ->
  Str.is_quote q2 = true ->
  extractRelativeImports
    (kw +:+ ws1 +:+ mid +:+ ws2 +:+ "from" +:+ ws3
       +:+ String q1 (("." +:+ body) +:+ String q2 post))
  = ("." +:+ body) :: extractRelativeImports post.
Proof.
  intros Hkw B1 Hmid B2 B3 Hq1 Hne Hfree Hq2.
  unfold extractRelativeImports, Regex.execAll.
  rewrite statement_chars.
  rewrite (ScanFacts.execAll_go_match relativeImportPattern _ (Str.chars post)
             [Str.of_chars (Str.chars "." ++ Str.chars body)]).
  - cbn [List.map group Nat.sub nth]. f_equal.
    now rewrite RegexFacts.of_chars_app, !RegexFacts.of_chars_chars.
  - intros H. apply (f_equal length) in H.
    rewrite !length_app in H. cbn [length] in H. lia.
  - unfold relativeImportPattern.
    apply statement_match; try assumption; [easy|].
    rewrite chars_app.
    apply ScanFacts.relativeTail_matches;
      [now apply nonempty_chars|exact Hfree|exact Hq2].
Qed.

Lemma relative_import_found_witness :
  extractRelativeImports
    ("import" +:+ " " +:+ "{ y }" +:+ " " +:+ "from" +:+ " "
       +:+ String Str.dquote
             (("." +:+ "./agents/y.js") +:+ String Str.dquote ";"))
  = ["../agents/y.js"].
Proof.
  rewrite (relative_import_found "import" " " "{ y }" " " " " Str.dquote
             "./agents/y.js" Str.dquote ";").
  - reflexivity.
  - now left.
  - split; [discriminate|reflexivity].
  - split; [reflexivity|]. exists "{"%char, " y }". now split.
  - split; [discriminate|reflexivity].
  - split; [discriminate|reflexivity].
  - reflexivity.
  - discriminate.
  - reflexivity.
  - reflexivity.
Defined.

(** X21. An alias import as one writes it is found: from a text that
    begins with import or export, white space, a clause, white space, the
    word from, white space and, between two quote characters, the kitn
    alias with a type word, a slash and a path, the scan takes the type and
    the path, keeps them when the type is one of the four directories, and
    goes on right after the closing quote. *)
Theorem alias_import_found kw ws1 mid ws2 ws3 q1 ty path q2 post :
  kw = "import" \/ kw = "export" ->
  blank ws1 -> importClause mid -> blank ws2 -> blank ws3 ->
  Str.is_quote q1 = true ->
  aliasWord ty ->
  path <> "" -> quoteFree path ->
  Str.is_quote q2 = true ->
  extractKitnAliasImports
    (kw +:+ ws1 +:+ mid +:+ ws2 +:+ "from" +:+ ws3
       +:+ String q1 (("@kitn/" +:+ ty +:+ "/" +:+ path) +:+ String q2 post))
  = (if knownAliasTypes_has ty
     then [ {| alias_type := ty; alias_path := path |} ]
     else [])
      ++ extractKitnAliasImports post.
Proof.
  intros Hkw B1 Hmid B2 B3 Hq1 [Nt At] Hne Hfree Hq2.
  unfold extractKitnAliasImports, Regex.execAll.
  rewrite statement_chars.
  rewrite (ScanFacts.execAll_go_match aliasImportPattern _ (Str.chars post)
             [Str.of_chars (Str.chars ty); Str.of_chars (Str.chars path)]).
  - cbn [flat_map group Nat.sub nth].
    now rewrite !RegexFacts.of_chars_chars.
  - intros H. apply (f_equal length) in H.
    rewrite !length_app in H. cbn [length] in H. lia.
  - unfold aliasImportPattern.
    apply statement_match; try assumption; [easy|].
    rewrite !chars_app, <- !app_assoc.
    apply ScanFacts.aliasTail_matches;
      [now apply nonempty_chars|exact At|now apply nonempty_chars
      |exact Hfree|exact Hq2].
Qed.

Lemma alias_import_found_witness :
  extractKitnAliasImports
    ("import" +:+ " " +:+ "{ a }" +:+ " " +:+ "from" +:+ " "
       +:+ String Str.dquote
             (("@kitn/" +:+ "tools" +:+ "/" +:+ "missing.js")
                +:+ String Str.dquote ";"))
  = [ {| alias_type := "tools"; alias_path := "missing.js" |} ].
Proof.
  rewrite (alias_import_found "import" " " "{ a }" " " " " Str.dquote
             "tools" "missing.js" Str.dquote ";").
  - reflexivity.
  - now left.
  - split; [discriminate|reflexivity].
  - split; [reflexivity|]. exists "{"%char, " a }". now split.
  - split; [discriminate|reflexivity].
  - split; [discriminate|reflexivity].
  - reflexivity.
  - split; [discriminate|reflexivity].
  - discriminate.
  - reflexivity.
  - reflexivity.
Defined.

(** X22. Text that cannot begin a statement is passed over: a character
    other than the first letters of import and export at the head of the
    text changes nothing to what either scan extracts. *)
Theorem scan_passes_other_text c rest :
  c <> "i"%char -> c <> "e"%char ->
  extractRelativeImports (String c rest) = extractRelativeImports rest
  /\ extractKitnAliasImports (String c rest) = extractKitnAliasImports rest.
Proof.
  intros Hi He.
  assert (Hno : forall k s0 caps,
             Regex.run (Regex.Alt (Regex.Lit "import") (Regex.Lit "export")) k
               (c :: s0) caps = None).
  { intros k s0 caps. cbn [Regex.run Str.chars list_ascii_of_string Str.starts].
    unfold Str.eqc.
    destruct (Ascii.eqb_spec "i"%char c) as [E|_]; [congruence|].
    destruct (Ascii.eqb_spec "e"%char c) as [E|_]; [congruence|].
    reflexivity. }
  unfold extractRelativeImports, extractKitnAliasImports, Regex.execAll.
  change (Str.chars (String c rest)) with (c :: Str.chars rest).
  rewrite !ScanFacts.execAll_go_pass; [split; reflexivity|..];
    unfold Regex.matchAt; apply Hno.
Qed.

Lemma scan_passes_other_text_witness :
  extractRelativeImports (String " "%char crossTypeSource)
  = extractRelativeImports crossTypeSource.
Proof.
  apply (scan_passes_other_text " "%char crossTypeSource); discriminate.
Defined.

(** ** Paths joined in two steps *)

Module PathFacts.
Import Str Path.

(** *** Splitting and joining at slashes *)

Lemma forallb_rev {A} (p : A -> bool) l : forallb p (rev l) = forallb p l.
Proof.
  induction l as [|a l IH]; simpl; [reflexivity|].
  rewrite forallb_app, IH. simpl. rewrite andb_true_r. apply andb_comm.
Qed.

Lemma split_go_app cur u v :
  split_go slash cur (u ++ slash :: v)
  = split_go slash cur u ++ split_go slash [] v.
Proof.
  revert cur. induction u as [|c u IH]; intros cur; simpl.
  - reflexivity.
  - destruct (eqc c slash); [now rewrite IH|apply IH].
Qed.

Lemma split_app u v :
  split slash (u +:+ "/" +:+ v) = split slash u ++ split slash v.
Proof.
  unfold split. rewrite !chars_app. apply split_go_app.
Qed.

Lemma split_go_slashFree cur seg :
  forallb (fun c => negb (eqc c slash)) seg = true ->
  split_go slash cur seg = [of_chars (rev cur ++ seg)].
Proof.
  revert cur. induction seg as [|c seg IH]; intros cur H; simpl.
  - now rewrite app_nil_r.
  - simpl in H. apply andb_prop in H as [Hc H].
    apply negb_true_iff in Hc. rewrite Hc, (IH _ H). simpl.
    now rewrite <- app_assoc.
Qed.

Lemma split_slashFree seg : slashFree seg -> split slash seg = [seg].
Proof.
  intros H. unfold split. rewrite split_go_slashFree by exact H.
  simpl. now rewrite RegexFacts.of_chars_chars.
Qed.

Lemma split_go_parts cur l :
  forallb (fun c => negb (eqc c slash)) cur = true ->
  Forall slashFree (split_go slash cur l).
Proof.
  revert cur. induction l as [|c l IH]; intros cur Hcur; simpl.
  - constructor; [|constructor]. unfold slashFree.
    rewrite RegexFacts.chars_of_chars, forallb_rev. exact Hcur.
  - destruct (eqc c slash) eqn:E.
    + constructor; [|now apply IH]. unfold slashFree.
      rewrite RegexFacts.chars_of_chars, forallb_rev. exact Hcur.
    + apply IH. simpl. now rewrite E.
Qed.

Lemma split_parts s : Forall slashFree (split slash s).
Proof. now apply split_go_parts. Qed.

Lemma join_cons x y l :
  Str.join "/" (x :: y :: l) = x +:+ "/" +:+ Str.join "/" (y :: l).
Proof. reflexivity. Qed.

Lemma split_join l :
  l <> [] -> Forall slashFree l -> split slash (Str.join "/" l) = l.
Proof.
  intros Hne H. induction H as [|x l Hx Hl IH]; [easy|].
  destruct l as [|y l].
  - simpl. now apply split_slashFree.
  - rewrite join_cons, split_app, (split_slashFree x Hx), IH by easy.
    reflexivity.
Qed.

(** *** Normalizing a list of segments *)

Lemma normalize_go_app allow l1 :
  forall stack l2,
    normalize_go allow stack (l1 ++ l2)
    = normalize_go allow (rev (normalize_go allow stack l1)) l2.
Proof.
  induction l1 as [|seg l1 IH]; intros stack l2; cbn [app normalize_go].
  - now rewrite rev_involutive.
  - destruct (String.eqb seg "" || String.eqb seg "."); [apply IH|].
    destruct (String.eqb seg "..").
    + destruct stack as [|top stack].
      * destruct allow; apply IH.
      * destruct (String.eqb top ".."); apply IH.
    + apply IH.
Qed.

Lemma normalize_go_length allow l :
  forall stack,
    length (normalize_go allow stack l) <= length stack + length l.
Proof.
  induction l as [|seg l IH]; intros stack; cbn [normalize_go].
  - rewrite length_rev. lia.
  - destruct (String.eqb seg "" || String.eqb seg ".");
      [specialize (IH stack); cbn [length]; lia|].
    destruct (String.eqb seg "..").
    + destruct stack as [|top stack].
      * destruct allow; [specialize (IH [seg])|specialize (IH [])];
          cbn [length] in *; lia.
      * destruct (String.eqb top "..");
          [specialize (IH (seg :: top :: stack))|specialize (IH stack)];
          cbn [length] in *; lia.
    + specialize (IH (seg :: stack)). cbn [length] in *. lia.
Qed.

Lemma normalize_go_one allow stack seg :
  normalize_go allow [] (rev stack) = rev stack ->
  normalize_go allow [] (rev stack ++ [seg])
  = normalize_go allow stack [seg].
Proof.
  intros H. now rewrite normalize_go_app, H, rev_involutive.
Qed.

(** What [normalize_go] returns is normalized already. *)
Lemma normalize_go_again allow l :
  forall stack,
    normalize_go allow [] (rev stack) = rev stack ->
    normalize_go allow [] (normalize_go allow stack l)
    = normalize_go allow stack l.
Proof.
  induction l as [|seg l IH]; intros stack Hgood; cbn [normalize_go];
    [exact Hgood|].
  destruct (String.eqb seg "" || String.eqb seg ".") eqn:E1; [now apply IH|].
  destruct (String.eqb seg "..") eqn:E2.
  - destruct stack as [|top stack].
    + destruct allow; apply IH; [|reflexivity].
      cbn [rev app normalize_go]. now rewrite E1, E2.
    + destruct (String.eqb top "..") eqn:E3; apply IH.
      * change (rev (seg :: top :: stack)) with (rev (top :: stack) ++ [seg]).
        rewrite (normalize_go_one _ _ _ Hgood). cbn [normalize_go].
        now rewrite E1, E2, E3.
      * change (rev (top :: stack)) with (rev stack ++ [top]) in Hgood.
        rewrite normalize_go_app in Hgood.
        pose proof (normalize_go_length allow (rev stack) []) as Hlen.
        rewrite length_rev in Hlen. cbn [length] in Hlen.
        remember (normalize_go allow [] (rev stack)) as R eqn:HR.
        cbn [normalize_go] in Hgood. rewrite E3 in Hgood.
        destruct (String.eqb top "" || String.eqb top ".").
        -- rewrite rev_involutive in Hgood.
           apply (f_equal length) in Hgood.
           rewrite length_app, length_rev in Hgood. cbn [length] in Hgood.
           lia.
        -- cbn [rev] in Hgood. rewrite rev_involutive in Hgood.
           now apply app_inj_tail in Hgood as [-> _].
  - apply IH.
    change (rev (seg :: stack)) with (rev stack ++ [seg]).
    rewrite (normalize_go_one _ _ _ Hgood). cbn [normalize_go].
    now rewrite E1, E2.
Qed.

Lemma normalize_go_idem allow l :
  normalize_go allow [] (normalize_go allow [] l) = normalize_go allow [] l.
Proof. now apply normalize_go_again. Qed.

(** The segments it returns are segments it was given, none empty. *)
Lemma normalize_go_parts allow (P : string -> Prop) l :
  forall stack,
    Forall P stack -> Forall P l -> Forall P (normalize_go allow stack l).
Proof.
  induction l as [|seg l IH]; intros stack Hs Hl; cbn [normalize_go].
  - now apply Forall_rev.
  - apply Forall_cons in Hl as [Hseg Hl].
    destruct (String.eqb seg "" || String.eqb seg "."); [now apply IH|].
    destruct (String.eqb seg "..").
    + destruct stack as [|top stack].
      * destruct allow; apply IH; auto.
      * apply Forall_cons in Hs as [Htop Hs].
        destruct (String.eqb top ".."); apply IH; auto.
    + apply IH; auto.
Qed.

Lemma normalize_go_nonempty allow l :
  forall stack,
    Forall (fun seg => seg <> "") stack ->
    Forall (fun seg => seg <> "") (normalize_go allow stack l).
Proof.
  induction l as [|seg l IH]; intros stack Hs; cbn [normalize_go].
  - now apply Forall_rev.
  - destruct (String.eqb_spec seg "") as [->|Hne]; [now apply IH|].
    cbn [orb].
    destruct (String.eqb seg "."); [now apply IH|].
    destruct (String.eqb seg "..").
    + destruct stack as [|top stack].
      * destruct allow; apply IH; auto.
      * apply Forall_cons in Hs as [Htop Hs].
        destruct (String.eqb top ".."); apply IH; auto.
    + apply IH; auto.
Qed.

(** *** Normalized paths *)

Lemma append_assoc a b c : (a +:+ b) +:+ c = a +:+ (b +:+ c).
Proof.
  rewrite <- (RegexFacts.of_chars_chars ((a +:+ b) +:+ c)),
    <- (RegexFacts.of_chars_chars (a +:+ (b +:+ c))).
  now rewrite !chars_app, app_assoc.
Qed.

Lemma append_nil_r a : a +:+ "" = a.
Proof.
  rewrite <- (RegexFacts.of_chars_chars (a +:+ "")), chars_app.
  cbn [chars list_ascii_of_string]. rewrite app_nil_r.
  apply RegexFacts.of_chars_chars.
Qed.

Lemma append_nonempty_l a b : a <> "" -> a +:+ b <> "".
Proof. now destruct a. Qed.

Lemma isAbsolute_app u v : u <> "" -> isAbsolute (u +:+ v) = isAbsolute u.
Proof. now destruct u. Qed.

Lemma endsWith_slash s :
  endsWith s "/"
  = match rev (chars s) with
    | c :: _ => eqc slash c
    | [] => false
    end.
Proof.
  unfold endsWith. cbn [chars list_ascii_of_string rev app starts].
  destruct (rev (chars s)); [reflexivity|apply andb_true_r].
Qed.

Lemma endsWith_app u v : v <> "" -> endsWith (u +:+ v) "/" = endsWith v "/".
Proof.
  intros Hv. rewrite !endsWith_slash, chars_app, rev_app_distr.
  destruct (rev (chars v)) as [|c l] eqn:E; [|reflexivity].
  exfalso. apply Hv. apply (f_equal (@rev ascii)) in E.
  rewrite rev_involutive in E. cbn in E.
  now rewrite <- (RegexFacts.of_chars_chars v), E.
Qed.

Lemma endsWith_with_slash u : endsWith (u +:+ "/") "/" = true.
Proof. now rewrite endsWith_app. Qed.

Lemma segment_head seg rest : segment seg -> isAbsolute (seg +:+ rest) = false.
Proof.
  intros [Hne Hfree]. destruct seg as [|c seg]; [easy|].
  unfold slashFree in Hfree.
  change (chars (String c seg)) with (c :: chars seg) in Hfree.
  cbn [forallb] in Hfree.
  apply andb_prop in Hfree as [Hc _]. apply negb_true_iff in Hc.
  unfold isAbsolute, startsWith.
  change (chars (String c seg +:+ rest)) with (c :: chars (seg +:+ rest)).
  change (chars "/") with [slash]. cbn [starts]. rewrite andb_true_r.
  unfold eqc in *. now rewrite Ascii.eqb_sym.
Qed.

Lemma segment_tail seg u : segment seg -> endsWith (u +:+ seg) "/" = false.
Proof.
  intros [Hne Hfree]. rewrite endsWith_app by exact Hne.
  rewrite endsWith_slash. unfold slashFree in Hfree.
  rewrite <- forallb_rev in Hfree.
  destruct (rev (chars seg)) as [|c l]; [reflexivity|].
  cbn [forallb] in Hfree. apply andb_prop in Hfree as [Hc _].
  apply negb_true_iff in Hc. unfold eqc in *. now rewrite Ascii.eqb_sym.
Qed.

Lemma joined_head l rest :
  l <> [] -> Forall segment l ->
  Str.join "/" l <> ""
  /\ isAbsolute (Str.join "/" l +:+ rest) = false.
Proof.
  intros Hne H. destruct H as [|x l Hx Hl]; [easy|].
  destruct l as [|y l].
  - cbn. split; [apply Hx|now apply segment_head].
  - rewrite join_cons. split.
    + apply append_nonempty_l, Hx.
    + rewrite append_assoc. now apply segment_head.
Qed.

Lemma joined_tail l u :
  l <> [] -> Forall segment l -> endsWith (u +:+ Str.join "/" l) "/" = false.
Proof.
  intros Hne H. revert u. induction H as [|x l Hx Hl IH]; intros u; [easy|].
  destruct l as [|y l].
  - cbn. now apply segment_tail.
  - rewrite join_cons, <- !append_assoc. now apply IH.
Qed.

Lemma normalize_text path :
  path <> "" ->
  normalize path
  = normalizedText (isAbsolute path) (endsWith path "/")
      (normalize_go (negb (isAbsolute path)) [] (split slash path)).
Proof.
  intros Hne. unfold normalize, normalizeString, normalizedText.
  apply String.eqb_neq in Hne. now rewrite Hne.
Qed.

Lemma split_empty : split slash "" = [""].
Proof. reflexivity. Qed.

Lemma split_leading_slash Y : split slash ("/" +:+ Y) = "" :: split slash Y.
Proof. exact (split_app "" Y). Qed.

Lemma split_trailing_slash Y : split slash (Y +:+ "/") = split slash Y ++ [""].
Proof. exact (split_app Y ""). Qed.

Lemma normalize_go_trailing allow l :
  normalize_go allow [] (l ++ [""]) = normalize_go allow [] l.
Proof.
  rewrite normalize_go_app. cbn [normalize_go String.eqb orb].
  apply rev_involutive.
Qed.

Lemma joined_nonempty l : l <> [] -> Forall segment l -> Str.join "/" l <> "".
Proof. intros Hne H. now apply (joined_head l ""). Qed.

(** The parts of a normalized text are the parts it was made of. *)
Lemma normalizedText_parts abs t segs :
  Forall segment segs ->
  let X := normalizedText abs t segs in
  X <> ""
  /\ isAbsolute X = abs
  /\ normalize_go (negb abs) [] (split slash X)
     = normalize_go (negb abs) [] segs
  /\ normalizedText abs (endsWith X "/") segs = X.
Proof.
  intros Hsegs. unfold normalizedText.
  destruct segs as [|x segs].
  - (* no segment: the root, or the current directory *)
    cbn [Str.join String.concat String.eqb].
    destruct abs; cbn [negb andb].
    + repeat split; reflexivity || discriminate.
    + destruct t; repeat split; reflexivity || discriminate.
  - set (J := Str.join "/" (x :: segs)).
    assert (Hne : J <> "") by now apply joined_nonempty.
    assert (Hrel : forall rest, isAbsolute (J +:+ rest) = false)
      by (intros rest; now apply joined_head).
    assert (Hend : forall u, endsWith (u +:+ J) "/" = false)
      by (intros u; now apply joined_tail).
    assert (Hsplit : split slash J = x :: segs).
    { apply split_join; [easy|].
      eapply Forall_impl; [exact Hsegs|]. now intros seg []. }
    apply String.eqb_neq in Hne as HneJ. rewrite HneJ. cbn [andb negb].
    rewrite HneJ.
    destruct abs, t; cbn [negb andb]; rewrite ?HneJ; cbn [negb andb].
    + (* absolute, trailing slash *)
      assert (Hne' : J +:+ "/" <> "") by now apply append_nonempty_l.
      apply String.eqb_neq in Hne'.
      split; [discriminate|]. split; [reflexivity|]. split.
      * rewrite split_leading_slash, split_trailing_slash.
        cbn [normalize_go String.eqb orb].
        now rewrite normalize_go_trailing, Hsplit.
      * now rewrite <- append_assoc, endsWith_with_slash.
    + split; [discriminate|]. split; [reflexivity|]. split.
      * rewrite split_leading_slash. cbn [normalize_go String.eqb orb].
        now rewrite Hsplit.
      * now rewrite Hend.
    + split; [now apply append_nonempty_l|]. split; [apply Hrel|]. split.
      * rewrite split_trailing_slash.
        now rewrite normalize_go_trailing, Hsplit.
      * now rewrite endsWith_with_slash.
    + split; [exact Hne|]. split.
      * specialize (Hrel ""). now rewrite append_nil_r in Hrel.
      * split; [now rewrite Hsplit|].
        specialize (Hend ""). change ("" +:+ J) with J in Hend.
        now rewrite Hend.
Qed.

Lemma normalize_segments allow path :
  Forall segment (normalize_go allow [] (split slash path)).
Proof.
  pose proof (normalize_go_parts allow slashFree (split slash path) []
                (List.Forall_nil _) (split_parts path)) as H1.
  pose proof (normalize_go_nonempty allow (split slash path) []
                (List.Forall_nil _)) as H2.
  rewrite List.Forall_forall in *. intros seg Hin. split; auto.
Qed.

(** [path.normalize] keeps the parts of a path and changes nothing when
    applied again. *)
Lemma normalize_facts path :
  path <> "" ->
  normalize path <> ""
  /\ isAbsolute (normalize path) = isAbsolute path
  /\ normalize_go (negb (isAbsolute path)) [] (split slash (normalize path))
     = normalize_go (negb (isAbsolute path)) [] (split slash path)
  /\ normalize (normalize path) = normalize path.
Proof.
  intros Hne. rewrite (normalize_text path Hne).
  set (abs := isAbsolute path). set (t := endsWith path "/").
  set (N := normalize_go (negb abs) [] (split slash path)).
  destruct (normalizedText_parts abs t N (normalize_segments _ _))
    as (Hx & Habs & Hsegs & Hagain).
  unfold N in Hsegs at 2. rewrite normalize_go_idem in Hsegs. fold N in Hsegs.
  split; [exact Hx|]. split; [exact Habs|]. split; [exact Hsegs|].
  rewrite (normalize_text _ Hx), Habs, Hsegs. exact Hagain.
Qed.

Lemma normalize_append path c :
  path <> "" -> c <> "" ->
  normalize (normalize path +:+ "/" +:+ c) = normalize (path +:+ "/" +:+ c).
Proof.
  intros Hp Hc.
  destruct (normalize_facts path Hp) as (Hx & Habs & Hsegs & _).
  rewrite (normalize_text (normalize path +:+ "/" +:+ c))
    by now apply append_nonempty_l.
  rewrite (normalize_text (path +:+ "/" +:+ c)) by now apply append_nonempty_l.
  rewrite !isAbsolute_app, Habs by assumption.
  rewrite !(endsWith_app _ ("/" +:+ c)) by discriminate.
  rewrite !split_app, !(normalize_go_app _ (split slash _)), Hsegs.
  reflexivity.
Qed.

Lemma join_one a : a <> "" -> join [a] = normalize a.
Proof.
  intros Ha. unfold join. cbn [List.filter].
  apply String.eqb_neq in Ha. rewrite Ha. cbn [negb].
  cbn [Str.join String.concat]. reflexivity.
Qed.

Lemma join_two a b :
  a <> "" -> b <> "" -> join [a; b] = normalize (a +:+ "/" +:+ b).
Proof.
  intros Ha Hb. unfold join. cbn [List.filter].
  apply String.eqb_neq in Ha, Hb. rewrite Ha, Hb. cbn [negb].
  reflexivity.
Qed.

Lemma join_nonempty parts : join parts <> "".
Proof.
  unfold join. destruct (List.filter _ parts) as [|x l] eqn:E; [discriminate|].
  assert (Hx : x <> "").
  { assert (Hin : In x (List.filter (fun p => negb (String.eqb p "")) parts))
      by (rewrite E; now left).
    apply List.filter_In in Hin as [_ Hx]. apply negb_true_iff in Hx.
    now apply String.eqb_neq. }
  apply normalize_facts. destruct l; [exact Hx|].
  change (Str.join "/" (x :: s :: l)) with (x +:+ "/" +:+ Str.join "/" (s :: l)).
  now apply append_nonempty_l.
Qed.

Ltac join_parts :=
  unfold join; cbn [List.filter String.eqb negb];
  repeat match goal with
         | H : ?x <> "" |- context [String.eqb ?x ""] =>
             rewrite (proj2 (String.eqb_neq x "") H); cbn [negb]
         end;
  try reflexivity.

(** A path joined in two steps is the path joined at once, when it
    starts from a directory. *)
Lemma join_assoc a b c :
  a <> "" -> join [join [a; b]; c] = join [a; b; c].
Proof.
  intros Ha.
  pose proof (join_nonempty [a; b]) as HX.
  destruct (normalize_facts a Ha) as (_ & _ & _ & Ha2).
  destruct (String.eqb_spec b "") as [->|Hb];
    destruct (String.eqb_spec c "") as [->|Hc].
  - assert (E : join [a; ""] = normalize a) by join_parts.
    rewrite E in *.
    transitivity (normalize (normalize a)); [join_parts|].
    rewrite Ha2. join_parts.
  - assert (E : join [a; ""] = normalize a) by join_parts.
    rewrite E in *.
    transitivity (normalize (normalize a +:+ "/" +:+ c)); [join_parts|].
    rewrite normalize_append by assumption. join_parts.
  - rewrite (join_two a b Ha Hb) in *.
    transitivity (normalize (normalize (a +:+ "/" +:+ b))); [join_parts|].
    assert (Hab : a +:+ "/" +:+ b <> "") by now apply append_nonempty_l.
    destruct (normalize_facts _ Hab) as (_ & _ & _ & ->). join_parts.
  - rewrite (join_two a b Ha Hb) in *.
    transitivity (normalize (normalize (a +:+ "/" +:+ b) +:+ "/" +:+ c));
      [join_parts|].
    rewrite normalize_append by (now apply append_nonempty_l || exact Hc).
    transitivity (normalize (a +:+ "/" +:+ b +:+ "/" +:+ c)); [|join_parts].
    f_equal. now rewrite !append_assoc.
Qed.

End PathFacts.

(** ** The builder and the validator on the same component *)

Lemma prefix_inj p a b : p +:+ a = p +:+ b -> a = b.
Proof.
  intros H. apply (f_equal Str.chars) in H. rewrite !chars_app in H.
  apply app_inv_head in H.
  now rewrite <- (RegexFacts.of_chars_chars a),
    <- (RegexFacts.of_chars_chars b), H.
Qed.

Section Agreement.
Variable JSON_parse : string -> option ComponentManifest.
Variable JSON_stringify : value -> string.
Variable localeCompare : string -> string -> Z.
Variable ROOT : string.
Variable now : string.

(** The files of a manifest, recorded one after the other. *)
Lemma recordFiles_Ok dir entry manifest installDir w fileNames :
  (forall fileName,
     In fileName fileNames ->
     is_Some (fs_files (fs w) !! Path.join [dir; entry; fileName])) ->
  forall l,
  exists l',
    foldM (recordFile dir entry manifest installDir) fileNames l w = (Ok l', w)
    /\ (forall fileName,
          In fileName fileNames ->
          JsMap.get (show installDir +:+ "/" +:+ fileName) (installedFiles l')
          = Some (name manifest)
          /\ JsMap.get (show installDir +:+ "/" +:+ fileName) (fileContents l')
             = fs_files (fs w) !! Path.join [dir; entry; fileName])
    /\ (forall fileName,
          JsMap.get (show installDir +:+ "/" +:+ fileName) (installedFiles l)
          = Some (name manifest)
          /\ JsMap.get (show installDir +:+ "/" +:+ fileName) (fileContents l)
             = fs_files (fs w) !! Path.join [dir; entry; fileName] ->
          JsMap.get (show installDir +:+ "/" +:+ fileName) (installedFiles l')
          = Some (name manifest)
          /\ JsMap.get (show installDir +:+ "/" +:+ fileName) (fileContents l')
             = fs_files (fs w) !! Path.join [dir; entry; fileName]).
Proof.
  induction fileNames as [|x rest IH]; intros Hread l.
  - exists l. split; [reflexivity|]. split; [intros f []|auto].
  - destruct (Hread x (or_introl eq_refl)) as [text Hx].
    cbn [foldM]. unfold mbind at 1, M_bind at 1.
    unfold recordFile at 1, mbind at 1, M_bind at 1, readFile at 1.
    rewrite Hx. cbn [mret M_ret].
    set (l1 := {| installedFiles := _; manifests := _; fileContents := _ |}).
    destruct (IH (fun f Hf => Hread f (or_intror Hf)) l1)
      as (l' & Hrun & Hrest & Hkeep).
    exists l'. split; [exact Hrun|].
    assert (Hx1 :
              JsMap.get (show installDir +:+ "/" +:+ x) (installedFiles l1)
              = Some (name manifest)
              /\ JsMap.get (show installDir +:+ "/" +:+ x) (fileContents l1)
                 = fs_files (fs w) !! Path.join [dir; entry; x]).
    { unfold l1. cbn [installedFiles fileContents].
      now rewrite !get_set_same, Hx. }
    split.
    + intros f [<-|Hf]; [now apply Hkeep|now apply Hrest].
    + intros f Hf. apply Hkeep.
      destruct (String.eqb_spec f x) as [->|Hne]; [exact Hx1|].
      unfold l1. cbn [installedFiles fileContents].
      rewrite !get_set_other; [exact Hf|..];
        intros E; apply Hne; apply prefix_inj in E;
        now apply (prefix_inj "/") in E.
Qed.

Lemma scripts_read_the_same dir entry fileName :
  dir <> "" ->
  Path.join [Path.join [dir; entry]; fileName]
  = Path.join [dir; entry; fileName].
Proof. apply PathFacts.join_assoc. Qed.

(** X23. The two scripts look for the files of a component in the same
    place: the path the builder joins in two steps, the directory of the
    component first and the file then, is the path the validator joins at
    once, for every entry and file name, the directory of the type not
    being empty. *)
Theorem both_scripts_read_the_same_path dir entry fileName :
  dir <> "" ->
  let componentDir := Path.join [dir; entry] in
  Path.join [componentDir; fileName] = Path.join [dir; entry; fileName]
  /\ Path.join [componentDir; "manifest.json"]
     = Path.join [dir; entry; "manifest.json"].
Proof.
  intros Hdir componentDir. split; now apply scripts_read_the_same.
Qed.

(** X24. What the builder builds the validator checks: when the step of
    the builder for a directory entry with a manifest succeeds, the step of
    the validator for that entry succeeds too, in the same world, and for
    every file record of the item built it has the path of the record
    registered for the component and the content of the record as the
    source to check. *)
Theorem built_files_are_the_checked_files typeDir dir st entry w st' w' raw
    manifest l :
  dir <> "" ->
  fs_files (fs w) !! Path.join [dir; entry; "manifest.json"] = Some raw ->
  JSON_parse raw = Some manifest ->
  buildEntry JSON_parse JSON_stringify localeCompare ROOT now typeDir dir st entry w
  = (Ok st', w') ->
  exists item records l',
    last (allItems st') = Some item
    /\ field "files" item = VArr records
    /\ scanEntry JSON_parse dir l entry w = (Ok l', w)
    /\ forall record,
         In record records ->
         exists path text,
           field "path" record = VStr path
           /\ field "content" record = VStr text
           /\ JsMap.get path (installedFiles l') = Some (name manifest)
           /\ JsMap.get path (fileContents l') = Some text.
Proof.
  intros Hdir Hraw Hparse Hbuild.
  pose proof Hraw as Hraw'.
  rewrite <- (scripts_read_the_same dir entry "manifest.json" Hdir) in Hraw'.
  destruct (buildEntry_steps JSON_parse JSON_stringify localeCompare ROOT now typeDir dir st
              entry w st' w' raw manifest Hraw' Hparse Hbuild)
    as (fc & item & w2 & w3 & line & listing & Hsources & Hitem & _ & _ & _
        & _ & ->).
  destruct (readSources_built now _ _ _ _ _ _ Hsources Hitem)
    as (fileNames & Hfiles & Hfc).
  pose proof (buildRegistryItem_Ok_plain now manifest fc fileNames item
                Hfiles Hitem) as Hplain.
  assert (Hitems : allItems
                     {| allItems := allItems st ++ [item];
                        existingVersions :=
                          JsMap.set (name manifest)
                            (collectVersions localeCompare (name manifest)
                               listing)
                            (existingVersions st) |}
                   = allItems st ++ [item]) by reflexivity.
  assert (Hwt : wellTyped manifest = true).
  { destruct (wellTyped manifest) eqn:E; [reflexivity|].
    destruct (buildRegistryItem_illtyped now manifest fc fileNames Hfiles E)
      as [i Hi].
    rewrite Hi in Hitem. discriminate. }
  rewrite (buildRegistryItem_ok now manifest fc fileNames Hwt Hfiles Hplain)
    in Hitem.
  injection Hitem as <-.
  assert (Hread : forall fileName,
             In fileName fileNames ->
             is_Some (fs_files (fs w) !! Path.join [dir; entry; fileName])).
  { intros f Hf. destruct (Hfc f Hf) as [Hsome Heq].
    rewrite <- (scripts_read_the_same dir entry f Hdir), <- Heq. exact Hsome. }
  destruct (recordFiles_Ok dir entry manifest (typeToDir (type_ manifest)) w
              fileNames Hread
              {| installedFiles := installedFiles l;
                 manifests :=
                   JsMap.set (name manifest) manifest (manifests l);
                 fileContents := fileContents l |})
    as (l' & Hscan & Hrec & _).
  eexists _, (List.map (fileRecord manifest fc) fileNames), l'.
  split; [rewrite Hitems; apply last_snoc|].
  split; [reflexivity|].
  split.
  { unfold scanEntry, mbind at 1, M_bind at 1, tryCatch, fmap, M_fmap,
      readFile.
    rewrite Hraw. cbn [fst snd]. unfold parseManifest. rewrite Hparse.
    unfold mbind at 1, M_bind at 1. cbn [mret M_ret]. rewrite Hfiles.
    exact Hscan. }
  intros record Hin. apply List.in_map_iff in Hin as (f & <- & Hf).
  destruct (Hfc f Hf) as [[text Htext] Heq].
  destruct (Hrec f Hf) as [Howner Hsource].
  exists (show (typeToDir (type_ manifest)) +:+ "/" +:+ f), text.
  split; [reflexivity|].
  split; [cbn [fileRecord field assoc String.eqb Ascii.eqb Bool.eqb];
          unfold PlainObject.get; now rewrite Htext|].
  split; [exact Howner|].
  rewrite Hsource, <- (scripts_read_the_same dir entry f Hdir), <- Heq.
  exact Htext.
Qed.

End Agreement.

Lemma built_files_are_the_checked_files_witness :
  exists l',
    scanEntry exampleParse "/repo/components/tools" emptyLayout "foo"
      (worldOf fooFiles)
    = (Ok l', worldOf fooFiles).
Proof.
  pose (st0 := {| allItems := []; existingVersions := JsMap.empty |}).
  pose (m := component "foo" "kitn:tool" ["foo.ts"] None (Some "1.0.0")).
  pose (r := buildEntry exampleParse exampleStringify Collator.localeCompare "/repo/"
               "2026-01-01T00:00:00.000Z" "tools" "/repo/components/tools"
               st0 "foo" (worldOf fooFiles)).
  pose (st' := match fst r with Ok s => s | Throw _ => st0 end).
  assert (Hrun : r = (Ok st', snd r)) by (vm_compute; reflexivity).
  assert (Hraw :
            fs_files (fs (worldOf fooFiles))
              !! Path.join ["/repo/components/tools"; "foo"; "manifest.json"]
            = Some (manifestText m)) by (vm_compute; reflexivity).
  assert (Hparse : exampleParse (manifestText m) = Some m)
    by (vm_compute; reflexivity).
  assert (Hdir : "/repo/components/tools" <> "") by discriminate.
  destruct (built_files_are_the_checked_files exampleParse exampleStringify
              Collator.localeCompare "/repo/" "2026-01-01T00:00:00.000Z" "tools"
              "/repo/components/tools" st0 "foo" (worldOf fooFiles) st'
              (snd r) (manifestText m) m emptyLayout Hdir Hraw Hparse Hrun)
    as (item & records & l' & _ & _ & Hscan & _).
  exists l'. exact Hscan.
Defined.

Lemma both_scripts_read_the_same_path_witness :
  Path.join [Path.join ["/repo/components/tools"; "foo"]; "../foo.ts"]
  = Path.join ["/repo/components/tools"; "foo"; "../foo.ts"].
Proof.
  apply (both_scripts_read_the_same_path "/repo/components/tools" "foo"
           "../foo.ts").
  discriminate.
Defined.
